(** * EXIF-Dumper: a model of the processing code and its properties

The development follows the Python sources:
- [src/processing/gps_converter.py]   ->  [Module GPSConverter],
                                          [Module GPSFields], [Module GPSFormats]
- [src/processing/exif_processor.py]  ->  [Module EXIFProcessor], [Module EXIFItems]
- [src/processing/batch_processor.py] ->  [Module BatchProcessor]
- [src/ui/main_window.py]             ->  [Module MainWindow], [Module Requests]
- [src/ui/widgets/batch_tab.py]       ->  [Module BatchProcessingTab]
- [UI/UI.py] (the earlier processor)  ->  [Module Legacy], [Module LegacyThreads]

Python floats are IEEE-754 binary64 numbers; they are modelled by Rocq's
primitive floats, which compute with the same rounding, and every sum,
quotient and comparison of the code is the binary64 one; the standard
geohash, which the code is compared with, is defined over exact rationals
([Q]).  Python integers are [Z], strings are [string] (UTF-8 text),
dictionaries are [gmap], paths are pathlib's pure POSIX paths.  PIL,
piexif and shutil are an interface ([Module Lib]) over an abstract world;
the code runs in a monad that threads the world, may raise, and logs each
call to a library.  [Module Disk] is a small concrete world for examples. *)

From Stdlib Require Import ZArith String Ascii List Bool Lia.
From Stdlib Require Import PrimFloat FloatOps SpecFloat DecimalString.
From Stdlib Require Import FloatAxioms.
From Stdlib Require Uint63.
From Stdlib Require Import QArith Qpower.
From stdpp Require Import base option list gmap strings.

Set Warnings "-register-all,-inexact-float,-notation-for-abbreviation".

Local Open Scope Z_scope.
Local Open Scope string_scope.

(** ** Python values, exceptions and results *)

Module Py.

(** The exception classes the code names, one for every other subclass
    of [Exception], and [Exception] itself ([PlainException]). *)
Inductive exc_class :=
| ValueError | TypeError | KeyError | IndexError | AttributeError
| OverflowError | OSError | OtherError | PlainException.

#[export] Instance exc_class_eq_dec : EqDecision exc_class.
Proof. solve_decision. Defined.

(** An exception: its class and the text [str(e)] gives. *)
Record exn := Exn { exc_cls : exc_class; exc_str : string }.

(** A computation either returns or raises. *)
Inductive result (A : Type) :=
| Ok (a : A)
| Raise (e : exn).
Arguments Ok {A} a.
Arguments Raise {A} e.

Definition bind {A B} (r : result A) (k : A -> result B) : result B :=
  match r with
  | Ok a => k a
  | Raise e => Raise e
  end.

(** Values that can sit in an EXIF dictionary.  [PyRational f] is PIL's
    [IFDRational], represented by the float its [__float__] returns;
    [PyIter name t l] is any other iterable object (a frozenset, a range,
    an array), of the type named [name], with truth value [t] and elements
    [l]; [PyObject name t] is any other object, of the type named [name].
    Neither has a method called [items] or [update]: an object that has them
    is a dictionary to the code. *)
Inductive value :=
| PyNone
| PyBool (b : bool)
| PyInt (z : Z)
| PyFloat (f : float)
| PyStr (s : string)
| PyBytes (s : string)
| PyRational (f : float)
| PyList (l : list value)
| PyTuple (l : list value)
| PyIter (name : string) (t : bool) (l : list value)
| PyObject (name : string) (t : bool).

(** Dictionary keys: strings or integers. *)
Inductive key :=
| KStr (s : string)
| KInt (z : Z).

#[export] Instance key_eq_dec : EqDecision key.
Proof. solve_decision. Defined.

Definition key_to_sum (k : key) : string + Z :=
  match k with KStr s => inl s | KInt z => inr z end.

Definition key_of_sum (k : string + Z) : key :=
  match k with inl s => KStr s | inr z => KInt z end.

#[export] Instance key_countable : Countable key.
Proof.
  apply (inj_countable' key_to_sum key_of_sum).
  intros []; reflexivity.
Defined.

(** [d.get(k, default)] *)
Definition get (d : gmap key value) (k : key) (default : value) : value :=
  match d !! k with
  | Some v => v
  | None => default
  end.

(** Truth value of an object ([bool(x)]). *)
Definition truthy (v : value) : bool :=
  match v with
  | PyNone => false
  | PyBool b => b
  | PyInt z => negb (Z.eqb z 0)
  | PyFloat f => negb (PrimFloat.eqb f 0%float)
  | PyStr s => negb (String.eqb s "")
  | PyBytes s => negb (String.eqb s "")
  | PyRational f => negb (PrimFloat.eqb f 0%float)
  | PyList l => negb (Nat.eqb (List.length l) 0)
  | PyTuple l => negb (Nat.eqb (List.length l) 0)
  | PyIter _ t _ => t
  | PyObject _ t => t
  end.

(** [type(v).__name__] *)
Definition type_name (v : value) : string :=
  match v with
  | PyNone => "NoneType"
  | PyBool _ => "bool"
  | PyInt _ => "int"
  | PyFloat _ => "float"
  | PyStr _ => "str"
  | PyBytes _ => "bytes"
  | PyRational _ => "IFDRational"
  | PyList _ => "list"
  | PyTuple _ => "tuple"
  | PyIter name _ _ => name
  | PyObject name _ => name
  end.

(** The text of the [AttributeError] that [v.attribute] raises on a value
    without that attribute. *)
Definition no_attribute (v : value) (attribute : string) : exn :=
  Exn AttributeError
    ("'" ++ type_name v ++ "' object has no attribute '" ++ attribute ++ "'").

(** [float(n)] for an integer [n]: the nearest binary64 number, or
    [OverflowError] when that is infinite. *)
Definition float_of_int (z : Z) : result float :=
  let f := SF2Prim (binary_normalize prec emax z 0 false) in
  if PrimFloat.is_infinity f
  then Raise (Exn OverflowError "int too large to convert to float")
  else Ok f.

(** [int(x)] for a float [x]: truncation towards zero. *)
Definition int_of_float (x : float) : result Z :=
  match Prim2SF x with
  | S754_zero _ => Ok 0
  | S754_finite s m e =>
      let a := if Z.leb 0 e then Z.pos m * 2 ^ e else Z.pos m / 2 ^ (- e) in
      Ok (if s then - a else a)
  | S754_infinity _ =>
      Raise (Exn OverflowError "cannot convert float infinity to integer")
  | S754_nan =>
      Raise (Exn ValueError "cannot convert float NaN to integer")
  end.

(** The capital of an ASCII letter. *)
Definition upper_ascii (c : ascii) : ascii :=
  let n := nat_of_ascii c in
  if (Nat.leb 97 n && Nat.leb n 122)%bool then ascii_of_nat (n - 32) else c.

(** The characters beyond ASCII whose upper-case form holds an ASCII
    character, with that form: the dotless i, the long s (U+017F, whose
    capital is the letter S), the sharp s, seven letters that have no
    capital of their own, and the Latin ligatures. *)
Definition upper_special : list (string * string) :=
  [
     ("ı", "I");
     ("ſ", "S");
     ("ß", "SS");
     ("ŉ", "ʼN");
     ("ǰ", "J̌");
     ("ẖ", "H̱");
     ("ẗ", "T̈");
     ("ẘ", "W̊");
     ("ẙ", "Y̊");
     ("ẚ", "Aʾ");
     ("ﬀ", "FF");
     ("ﬁ", "FI");
     ("ﬂ", "FL");
     ("ﬃ", "FFI");
     ("ﬄ", "FFL");
     ("ﬅ", "ST");
     ("ﬆ", "ST")
  ].

(** The text that follows the prefix [p] of [s]. *)
Fixpoint strip_prefix (p s : string) : option string :=
  match p, s with
  | EmptyString, _ => Some s
  | String a p', String b s' =>
      if Ascii.eqb a b then strip_prefix p' s' else None
  | String _ _, EmptyString => None
  end.

(** The entry of a table whose character starts [s]: the upper-case form
    and the number of bytes of the character. *)
Fixpoint upper_lookup (table : list (string * string)) (s : string)
    : option (string * nat) :=
  match table with
  | [] => None
  | (character, form) :: table' =>
      match strip_prefix character s with
      | Some _ => Some (form, String.length character)
      | None => upper_lookup table' s
      end
  end.

(** [str.upper].  Text is held in UTF-8.  An ASCII letter gives its
    capital and a character of [upper_special] its upper-case form, whose
    remaining [skip] bytes are passed over.  Every other character beyond
    ASCII is kept as it is: its upper-case form holds no ASCII character, so
    that the result agrees with Python's wherever it is compared with ASCII
    text. *)
Fixpoint upper_from (skip : nat) (s : string) : string :=
  match s with
  | EmptyString => EmptyString
  | String c s' =>
      match skip with
      | S skip' => upper_from skip' s'
      | O =>
          match upper_lookup upper_special s with
          | Some (form, bytes) => form ++ upper_from (bytes - 1) s'
          | None => String (upper_ascii c) (upper_from 0 s')
          end
      end
  end.

Definition upper (s : string) : string := upper_from 0 s.

(** Decimal text of an integer, as in an f-string. *)
Definition str_of_int (z : Z) : string := NilZero.string_of_int (Z.to_int z).

(** [s[i]] on a string: negative indices count from the end, and an index
    out of range raises [IndexError]. *)
Definition str_index (s : string) (i : Z) : result ascii :=
  let n := Z.of_nat (String.length s) in
  let j := if Z.ltb i 0 then i + n else i in
  if (Z.leb 0 j && Z.ltb j n)%bool
  then match String.get (Z.to_nat j) s with
       | Some c => Ok c
       | None => Raise (Exn IndexError "string index out of range")
       end
  else Raise (Exn IndexError "string index out of range").

(** [try: body  except (cs): handler] *)
Definition try_except {A} (cs : list exc_class) (body : result A)
    (handler : exn -> result A) : result A :=
  match body with
  | Ok a => Ok a
  | Raise e =>
      if bool_decide (exc_cls e ∈ cs) then handler e else Raise e
  end.

(** A [while] loop over a state, with a bound on the number of tests of
    its condition; [None] when the bound is reached. *)
Fixpoint while {S : Type} (fuel : nat) (cond : S -> bool)
    (body : S -> result S) (s : S) : option (result S) :=
  match fuel with
  | O => None
  | Datatypes.S fuel' =>
      if cond s
      then match body s with
           | Ok s' => while fuel' cond body s'
           | Raise e => Some (Raise e)
           end
      else Some (Ok s)
  end.

(** The builtin [float(s)] on text is not part of the repository; it is
    a parameter of the model. *)
Class StrToFloat := float_of_str : string -> option float.

End Py.

Export Py.

(** ** src/processing/gps_converter.py *)

Module GPSConverter.

Section Parsing.
Context `{StrToFloat}.

(** The builtin [float(x)]. *)
Definition float (v : value) : result PrimFloat.float :=
  match v with
  | PyBool b => Ok (if b then 1 else 0)%float
  | PyInt z => float_of_int z
  | PyFloat f => Ok f
  | PyRational f => Ok f
  | PyStr s | PyBytes s =>
      match float_of_str s with
      | Some f => Ok f
      | None => Raise (Exn ValueError "could not convert string to float")
      end
  | PyNone | PyList _ | PyTuple _ | PyIter _ _ _ | PyObject _ _ =>
      Raise (Exn TypeError "float() argument must be a string or a real number")
  end.

Definition is_list_or_tuple (v : value) : bool :=
  match v with PyList _ | PyTuple _ => true | _ => false end.

Definition is_str_or_bytes (v : value) : bool :=
  match v with PyStr _ | PyBytes _ => true | _ => false end.

(** [hasattr(v, '__iter__')] *)
Definition has_iter (v : value) : bool :=
  match v with
  | PyStr _ | PyBytes _ | PyList _ | PyTuple _ | PyIter _ _ _ => true
  | _ => false
  end.

(** [list(v)] for a list, a tuple or another iterable. *)
Definition elements (v : value) : list value :=
  match v with
  | PyList l | PyTuple l | PyIter _ _ l => l
  | _ => []
  end.

(** [l[i]] *)
Definition item (l : list value) (i : nat) : result value :=
  match nth_error l i with
  | Some x => Ok x
  | None => Raise (Exn IndexError "list index out of range")
  end.

(** The three assignments [degrees = float(l[0])], [minutes =
    float(l[1])], [seconds = float(l[2])]. *)
Definition degrees_minutes_seconds (l : list value)
    : result (PrimFloat.float * PrimFloat.float * PrimFloat.float) :=
  bind (bind (item l 0) float) (fun degrees =>
  bind (bind (item l 1) float) (fun minutes =>
  bind (bind (item l 2) float) (fun seconds =>
  Ok (degrees, minutes, seconds)))).

(** [isinstance(ref, str) and ref.upper() in ['S', 'W']] *)
Definition ref_is_south_or_west (ref : value) : bool :=
  match ref with
  | PyStr r => bool_decide (upper r ∈ ["S"; "W"])
  | _ => false
  end.

(** The body of the [try] of [_dms_to_decimal]; [Ok None] is
    [return None]. *)
Definition dms_to_decimal_body (dms_data ref : value)
    : result (option PrimFloat.float) :=
  bind
    (if (is_list_or_tuple dms_data
         && Nat.leb 3 (List.length (elements dms_data)))%bool
     then bind (degrees_minutes_seconds (elements dms_data))
            (fun t => Ok (Some t))
     else if (has_iter dms_data && negb (is_str_or_bytes dms_data))%bool
     then
       let dms_list := elements dms_data in
       if Nat.leb 3 (List.length dms_list)
       then bind (degrees_minutes_seconds dms_list) (fun t => Ok (Some t))
       else Ok None
     else Ok None)
    (fun t =>
       match t with
       | None => Ok None
       | Some (degrees, minutes, seconds) =>
           let decimal := (degrees + (minutes / 60) + (seconds / 3600))%float in
           let decimal :=
             if ref_is_south_or_west ref then (- decimal)%float else decimal in
           Ok (Some decimal)
       end).

Definition _dms_to_decimal (dms_data ref : value)
    : result (option PrimFloat.float) :=
  try_except [ValueError; TypeError; AttributeError]
    (dms_to_decimal_body dms_data ref)
    (fun _ => Ok None).

(** [gps_info.get(name, gps_info.get(number))] *)
Definition get2 (gps_info : gmap key value) (name : string) (number : Z)
    : value :=
  get gps_info (KStr name) (get gps_info (KInt number) PyNone).

(** [parse_exif_gps] on a dictionary ([isinstance(gps_info, dict)]
    holds by typing; [not gps_info] is emptiness). *)
Definition parse_exif_gps (gps_info : gmap key value)
    : result (option (PrimFloat.float * PrimFloat.float)) :=
  if bool_decide (dom gps_info = ∅) then Ok None
  else
    try_except [KeyError; ValueError; TypeError; IndexError]
      (let lat_ref := get2 gps_info "GPSLatitudeRef" 1 in
       let lat_data := get2 gps_info "GPSLatitude" 2 in
       let lon_ref := get2 gps_info "GPSLongitudeRef" 3 in
       let lon_data := get2 gps_info "GPSLongitude" 4 in
       if negb (forallb truthy [lat_ref; lat_data; lon_ref; lon_data])
       then Ok None
       else
         bind (_dms_to_decimal lat_data lat_ref) (fun latitude =>
         bind (_dms_to_decimal lon_data lon_ref) (fun longitude =>
         match latitude, longitude with
         | Some latitude, Some longitude =>
             if (negb ((-90 <=? latitude) && (latitude <=? 90))
                 || negb ((-180 <=? longitude) && (longitude <=? 180)))%bool%float
             then Ok None
             else if ((latitude =? 0) && (longitude =? 0))%bool%float
             then Ok None
             else Ok (Some (latitude, longitude))
         | _, _ => Ok None
         end)))
      (fun _ => Ok None).

(** *** The decoding as the specification words it *)

(** The components a DMS datum provides: the elements of a list, a
    tuple or another iterable that is not text. *)
Definition components (dms_data : value) : option (list value) :=
  match dms_data with
  | PyList l | PyTuple l | PyIter _ _ l => Some l
  | _ => None
  end.


(** The coordinates a GPS structure decodes to, before validation. *)
Definition decoded (gps_info : gmap key value)
    : option (PrimFloat.float * PrimFloat.float) :=
  match _dms_to_decimal (get2 gps_info "GPSLatitude" 2)
          (get2 gps_info "GPSLatitudeRef" 1),
        _dms_to_decimal (get2 gps_info "GPSLongitude" 4)
          (get2 gps_info "GPSLongitudeRef" 3) with
  | Ok (Some latitude), Ok (Some longitude) => Some (latitude, longitude)
  | _, _ => None
  end.

End Parsing.

(** [zone = int((longitude + 180) / 6) + 1] *)
Definition utm_zone (longitude : PrimFloat.float) : result Z :=
  bind (int_of_float ((longitude + 180) / 6)%float) (fun n => Ok (n + 1)).

(** [hemisphere = 'N' if latitude >= 0 else 'S'] *)
Definition utm_hemisphere (latitude : PrimFloat.float) : string :=
  if (0 <=? latitude)%float then "N" else "S".

Definition to_utm (latitude longitude : PrimFloat.float) : result string :=
  bind (utm_zone longitude) (fun zone =>
  let hemisphere := utm_hemisphere latitude in
  Ok ("Zone " ++ str_of_int zone ++ hemisphere
      ++ " (Approximate conversion - use specialized library for precise UTM)")).

(** *** [to_geohash] *)

Definition base32 : string := "0123456789bcdefghjkmnpqrstuvwxyz".

(** The local variables of [to_geohash] that the loop changes (the
    variable [bits] is assigned once and never read). *)
Record geohash_vars := GeohashVars {
  lat_range : PrimFloat.float * PrimFloat.float;
  lon_range : PrimFloat.float * PrimFloat.float;
  geohash : string;
  bit : Z;
  ch : Z;
  even : bool
}.

Definition geohash_init : geohash_vars :=
  {| lat_range := ((-90)%float, 90%float);
     lon_range := ((-180)%float, 180%float);
     geohash := "";
     bit := 0;
     ch := 0;
     even := true |}.

(** [len(geohash) < precision] *)
Definition geohash_cond (precision : Z) (v : geohash_vars) : bool :=
  Z.ltb (Z.of_nat (String.length (geohash v))) precision.

(** One pass through the body of the [while] loop. *)
Definition geohash_body (latitude longitude : PrimFloat.float)
    (v : geohash_vars) : result geohash_vars :=
  let v1 :=
    if even v then
      let mid := ((fst (lon_range v) + snd (lon_range v)) / 2)%float in
      if (mid <=? longitude)%float
      then {| lat_range := lat_range v;
              lon_range := (mid, snd (lon_range v));
              geohash := geohash v; bit := bit v;
              ch := Z.lor (ch v) (Z.shiftl 1 (4 - bit v));
              even := even v |}
      else {| lat_range := lat_range v;
              lon_range := (fst (lon_range v), mid);
              geohash := geohash v; bit := bit v; ch := ch v;
              even := even v |}
    else
      let mid := ((fst (lat_range v) + snd (lat_range v)) / 2)%float in
      if (mid <=? latitude)%float
      then {| lat_range := (mid, snd (lat_range v));
              lon_range := lon_range v;
              geohash := geohash v; bit := bit v;
              ch := Z.lor (ch v) (Z.shiftl 1 (4 - bit v));
              even := even v |}
      else {| lat_range := (fst (lat_range v), mid);
              lon_range := lon_range v;
              geohash := geohash v; bit := bit v; ch := ch v;
              even := even v |} in
  let v2 :=
    {| lat_range := lat_range v1; lon_range := lon_range v1;
       geohash := geohash v1; bit := bit v1; ch := ch v1;
       even := negb (even v1) |} in
  if Z.ltb (bit v2) 4
  then Ok {| lat_range := lat_range v2; lon_range := lon_range v2;
             geohash := geohash v2; bit := bit v2 + 1; ch := ch v2;
             even := even v2 |}
  else
    bind (str_index base32 (ch v2)) (fun c =>
    Ok {| lat_range := lat_range v2; lon_range := lon_range v2;
          geohash := geohash v2 ++ String c EmptyString;
          bit := 0; ch := 0; even := even v2 |}).

(** [to_geohash] with a bound on the number of loop tests. *)
Definition to_geohash_fuel (fuel : nat)
    (latitude longitude : PrimFloat.float) (precision : Z)
    : option (result string) :=
  match while fuel (geohash_cond precision)
          (geohash_body latitude longitude) geohash_init with
  | None => None
  | Some (Ok v) => Some (Ok (geohash v))
  | Some (Raise e) => Some (Raise e)
  end.

(** Five passes per symbol and a last test of the condition are enough
    (proved below), which gives the function itself. *)
Definition to_geohash (latitude longitude : PrimFloat.float)
    (precision : Z) : option (result string) :=
  to_geohash_fuel (5 * Z.to_nat precision + 1) latitude longitude precision.

(** *** The loop, unrolled

What the loop computes, as a recursion on the number of bits: the
longitude range and the latitude range are bisected in turn, longitude
first, at the midpoint the code computes, the binary64 sum of the two
ends halved; five bits, most significant first, select one symbol of the
alphabet. *)

Definition bisect (x : PrimFloat.float)
    (r : PrimFloat.float * PrimFloat.float)
    : bool * (PrimFloat.float * PrimFloat.float) :=
  let mid := ((fst r + snd r) / 2)%float in
  if (mid <=? x)%float then (true, (mid, snd r)) else (false, (fst r, mid)).

Fixpoint interleaved_bits (n : nat) (lon_turn : bool)
    (latitude longitude : PrimFloat.float)
    (lat_r lon_r : PrimFloat.float * PrimFloat.float) : list bool :=
  match n with
  | O => []
  | S n' =>
      if lon_turn then
        let '(b, r) := bisect longitude lon_r in
        b :: interleaved_bits n' false latitude longitude lat_r r
      else
        let '(b, r) := bisect latitude lat_r in
        b :: interleaved_bits n' true latitude longitude r lon_r
  end.

(** The number a group of bits denotes, most significant bit first. *)
Definition bits_value (bs : list bool) : Z :=
  fold_left (fun acc (b : bool) => 2 * acc + (if b then 1 else 0)) bs 0.

Definition alphabet : list ascii := list_ascii_of_string base32.

Definition symbol (bs : list bool) : ascii :=
  nth (Z.to_nat (bits_value bs)) alphabet "0"%char.

Fixpoint groups_of_five (count : nat) (bs : list bool) : list (list bool) :=
  match count with
  | O => []
  | S count' => firstn 5 bs :: groups_of_five count' (skipn 5 bs)
  end.

(** The two ranges after [n] bisections. *)
Fixpoint ranges_after (n : nat) (lon_turn : bool)
    (latitude longitude : PrimFloat.float)
    (lat_r lon_r : PrimFloat.float * PrimFloat.float)
    : (PrimFloat.float * PrimFloat.float) * (PrimFloat.float * PrimFloat.float) :=
  match n with
  | O => (lat_r, lon_r)
  | S n' =>
      if lon_turn
      then ranges_after n' false latitude longitude lat_r
             (snd (bisect longitude lon_r))
      else ranges_after n' true latitude longitude
             (snd (bisect latitude lat_r)) lon_r
  end.

(** The symbols of [count] groups of five bits, from given ranges and
    turn. *)
Definition symbols (latitude longitude : PrimFloat.float) (count : nat)
    (lon_turn : bool) (lat_r lon_r : PrimFloat.float * PrimFloat.float)
    : string :=
  string_of_list_ascii
    (map symbol
       (groups_of_five count
          (interleaved_bits (5 * count) lon_turn latitude longitude
             lat_r lon_r))).

(** The geohash with the midpoints rounded as the code rounds them. *)
Definition rounded_geohash (latitude longitude : PrimFloat.float)
    (precision : nat) : string :=
  symbols latitude longitude precision true
    ((-90)%float, 90%float) ((-180)%float, 180%float).

(** *** The geohash as the specification words it

The standard geohash of a point: the bits come from bisecting the
longitude range [-180, 180] and the latitude range [-90, 90] in turn,
longitude first; a bit is 1 exactly when the coordinate is at least the
midpoint of its current range; five bits, most significant first, select
one symbol of the alphabet.  Coordinates, ranges and midpoints are exact
numbers here: rationals, kept in lowest terms. *)

(** The number that a float denotes: sign, mantissa and exponent stand
    for [m * 2^e]; 0 for a zero (and for what is not a number). *)
Definition float_value (x : PrimFloat.float) : Q :=
  match Prim2SF x with
  | S754_finite s m e => Qred (inject_Z (cond_Zopp s (Z.pos m)) * Qpower 2 e)
  | _ => 0%Q
  end.

Definition exact_bisect (x : Q) (r : Q * Q) : bool * (Q * Q) :=
  let mid := Qred ((fst r + snd r) / 2) in
  if Qle_bool mid x then (true, (mid, snd r)) else (false, (fst r, mid)).

Fixpoint exact_bits (n : nat) (lon_turn : bool) (latitude longitude : Q)
    (lat_r lon_r : Q * Q) : list bool :=
  match n with
  | O => []
  | S n' =>
      if lon_turn then
        let '(b, r) := exact_bisect longitude lon_r in
        b :: exact_bits n' false latitude longitude lat_r r
      else
        let '(b, r) := exact_bisect latitude lat_r in
        b :: exact_bits n' true latitude longitude r lon_r
  end.

Definition standard_geohash (latitude longitude : PrimFloat.float)
    (precision : nat) : string :=
  string_of_list_ascii
    (map symbol
       (groups_of_five precision
          (exact_bits (5 * precision) true
             (float_value latitude) (float_value longitude)
             ((-90)%Q, 90%Q) ((-180)%Q, 180%Q)))).

End GPSConverter.


(** ** The external libraries

PIL, piexif and shutil are not part of the repository.  They are an
interface over an abstract world (the file system and whatever else the
libraries read or write); every call may raise, and leaves a world. *)

Module Lib.

(** A value of an EXIF table: a plain value or a nested dictionary. *)
Inductive exif_value :=
| Plain (v : value)
| Nested (d : gmap key value).

(** What [image._getexif()] returns for a tag: a plain value or a
    dictionary from GPS tag numbers to values. *)
Inductive raw_value :=
| RawValue (v : value)
| RawDict (items : list (Z * value)).

Class Libs := {
  world : Type;
  image : Type;
  (** [PIL.Image.open(path)] *)
  image_open : string -> world -> result image * world;
  (** [hasattr(image, '_getexif')] *)
  image_has_getexif : image -> bool;
  (** [image._getexif()]: [None] or the items of a dictionary *)
  image_getexif : image -> world -> result (option (list (Z * raw_value))) * world;
  (** [PIL.ExifTags.TAGS] and [GPSTAGS] *)
  TAGS : Z -> option string;
  GPSTAGS : Z -> option string;
  (** [piexif.load(path)] *)
  piexif_load : string -> world -> result (gmap key exif_value) * world;
  (** [piexif.dump(exif_dict)] *)
  piexif_dump : gmap key exif_value -> world -> result string * world;
  (** [piexif.insert(exif_bytes, path)] *)
  piexif_insert : string -> string -> world -> result unit * world;
  (** [piexif.remove(path)] *)
  piexif_remove : string -> world -> result unit * world;
  (** [shutil.copy2(src, dst)] *)
  copy2 : string -> string -> world -> result unit * world;
  (** the builtin [d.update(x)] for an [x] that is not a dictionary *)
  dict_update_plain : gmap key value -> value -> result (gmap key value)
}.

(** The calls the code makes to the outside, as they appear in a log. *)
Inductive call :=
| ImageOpen (path : string)
| GetExif
| PiexifLoad (path : string)
| PiexifDump
| PiexifInsert (path : string)
| PiexifRemove (path : string)
| Copy2 (src dst : string)
| Progress (current total : Z) (filename status : string).

#[export] Instance call_eq_dec : EqDecision call.
Proof. solve_decision. Defined.

(** A logged call and the exception it raised, if any. *)
Record event := Event { ev_call : call; ev_raised : option exn }.

Definition succeeded (e : event) : bool :=
  match ev_raised e with None => true | Some _ => false end.

(** The outcome of running a piece of code from a world: what it
    returned or raised, the world it left, the calls it made in order. *)
Record outcome `{Libs} (A : Type) := Outcome {
  res : result A;
  final : world;
  log : list event
}.
Arguments Outcome {_ A} res final log.
Arguments res {_ A} o.
Arguments final {_ A} o.
Arguments log {_ A} o.

Definition M `{Libs} (A : Type) : Type := world -> outcome A.

Section Monad.
Context `{Libs}.

Definition ret {A} (a : A) : M A := fun w => Outcome (Ok a) w [].

Definition raise {A} (e : exn) : M A := fun w => Outcome (Raise e) w [].

Definition bindM {A B} (m : M A) (k : A -> M B) : M B := fun w =>
  match m w with
  | Outcome (Ok a) w1 l1 =>
      match k a w1 with
      | Outcome r w2 l2 => Outcome r w2 (l1 ++ l2)
      end
  | Outcome (Raise e) w1 l1 => Outcome (Raise e) w1 l1
  end.

(** A pure computation that may raise. *)
Definition lift {A} (r : result A) : M A := fun w => Outcome r w [].

(** A call to a library, logged with its result. *)
Definition invoke {A} (c : call) (f : world -> result A * world) : M A :=
  fun w =>
    match f w with
    | (Ok a, w') => Outcome (Ok a) w' [Event c None]
    | (Raise e, w') => Outcome (Raise e) w' [Event c (Some e)]
    end.

(** [try: m  except Exception as e: handler(e)]; every exception of
    the model is an [Exception]. *)
Definition try_except_all {A} (m : M A) (handler : exn -> M A) : M A :=
  fun w =>
    match m w with
    | Outcome (Ok a) w1 l1 => Outcome (Ok a) w1 l1
    | Outcome (Raise e) w1 l1 =>
        match handler e w1 with
        | Outcome r w2 l2 => Outcome r w2 (l1 ++ l2)
        end
    end.

End Monad.

Notation "'let*' x ':=' m 'in' k" := (bindM m (fun x => k))
  (at level 10, x name, m at level 100, k at level 200).

End Lib.

Export Lib.

(** ** src/processing/exif_processor.py *)

Module EXIFProcessor.

Section Processor.
Context `{Libs}.

(** [raise Exception(f"<prefix>{e}")] *)
Definition wrapped (prefix : string) (e : exn) : exn :=
  Exn PlainException (prefix ++ exc_str e).

(** The key [TAGS.get(tag_id, tag_id)]. *)
Definition tag_key (table : Z -> option string) (tag_id : Z) : key :=
  match table tag_id with
  | Some name => KStr name
  | None => KInt tag_id
  end.

(** The inner loop of [extract]: the GPS sub-dictionary. *)
Definition gps_data_of (items : list (Z * value)) : gmap key value :=
  fold_left
    (fun gps_data '(gps_tag_id, gps_value) =>
       <[tag_key GPSTAGS gps_tag_id := gps_value]> gps_data)
    items ∅.

(** A nested dictionary stored as it is. *)
Definition raw_dict (items : list (Z * value)) : gmap key value :=
  fold_left (fun d '(k, v) => <[KInt k := v]> d) items ∅.

(** The outer loop of [extract]; [value.items()] on a value that is
    not a dictionary raises the [AttributeError] that names its type. *)
Fixpoint exif_data_of (items : list (Z * raw_value))
    (exif_data : gmap key exif_value) : result (gmap key exif_value) :=
  match items with
  | [] => Ok exif_data
  | (tag_id, value) :: items' =>
      let tag := tag_key TAGS tag_id in
      if bool_decide (tag = KStr "GPSInfo") then
        match value with
        | RawDict gps_items =>
            exif_data_of items'
              (<[tag := Nested (gps_data_of gps_items)]> exif_data)
        | RawValue v => Raise (no_attribute v "items")
        end
      else
        exif_data_of items'
          (<[tag := match value with
                    | RawValue v => Plain v
                    | RawDict d => Nested (raw_dict d)
                    end]> exif_data)
  end.

(** Truth value of what [_getexif()] returned. *)
Definition exif_truthy (exif : option (list (Z * raw_value))) : bool :=
  match exif with
  | Some (_ :: _) => true
  | _ => false
  end.

Definition extract (image_path : string) : M (gmap key exif_value) :=
  try_except_all
    (let* image := invoke (ImageOpen image_path) (image_open image_path) in
     let exif_data := ∅ in
     if image_has_getexif image then
       let* first := invoke GetExif (image_getexif image) in
       if exif_truthy first then
         let* exif := invoke GetExif (image_getexif image) in
         match exif with
         | Some items => lift (exif_data_of items exif_data)
         | None =>
             raise (Exn AttributeError
                      "'NoneType' object has no attribute 'items'")
         end
       else ret exif_data
     else ret exif_data)
    (fun e => raise (wrapped "Failed to extract EXIF data: " e)).

(** The loop of [edit] that merges the edited data into the loaded
    dictionary; [exif_dict[key].update(value)] on an entry that is not a
    dictionary raises the [AttributeError] that names its type. *)
Fixpoint merge (items : list (key * exif_value))
    (exif_dict : gmap key exif_value) : result (gmap key exif_value) :=
  match items with
  | [] => Ok exif_dict
  | (key, value) :: items' =>
      match exif_dict !! key with
      | Some (Nested d) =>
          match value with
          | Nested d' => merge items' (<[key := Nested (d' ∪ d)]> exif_dict)
          | Plain v =>
              bind (dict_update_plain d v) (fun d'' =>
              merge items' (<[key := Nested d'']> exif_dict))
          end
      | Some (Plain v) => Raise (no_attribute v "update")
      | None => merge items' (<[key := value]> exif_dict)
      end
  end.

Definition backup_path (image_path : string) : string :=
  image_path ++ ".backup".

Definition success (message : string) : gmap string string :=
  <["status" := "success"]> (<["message" := message]> ∅).

(** [exif_data] is the list of items of the dictionary passed in, or
    [None] (the default of [BatchProcessor]), on which [.items()] raises. *)
Definition edit (image_path : string)
    (exif_data : option (list (key * exif_value))) (preserve_original : bool)
    : M (gmap string string) :=
  try_except_all
    (let* _ :=
       if preserve_original
       then invoke (Copy2 image_path (backup_path image_path))
              (copy2 image_path (backup_path image_path))
       else ret tt in
     let* exif_dict := invoke (PiexifLoad image_path) (piexif_load image_path) in
     let* exif_dict :=
       lift (match exif_data with
             | Some items => merge items exif_dict
             | None =>
                 Raise (Exn AttributeError
                          "'NoneType' object has no attribute 'items'")
             end) in
     let* exif_bytes := invoke PiexifDump (piexif_dump exif_dict) in
     let* _ := invoke (PiexifInsert image_path)
                 (piexif_insert exif_bytes image_path) in
     ret (success "EXIF data updated successfully"))
    (fun e => raise (wrapped "Failed to edit EXIF data: " e)).

Definition delete (image_path : string) (preserve_original : bool)
    : M (gmap string string) :=
  try_except_all
    (let* _ :=
       if preserve_original
       then invoke (Copy2 image_path (backup_path image_path))
              (copy2 image_path (backup_path image_path))
       else ret tt in
     let* _ := invoke (PiexifRemove image_path)
                 (piexif_remove image_path) in
     ret (success "EXIF data deleted successfully"))
    (fun e => raise (wrapped "Failed to delete EXIF data: " e)).

End Processor.

End EXIFProcessor.

(** ** UI/UI.py: the earlier [EXIFProcessor]

    The earlier class of the same name has no [preserve_original]
    parameter: [edit_exif] and [delete_exif] always copy the image to its
    ".backup" path. *)

Module Legacy.

Section Processor.
Context `{Libs}.

Definition edit_exif (image_path : string)
    (exif_data : option (list (key * exif_value)))
    : M (gmap string string) :=
  try_except_all
    (let* exif_dict := invoke (PiexifLoad image_path)
                         (piexif_load image_path) in
     let* exif_dict :=
       lift (match exif_data with
             | Some items => EXIFProcessor.merge items exif_dict
             | None =>
                 Raise (Exn AttributeError
                          "'NoneType' object has no attribute 'items'")
             end) in
     let* exif_bytes := invoke PiexifDump (piexif_dump exif_dict) in
     let* _ := invoke (Copy2 image_path (image_path ++ ".backup"))
                 (copy2 image_path (image_path ++ ".backup")) in
     let* _ := invoke (PiexifInsert image_path)
                 (piexif_insert exif_bytes image_path) in
     ret (EXIFProcessor.success "EXIF data updated successfully"))
    (fun e => raise (EXIFProcessor.wrapped "Failed to edit EXIF data: " e)).

Definition delete_exif (image_path : string) : M (gmap string string) :=
  try_except_all
    (let* _ := invoke (Copy2 image_path (image_path ++ ".backup"))
                 (copy2 image_path (image_path ++ ".backup")) in
     let* _ := invoke (PiexifRemove image_path)
                 (piexif_remove image_path) in
     ret (EXIFProcessor.success "EXIF data deleted successfully"))
    (fun e => raise (EXIFProcessor.wrapped "Failed to delete EXIF data: " e)).

End Processor.

End Legacy.

(** ** src/processing/batch_processor.py *)

Module BatchProcessor.

(** [s.rpartition(c)]: the text before and after the last [c]. *)
Fixpoint rsplit (c : ascii) (s : string) : option (string * string) :=
  match s with
  | EmptyString => None
  | String a s' =>
      match rsplit c s' with
      | Some (before, after) => Some (String a before, after)
      | None => if Ascii.eqb a c then Some (EmptyString, s') else None
      end
  end.

(** [os.path.basename(path)]: what follows the last slash. *)
Definition basename (path : string) : string :=
  match rsplit "/" path with
  | Some (_, name) => name
  | None => path
  end.

(** [PurePath.suffix]: from the last dot of the name, unless the dot
    starts or ends the name (a name that ends with a dot has no suffix up
    to Python 3.13; later versions take that dot for the suffix). *)
Definition suffix (name : string) : string :=
  match rsplit "." name with
  | Some (before, after) =>
      if (String.eqb before "" || String.eqb after "")%bool then ""
      else String "." after
  | None => ""
  end.

(** [PurePath.stem]: the name without its suffix. *)
Definition stem (name : string) : string :=
  match rsplit "." name with
  | Some (before, after) =>
      if (String.eqb before "" || String.eqb after "")%bool then name
      else before
  | None => name
  end.

(** *** [pathlib], on a system whose separator is the slash

    A path is its root ("", "/" or "//") and its components. *)
Record pure_path := PurePath { root : string; parts : list string }.

(** [s.split('/')] *)
Fixpoint split_slash (s : string) : list string :=
  match s with
  | EmptyString => [EmptyString]
  | String c s' =>
      if Ascii.eqb c "/" then EmptyString :: split_slash s'
      else match split_slash s' with
           | first :: others => String c first :: others
           | [] => [String c EmptyString]
           end
  end.

(** The number of slashes a text starts with. *)
Fixpoint leading_slashes (s : string) : nat :=
  match s with
  | EmptyString => O
  | String c s' => if Ascii.eqb c "/" then S (leading_slashes s') else O
  end.

(** The root of a text: exactly two leading slashes are kept, one slash or
    three and more are one slash. *)
Definition root_of (s : string) : string :=
  match leading_slashes s with
  | O => ""
  | 2%nat => "//"
  | _ => "/"
  end.

(** A component that [Path] keeps: not empty and not ".". *)
Definition kept (component : string) : bool :=
  negb (String.eqb component "" || String.eqb component ".").

(** [Path(s)]: repeated slashes, "." components and a trailing slash
    disappear; ".." stays. *)
Definition Path (s : string) : pure_path :=
  {| root := root_of s; parts := List.filter kept (split_slash s) |}.

(** ['/'.join(components)] *)
Fixpoint join_slash (components : list string) : string :=
  match components with
  | [] => ""
  | [component] => component
  | component :: others => component ++ "/" ++ join_slash others
  end.

(** [str(path)] *)
Definition path_str (path : pure_path) : string :=
  match root path, parts path with
  | EmptyString, [] => "."
  | r, components => r ++ join_slash components
  end.

(** [path.parent]: the path without its last component; a path without
    components is its own parent. *)
Definition path_parent (path : pure_path) : pure_path :=
  {| root := root path; parts := removelast (parts path) |}.

(** [path.name]: the last component, or the empty text. *)
Definition path_name (path : pure_path) : string :=
  List.last (parts path) "".

(** [path / segment]: a segment with a root replaces the path, another one
    adds its components. *)
Definition truediv (path : pure_path) (segment : string) : pure_path :=
  let other := Path segment in
  if String.eqb (root other) "" then
    {| root := root path; parts := parts path ++ parts other |}
  else other.

(** [f"{base_path.stem}_modified{base_path.suffix}"] for a path of the
    given name. *)
Definition modified_name (name : string) : string :=
  stem name ++ "_modified" ++ suffix name.

(** [str(base_path.parent / f"{base_path.stem}_modified{base_path.suffix}")] *)
Definition modified_path (file_path : string) : string :=
  let base_path := Path file_path in
  let new_path :=
    truediv (path_parent base_path) (modified_name (path_name base_path)) in
  path_str new_path.

(** A text without a slash. *)
Fixpoint no_slash (s : string) : bool :=
  match s with
  | EmptyString => true
  | String c s' => negb (Ascii.eqb c "/") && no_slash s'
  end.

(** A path in normal form, as [Path] builds it: one of the three roots, and
    components that hold no slash and are neither empty nor ".". *)
Definition normal (path : pure_path) : Prop :=
  In (root path) [""; "/"; "//"]
  /\ Forall (fun component =>
               kept component = true /\ no_slash component = true)
       (parts path).

Section Batch.
Context `{Libs}.

(** The body of the [try] for one file. *)
Definition process_file (operation : string) (preserve_original : bool)
    (exif_data : option (list (key * exif_value))) (file_path : string)
    : M unit :=
  let* working_path :=
    if preserve_original then
      let new_path := modified_path file_path in
      let* _ := invoke (Copy2 file_path new_path) (copy2 file_path new_path) in
      ret new_path
    else ret file_path in
  if String.eqb operation "delete" then
    let* _ := EXIFProcessor.delete working_path false in ret tt
  else if String.eqb operation "edit" then
    let* _ := EXIFProcessor.edit working_path exif_data false in ret tt
  else ret tt.

(** [progress_callback(current, total, filename, status)]: the callback is
    the caller's; the call is logged and returns. *)
Definition progress_callback (current total : Z) (filename status : string)
    : M unit :=
  invoke (Progress current total filename status) (fun w => (Ok tt, w)).

(** The [for] loop of [run], from index [i]. *)
Fixpoint run_from (i total_files : Z) (operation : string)
    (preserve_original : bool)
    (exif_data : option (list (key * exif_value)))
    (file_paths : list string) : M unit :=
  match file_paths with
  | [] => ret tt
  | file_path :: rest =>
      let* status :=
        try_except_all
          (let* _ := process_file operation preserve_original exif_data
                       file_path in
           ret "Success")
          (fun e => ret ("Error: " ++ exc_str e)) in
      let* _ := progress_callback (i + 1) total_files (basename file_path)
                  status in
      run_from (i + 1) total_files operation preserve_original exif_data rest
  end.

Definition run (file_paths : list string) (operation : string)
    (preserve_original : bool)
    (exif_data : option (list (key * exif_value))) : M unit :=
  let total_files := Z.of_nat (List.length file_paths) in
  run_from 0 total_files operation preserve_original exif_data file_paths.

(** *** The batch as the specification words it *)

(** The status reported for a file: "Success", or "Error: " and the
    message of the failure. *)
Definition status_of (r : result unit) : string :=
  match r with
  | Ok _ => "Success"
  | Raise e => "Error: " ++ exc_str e
  end.

(** The progress calls a batch is to make from a world: for the file at
    index [i], processed in the world its predecessors left,
    [(i + 1, total, basename, status)]. *)
Fixpoint expected_progress (i total_files : Z) (operation : string)
    (preserve_original : bool)
    (exif_data : option (list (key * exif_value)))
    (file_paths : list string) (w : world) : list call :=
  match file_paths with
  | [] => []
  | file_path :: rest =>
      let o := process_file operation preserve_original exif_data file_path w in
      Progress (i + 1) total_files (basename file_path) (status_of (res o))
      :: expected_progress (i + 1) total_files operation preserve_original
           exif_data rest (final o)
  end.

(** The whole log a batch is to leave: file after file in list order, the
    calls made for the file followed by its progress call. *)
Fixpoint expected_log (i total_files : Z) (operation : string)
    (preserve_original : bool)
    (exif_data : option (list (key * exif_value)))
    (file_paths : list string) (w : world) : list event :=
  match file_paths with
  | [] => []
  | file_path :: rest =>
      let o := process_file operation preserve_original exif_data file_path w in
      log o
      ++ Event (Progress (i + 1) total_files (basename file_path)
                  (status_of (res o))) None
      :: expected_log (i + 1) total_files operation preserve_original
           exif_data rest (final o)
  end.

(** The library calls for one file, in order, on the path worked on. *)
Definition operation_calls (operation : string) (working_path : string)
    : list call :=
  if String.eqb operation "delete" then [PiexifRemove working_path]
  else if String.eqb operation "edit"
  then [PiexifLoad working_path; PiexifDump; PiexifInsert working_path]
  else [].

Definition is_progress (c : call) : bool :=
  match c with Progress _ _ _ _ => true | _ => false end.

(** The progress calls of a log, in order. *)
Definition progress_calls (l : list event) : list call :=
  filter (fun c => is_progress c = true) (map ev_call l).

End Batch.

End BatchProcessor.

(** ** Files

    What the frame properties need to know of the libraries: the files of
    a world, and which file each call may write. *)

Class FileSystem `{Libs} := {
  content : Type;
  read : world -> string -> option content;
  copy2_copies : forall src dst w,
    fst (copy2 src dst w) = Ok tt ->
    read (snd (copy2 src dst w)) dst = read w src;
  copy2_frame : forall src dst w p,
    p <> dst -> read (snd (copy2 src dst w)) p = read w p;
  piexif_load_frame : forall path w p,
    read (snd (piexif_load path w)) p = read w p;
  piexif_dump_frame : forall d w p,
    read (snd (piexif_dump d w)) p = read w p;
  piexif_insert_frame : forall bytes path w p,
    p <> path -> read (snd (piexif_insert bytes path w)) p = read w p;
  piexif_remove_frame : forall path w p,
    p <> path -> read (snd (piexif_remove path w)) p = read w p
}.

(** ** Reading a log *)

Module Log.

Definition is_copy (c : call) : bool :=
  match c with Copy2 _ _ => true | _ => false end.

(** A call that rewrites the image at [path]. *)
Definition modifies (path : string) (c : call) : bool :=
  match c with
  | PiexifInsert p | PiexifRemove p => String.eqb p path
  | _ => false
  end.

(** The first exception a logged call raised. *)
Fixpoint raised_in (l : list event) : option exn :=
  match l with
  | [] => None
  | e :: l' =>
      match ev_raised e with
      | Some x => Some x
      | None => raised_in l'
      end
  end.

(** No call follows a call that raised. *)
Fixpoint stops_at_failure (l : list event) : bool :=
  match l with
  | [] => true
  | e :: l' =>
      if succeeded e then stops_at_failure l'
      else match l' with [] => true | _ :: _ => false end
  end.

(** A successful backup of [path] comes before every call that rewrites
    [path]. *)
Fixpoint backup_precedes_modification (path : string) (backed_up : bool)
    (l : list event) : bool :=
  match l with
  | [] => true
  | e :: l' =>
      if modifies path (ev_call e)
      then backed_up && backup_precedes_modification path backed_up l'
      else if (bool_decide (ev_call e = Copy2 path (path ++ ".backup"))
               && succeeded e)%bool
      then backup_precedes_modification path true l'
      else backup_precedes_modification path backed_up l'
  end.

(** The library calls of each operation, in the order of the code. *)
Definition backup_calls (image_path : string) (preserve_original : bool)
    : list call :=
  if preserve_original
  then [Copy2 image_path (image_path ++ ".backup")]
  else [].

Definition extract_calls (image_path : string) : list call :=
  [ImageOpen image_path; GetExif; GetExif].

Definition edit_calls (image_path : string) (preserve_original : bool)
    : list call :=
  backup_calls image_path preserve_original
  ++ [PiexifLoad image_path; PiexifDump; PiexifInsert image_path].

Definition delete_calls (image_path : string) (preserve_original : bool)
    : list call :=
  backup_calls image_path preserve_original ++ [PiexifRemove image_path].

(** One pass through a sequence of calls, without retry: the calls made
    are an initial part of [sequence]; no call follows one that raised; a
    call that raised surfaces as one exception whose text is [prefix]
    followed by the text of the original; nothing else is raised than such
    a wrapped exception. *)
Definition single_pass `{Libs} {A : Type} (sequence : list call)
    (prefix : string) (o : outcome A) : Prop :=
  map ev_call (log o) `prefix_of` sequence
  /\ stops_at_failure (log o) = true
  /\ (forall x, raised_in (log o) = Some x ->
        res o = Raise (Exn PlainException (prefix ++ exc_str x)))
  /\ (forall x, res o = Raise x ->
        exists original, x = Exn PlainException (prefix ++ exc_str original)).


(** The backup, when one is asked for, is made and leads from world [w]
    to world [w1]. *)
Definition backed_up `{Libs} (image_path : string) (preserve_original : bool)
    (w w1 : world) : Prop :=
  if preserve_original
  then copy2 image_path (image_path ++ ".backup") w = (Ok tt, w1)
  else w1 = w.



(** The backup of an operation on [image_path] started in world [w]:
    [shutil.copy2] is called exactly when [preserve_original] is true, and
    then with the image and its ".backup" path; a successful backup comes
    before every call that rewrites the image; the backup holds the image
    as it was; without [preserve_original] the ".backup" path is left as it
    was. *)
Definition backup_discipline `{FileSystem} {A : Type} (image_path : string)
    (preserve_original : bool) (w : world) (o : outcome A) : Prop :=
  ((exists e, In e (log o) /\ is_copy (ev_call e) = true)
   <-> preserve_original = true)
  /\ (forall e, In e (log o) -> is_copy (ev_call e) = true ->
        ev_call e = Copy2 image_path (image_path ++ ".backup"))
  /\ (preserve_original = true ->
        backup_precedes_modification image_path false (log o) = true)
  /\ (forall rest,
        log o = Event (Copy2 image_path (image_path ++ ".backup")) None :: rest ->
        read (final o) (image_path ++ ".backup") = read w image_path)
  /\ (preserve_original = false ->
        read (final o) (image_path ++ ".backup")
        = read w (image_path ++ ".backup")).

End Log.

(** ** A small concrete world

    Files are an optional EXIF segment and image data; the libraries act on
    a map from paths to files.  It instantiates the interface for the
    examples. *)

Module Disk.

Record file := File { exif_segment : option string; image_data : string }.

Definition no_such_file (path : string) : exn :=
  Exn OSError ("No such file or directory: " ++ path).

Definition disk_open (path : string) (w : gmap string file)
    : result file * gmap string file :=
  match w !! path with
  | Some f => (Ok f, w)
  | None => (Raise (no_such_file path), w)
  end.

(** The tag 271 (Make) carries the text of the segment. *)
Definition disk_getexif (f : file) (w : gmap string file)
    : result (option (list (Z * raw_value))) * gmap string file :=
  (Ok (match exif_segment f with
       | Some s => Some [(271, RawValue (PyStr s))]
       | None => None
       end), w).

Definition disk_tags (tag_id : Z) : option string :=
  if Z.eqb tag_id 271 then Some "Make"
  else if Z.eqb tag_id 34853 then Some "GPSInfo"
  else None.

Definition disk_gpstags (tag_id : Z) : option string :=
  if Z.eqb tag_id 1 then Some "GPSLatitudeRef"
  else if Z.eqb tag_id 2 then Some "GPSLatitude"
  else if Z.eqb tag_id 3 then Some "GPSLongitudeRef"
  else if Z.eqb tag_id 4 then Some "GPSLongitude"
  else None.

Definition disk_load (path : string) (w : gmap string file)
    : result (gmap key exif_value) * gmap string file :=
  match w !! path with
  | Some f =>
      (Ok (<[KStr "0th" :=
               Nested (match exif_segment f with
                       | Some s => <[KInt 271 := PyStr s]> ∅
                       | None => ∅
                       end)]> ∅), w)
  | None => (Raise (no_such_file path), w)
  end.

Definition disk_dump (d : gmap key exif_value) (w : gmap string file)
    : result string * gmap string file :=
  match d !! KStr "0th" with
  | Some (Nested ifd) =>
      match ifd !! KInt 271 with
      | Some (PyStr s) => (Ok s, w)
      | _ => (Ok "", w)
      end
  | _ => (Raise (Exn ValueError "no 0th IFD"), w)
  end.

Definition disk_insert (exif_bytes path : string) (w : gmap string file)
    : result unit * gmap string file :=
  match w !! path with
  | Some f => (Ok tt, <[path := File (Some exif_bytes) (image_data f)]> w)
  | None => (Raise (no_such_file path), w)
  end.

Definition disk_remove (path : string) (w : gmap string file)
    : result unit * gmap string file :=
  match w !! path with
  | Some f => (Ok tt, <[path := File None (image_data f)]> w)
  | None => (Raise (no_such_file path), w)
  end.

(** [shutil.copy2] writes the destination, replacing a file already there. *)
Definition disk_copy2 (src dst : string) (w : gmap string file)
    : result unit * gmap string file :=
  match w !! src with
  | Some f => (Ok tt, <[dst := f]> w)
  | None => (Raise (no_such_file src), w)
  end.

#[export] Instance disk_libs : Libs := {|
  world := gmap string file;
  image := file;
  image_open := disk_open;
  image_has_getexif := fun _ => true;
  image_getexif := disk_getexif;
  TAGS := disk_tags;
  GPSTAGS := disk_gpstags;
  piexif_load := disk_load;
  piexif_dump := disk_dump;
  piexif_insert := disk_insert;
  piexif_remove := disk_remove;
  copy2 := disk_copy2;
  dict_update_plain := fun _ _ =>
    Raise (Exn TypeError "object is not iterable")
|}.

(** A parser of floats that accepts no text. *)
Definition no_text : StrToFloat := fun _ => None.

(** Two photographs in one directory, the second named as the copy of the
    first would be. *)
Definition two_photos : gmap string file :=
  <["/d/a.jpg" := File (Some "Canon") "pixels of a"]>
    (<["/d/a_modified.jpg" := File (Some "Nikon") "pixels of b"]> ∅).

(** The GPS dictionary of a photograph taken in Pittsburgh, 40 deg 26' 46"
    N, 79 deg 58' 56" W, as PIL gives it. *)
Definition pittsburgh : gmap key value :=
  <[KStr "GPSLatitudeRef" := PyStr "N"]>
    (<[KStr "GPSLatitude" :=
         PyTuple [PyRational 40; PyRational 26; PyRational 46]]>
       (<[KStr "GPSLongitudeRef" := PyStr "W"]>
          (<[KStr "GPSLongitude" :=
               PyTuple [PyRational 79; PyRational 58; PyRational 56]]> ∅))).

End Disk.


(** ** src/ui/main_window.py

    The window as a state machine.  A [Worker] is a thread: once started it
    runs until its function returns, while the event loop of the window
    goes on handling clicks.  The state keeps the workers started and not
    yet finished. *)

Module MainWindow.

(** What a worker was created to run. *)
Inductive job :=
| Extract (image_path : string)
| Edit (image_path : string)
    (edited_data : option (list (key * exif_value))) (preserve_original : bool)
| Delete (image_path : string) (preserve_original : bool)
| Batch (file_list : list string) (operation : string)
    (preserve_original : bool).

Record window := Window {
  current_image_path : option string;
  (** the attribute [self.worker]: the worker created last *)
  worker : option job;
  (** the workers started whose [run] has not returned *)
  running : list job
}.

Definition initial : window :=
  {| current_image_path := None; worker := None; running := [] |}.

(** [self.worker = Worker(...)] followed by [self.worker.start()]. *)
Definition start (j : job) (s : window) : window :=
  {| current_image_path := current_image_path s;
     worker := Some j;
     running := running s ++ [j] |}.

(** The path when [self.current_image_path] is true. *)
Definition selected (s : window) : option string :=
  match current_image_path s with
  | Some p => if String.eqb p "" then None else Some p
  | None => None
  end.

Definition extract_exif (s : window) : window :=
  match selected s with
  | None => s
  | Some p => start (Extract p) s
  end.

(** [file_path] is what the file dialog returned. *)
Definition open_single_image (file_path : string) (s : window) : window :=
  if String.eqb file_path "" then s
  else extract_exif {| current_image_path := Some file_path;
                       worker := worker s;
                       running := running s |}.

(** [reply_yes] is the answer to the confirmation dialog. *)
Definition save_exif_changes (reply_yes : bool)
    (edited_data : list (key * exif_value)) (preserve : bool) (s : window)
    : window :=
  match selected s with
  | None => s
  | Some p =>
      if reply_yes then start (Edit p (Some edited_data) preserve) s else s
  end.

Definition delete_all_exif (reply_yes : bool) (preserve : bool) (s : window)
    : window :=
  match selected s with
  | None => s
  | Some p => if reply_yes then start (Delete p preserve) s else s
  end.

(** ["Delete" in operation_text] *)
Definition mentions_delete (operation_text : string) : bool :=
  match String.index 0 "Delete" operation_text with
  | Some _ => true
  | None => false
  end.

Definition process_batch_images (file_list : list string)
    (operation_text : string) (reply_yes : bool) (preserve : bool)
    (s : window) : window :=
  match file_list with
  | [] => s
  | _ :: _ =>
      if mentions_delete operation_text then
        if reply_yes then start (Batch file_list "delete" preserve) s else s
      else s
  end.

(** The slots run when a worker emits [finished]. *)
Definition on_finished (j : job) (s : window) : window :=
  match j with
  | Extract _ => s                      (* on_exif_extracted *)
  | Edit _ _ _ | Delete _ _ => extract_exif s   (* on_operation_finished *)
  | Batch _ _ _ => s                    (* on_batch_finished *)
  end.

(** What the event loop handles: the actions of the user, and the signal
    of the running worker at position [i] ([ok] for [finished], otherwise
    [error]). *)
Inductive event :=
| OpenSingleImage (file_path : string)
| ClickExtract
| ClickSave (reply_yes : bool) (edited_data : list (key * exif_value))
    (preserve : bool)
| ClickDelete (reply_yes : bool) (preserve : bool)
| ClickProcess (file_list : list string) (operation_text : string)
    (reply_yes : bool) (preserve : bool)
| WorkerDone (i : nat) (ok : bool).

(** One event; [None] when the event cannot happen (no such worker). *)
Definition handle (e : event) (s : window) : option window :=
  match e with
  | OpenSingleImage file_path => Some (open_single_image file_path s)
  | ClickExtract => Some (extract_exif s)
  | ClickSave reply_yes edited_data preserve =>
      Some (save_exif_changes reply_yes edited_data preserve s)
  | ClickDelete reply_yes preserve =>
      Some (delete_all_exif reply_yes preserve s)
  | ClickProcess file_list operation_text reply_yes preserve =>
      Some (process_batch_images file_list operation_text reply_yes preserve s)
  | WorkerDone i ok =>
      match running s !! i with
      | Some j =>
          let s' := {| current_image_path := current_image_path s;
                       worker := worker s;
                       running := delete i (running s) |} in
          Some (if ok then on_finished j s' else s')   (* on_processor_error *)
      | None => None
      end
  end.

Fixpoint handle_all (events : list event) (s : window) : option window :=
  match events with
  | [] => Some s
  | e :: events' =>
      match handle e s with
      | Some s' => handle_all events' s'
      | None => None
      end
  end.

(** *** The worker thread *)

(** What a worker emits when its function is over. *)
Inductive payload :=
| ExifData (exif_data : gmap key exif_value)
| Status (result : gmap string string)
| NoResult.

Inductive signal :=
| Finished (result : payload)
| Error (message : string).

Section Worker.
Context `{Libs}.

(** The call of [self.func] with the arguments the worker was given; for
    a batch the progress callback emits the [progress] signal. *)
Definition job_operation (j : job) : M payload :=
  match j with
  | Extract p =>
      let* d := EXIFProcessor.extract p in ret (ExifData d)
  | Edit p edited_data preserve =>
      let* r := EXIFProcessor.edit p edited_data preserve in ret (Status r)
  | Delete p preserve =>
      let* r := EXIFProcessor.delete p preserve in ret (Status r)
  | Batch file_list operation preserve =>
      let* _ := BatchProcessor.run file_list operation preserve None in
      ret NoResult
  end.

(** [Worker.run]: the signal emitted. *)
Definition worker_run (j : job) : M signal :=
  try_except_all
    (let* result := job_operation j in ret (Finished result))
    (fun e => ret (Error (exc_str e))).

End Worker.

(** The image a job works on, for a job on a single image. *)
Definition job_image (j : job) : option string :=
  match j with
  | Extract p | Edit p _ _ | Delete p _ => Some p
  | Batch _ _ _ => None
  end.

End MainWindow.

(** ** src/processing/gps_converter.py: what [parse_exif_gps] reads *)

Module GPSFields.

(** The four fields of a GPS dictionary, each under its name and under
    its tag number. *)
Definition fields : list (string * Z) :=
  [("GPSLatitudeRef", 1); ("GPSLatitude", 2);
   ("GPSLongitudeRef", 3); ("GPSLongitude", 4)].

Definition keys : list key :=
  flat_map (fun '(name, number) => [KStr name; KInt number]) fields.

(** The exception [float(n)] raises for an integer beyond the floats. *)
Definition too_large : exn :=
  Exn OverflowError "int too large to convert to float".

End GPSFields.

(** ** src/processing/gps_converter.py: the output formats *)

Module GPSFormats.

(** [n] times the character '0'. *)
Definition zeros (n : nat) : string := string_of_list_ascii (repeat "0"%char n).

(** The quotient [num / den] rounded to the nearest integer, ties to the
    even one. *)
Definition round_half_even (num den : Z) : Z :=
  let q := num / den in
  let r := num mod den in
  if Z.ltb (2 * r) den then q
  else if Z.ltb den (2 * r) then q + 1
  else if Z.even q then q else q + 1.

(** The text of [q / 10^digits] with [digits] decimals. *)
Definition fixed_digits (digits : nat) (q : Z) : string :=
  let unit := 10 ^ Z.of_nat digits in
  let fraction := str_of_int (q mod unit) in
  str_of_int (q / unit)
  ++ match digits with
     | O => ""
     | S _ => "." ++ zeros (digits - String.length fraction) ++ fraction
     end.

(** The builtin format [f"{x:.<digits>f}"]: the decimal text, with the
    given number of decimals, of the exact value of [x] rounded to the
    nearest, ties to even; the sign is kept when the digits are all zero. *)
Definition format_fixed (digits : nat) (x : PrimFloat.float) : string :=
  match Prim2SF x with
  | S754_nan => "nan"
  | S754_infinity s => if s then "-inf" else "inf"
  | S754_zero s => (if s then "-" else "") ++ fixed_digits digits 0
  | S754_finite s m e =>
      let scaled :=
        if Z.leb 0 e
        then Z.pos m * 2 ^ e * 10 ^ Z.of_nat digits
        else round_half_even (Z.pos m * 10 ^ Z.of_nat digits) (2 ^ (- e)) in
      (if s then "-" else "") ++ fixed_digits digits scaled
  end.

(** [f"{latitude:.6f}, {longitude:.6f}"] *)
Definition to_decimal_degrees (latitude longitude : PrimFloat.float) : string :=
  format_fixed 6 latitude ++ ", " ++ format_fixed 6 longitude.

(** ['N' if decimal_deg >= 0 else 'S'], or 'E' and 'W' for a longitude. *)
Definition ref_letter (decimal_deg : PrimFloat.float) (is_latitude : bool)
    : string :=
  if is_latitude
  then (if (0 <=? decimal_deg)%float then "N" else "S")
  else (if (0 <=? decimal_deg)%float then "E" else "W").

(** The double quote that closes the seconds. *)
Definition double_quote : string := String (ascii_of_nat 34) EmptyString.

(** The inner function of [to_dms].  [abs_deg - degrees] and
    [minutes_float - minutes] convert the integer to a float. *)
Definition decimal_to_dms (decimal_deg : PrimFloat.float) (is_latitude : bool)
    : result string :=
  let abs_deg := abs decimal_deg in
  bind (int_of_float abs_deg) (fun degrees =>
  bind (float_of_int degrees) (fun degrees_float =>
  let minutes_float := ((abs_deg - degrees_float) * 60)%float in
  bind (int_of_float minutes_float) (fun minutes =>
  bind (float_of_int minutes) (fun minutes_as_float =>
  let seconds := ((minutes_float - minutes_as_float) * 60)%float in
  let ref := ref_letter decimal_deg is_latitude in
  Ok (str_of_int degrees ++ "°" ++ str_of_int minutes ++ "'"
      ++ format_fixed 2 seconds ++ double_quote ++ ref))))).

Definition to_dms (latitude longitude : PrimFloat.float) : result string :=
  bind (decimal_to_dms latitude true) (fun lat_dms =>
  bind (decimal_to_dms longitude false) (fun lon_dms =>
  Ok (lat_dms ++ ", " ++ lon_dms))).

(** The inner function of [to_dmm]. *)
Definition decimal_to_dmm (decimal_deg : PrimFloat.float) (is_latitude : bool)
    : result string :=
  let abs_deg := abs decimal_deg in
  bind (int_of_float abs_deg) (fun degrees =>
  bind (float_of_int degrees) (fun degrees_float =>
  let minutes := ((abs_deg - degrees_float) * 60)%float in
  let ref := ref_letter decimal_deg is_latitude in
  Ok (str_of_int degrees ++ "°" ++ format_fixed 4 minutes ++ "'" ++ ref))).

Definition to_dmm (latitude longitude : PrimFloat.float) : result string :=
  bind (decimal_to_dmm latitude true) (fun lat_dmm =>
  bind (decimal_to_dmm longitude false) (fun lon_dmm =>
  Ok (lat_dmm ++ ", " ++ lon_dmm))).

Definition to_mgrs (latitude longitude : PrimFloat.float) : string :=
  "MGRS conversion requires specialized library (lat: "
  ++ format_fixed 6 latitude ++ ", lon: " ++ format_fixed 6 longitude ++ ")".

Definition to_plus_code (latitude longitude : PrimFloat.float) : string :=
  "Plus Code conversion requires specialized library (lat: "
  ++ format_fixed 6 latitude ++ ", lon: " ++ format_fixed 6 longitude ++ ")".

Definition create_google_maps_url (latitude longitude : PrimFloat.float)
    : string :=
  "https://maps.google.com/maps?q="
  ++ format_fixed 6 latitude ++ "," ++ format_fixed 6 longitude.

(** [get_all_formats]: the entries are computed in the order of the
    dictionary display, the geohash with the default precision 12; [None]
    stands for a geohash loop that has not ended within its bound. *)
Definition get_all_formats (latitude longitude : PrimFloat.float)
    : option (result (gmap string string)) :=
  let decimal_degrees := to_decimal_degrees latitude longitude in
  match to_dms latitude longitude with
  | Raise e => Some (Raise e)
  | Ok dms =>
  match to_dmm latitude longitude with
  | Raise e => Some (Raise e)
  | Ok dmm =>
  match GPSConverter.to_utm latitude longitude with
  | Raise e => Some (Raise e)
  | Ok utm =>
  let mgrs := to_mgrs latitude longitude in
  match GPSConverter.to_geohash latitude longitude 12 with
  | None => None
  | Some (Raise e) => Some (Raise e)
  | Some (Ok geohash) =>
  let plus_code := to_plus_code latitude longitude in
  let google_maps_url := create_google_maps_url latitude longitude in
  Some (Ok (list_to_map
              [("decimal_degrees", decimal_degrees); ("dms", dms);
               ("dmm", dmm); ("utm", utm); ("mgrs", mgrs);
               ("geohash", geohash); ("plus_code", plus_code);
               ("google_maps_url", google_maps_url)]))
  end end end end.

End GPSFormats.

(** ** The size of a float *)

Module FloatSize.

(** The exponent of a float is at most [k]: the float is a zero, or it is
    finite with an exponent of at most [k], and so below [2^(k + 53)] in
    absolute value; NaN and the infinities have no exponent. *)
Definition exponent_le (k : Z) (f : spec_float) : Prop :=
  match f with
  | S754_zero _ => True
  | S754_finite _ _ e => e <= k
  | S754_infinity _ | S754_nan => False
  end.

(** A float in units of [2^-1074], the smallest positive binary64 number:
    every float that is a number is a whole multiple of it. *)
Definition scaled (f : spec_float) : Z :=
  match f with
  | S754_finite s m e => cond_Zopp s (Z.pos m) * 2 ^ (e + 1074)
  | _ => 0
  end.

(** The float 2. *)
Definition two : spec_float := S754_finite false 4503599627370496 (-51).

(** The number of units of [2^-1074] in 1. *)
Definition units : positive := (2 ^ 1074)%positive.

(** The ends of a range after [j] bisections of the range from
    [-45 * 2^c] to [45 * 2^c]: the multiples [45 * L] and [45 * (L + 2)] of
    [2^(c - j)], in units: the ranges of the geohash are such ranges, with
    [c = 2] for the longitude and [c = 1] for the latitude. *)
Definition on_grid (c j L : Z) (r : PrimFloat.float * PrimFloat.float)
    : Prop :=
  - 2 ^ j <= L /\ L + 2 <= 2 ^ j
  /\ exponent_le 971 (Prim2SF (fst r)) /\ exponent_le 971 (Prim2SF (snd r))
  /\ scaled (Prim2SF (fst r)) = 45 * L * 2 ^ (1074 + c - j)
  /\ scaled (Prim2SF (snd r)) = 45 * (L + 2) * 2 ^ (1074 + c - j).

(** A range of floats on the grid and the range of exact numbers that it
    stands for. *)
Definition tracks (c j : Z) (r : PrimFloat.float * PrimFloat.float)
    (q : Q * Q) : Prop :=
  (exists L, on_grid c j L r)
  /\ (fst q == scaled (Prim2SF (fst r)) # units)%Q
  /\ (snd q == scaled (Prim2SF (snd r)) # units)%Q.

End FloatSize.

(** ** src/processing/exif_processor.py: reading the loops *)

Module EXIFItems.

Section Items.
Context `{Libs}.

(** The value of the first item of an EXIF table whose tag is GPSInfo
    and whose value is not a dictionary. *)
Fixpoint first_malformed_gps (items : list (Z * raw_value)) : option value :=
  match items with
  | [] => None
  | (tag_id, RawValue v) :: items' =>
      if bool_decide (EXIFProcessor.tag_key TAGS tag_id = KStr "GPSInfo")
      then Some v
      else first_malformed_gps items'
  | (_, RawDict _) :: items' => first_malformed_gps items'
  end.

(** The keys under which [extract] stores the items of a table. *)
Definition tag_keys (items : list (Z * raw_value)) : list key :=
  map (fun item => EXIFProcessor.tag_key TAGS (fst item)) items.

End Items.

End EXIFItems.

(** ** src/ui/main_window.py: what the user asked for *)

Module Requests.

Import MainWindow.

(** The text that starts the message of a failed operation on one image. *)
Definition failure_prefix (j : job) : string :=
  match j with
  | Extract _ => "Failed to extract EXIF data: "
  | Edit _ _ _ => "Failed to edit EXIF data: "
  | Delete _ _ => "Failed to delete EXIF data: "
  | Batch _ _ _ => ""
  end.

(** A job that the events handled so far ask for: an operation on one
    image needs that image to have been opened, an edit or a deletion a
    confirmed click with the same options, a batch a confirmed click on
    "Process" with the same list, an operation text that mentions "Delete",
    and then it is a batch of deletions. *)
Definition requested (events : list event) (j : job) : Prop :=
  match j with
  | Extract p => p <> "" /\ In (OpenSingleImage p) events
  | Edit p data preserve =>
      p <> "" /\ In (OpenSingleImage p) events
      /\ exists edited_data,
           data = Some edited_data
           /\ In (ClickSave true edited_data preserve) events
  | Delete p preserve =>
      p <> "" /\ In (OpenSingleImage p) events
      /\ In (ClickDelete true preserve) events
  | Batch file_list operation preserve =>
      file_list <> [] /\ operation = "delete"
      /\ exists operation_text,
           mentions_delete operation_text = true
           /\ In (ClickProcess file_list operation_text true preserve) events
  end.

(** What holds of the window after the events [past]. *)
Definition asked_for (past : list event) (s : window) : Prop :=
  Forall (requested past) (running s)
  /\ (forall j, worker s = Some j -> requested past j)
  /\ (forall p, current_image_path s = Some p ->
        p <> "" /\ In (OpenSingleImage p) past).

End Requests.

(** ** src/ui/widgets/batch_tab.py: the list of files

    The list widget is the list of its items, in the order of the rows. *)

Module BatchProcessingTab.

(** An item: the text shown and the data kept under [Qt.UserRole]. *)
Record item := Item { text : string; user_data : string }.

(** [findItems(t, Qt.MatchExactly)]: the items whose text is [t]. *)
Definition find_items (t : string) (batch_file_list : list item) : list item :=
  List.filter (fun i => String.eqb (text i) t) batch_file_list.

(** The body of the loop of [add_files]. *)
Definition add_file (path : string) (batch_file_list : list item) : list item :=
  match find_items (BatchProcessor.basename path) batch_file_list with
  | [] => batch_file_list ++ [Item (BatchProcessor.basename path) path]
  | _ :: _ => batch_file_list
  end.

Fixpoint add_files (file_paths : list string) (batch_file_list : list item)
    : list item :=
  match file_paths with
  | [] => batch_file_list
  | path :: rest => add_files rest (add_file path batch_file_list)
  end.

Definition get_file_list (batch_file_list : list item) : list string :=
  map user_data batch_file_list.

Definition clear_file_list (batch_file_list : list item) : list item := [].

(** The two buttons above the list: "Add Images", with what the file
    dialog returned ([open_batch_images] of the window), and "Clear List". *)
Inductive action :=
| OpenBatchImages (file_paths : list string)
| ClearFileList.

Definition act (a : action) (batch_file_list : list item) : list item :=
  match a with
  | OpenBatchImages file_paths =>
      match file_paths with
      | [] => batch_file_list
      | _ :: _ => add_files file_paths batch_file_list
      end
  | ClearFileList => clear_file_list batch_file_list
  end.

(** The list after a sequence of actions, from the empty list of a new
    tab. *)
Definition after (actions : list action) : list item :=
  fold_left (fun l a => act a l) actions [].

(** The texts are pairwise distinct and each is the base name of the
    path kept with it. *)
Definition tidy (l : list item) : Prop :=
  List.NoDup (map text l)
  /\ Forall (fun i => text i = BatchProcessor.basename (user_data i)) l.

End BatchProcessingTab.

(** ** UI/UI.py: the earlier threads

    The earlier [EXIFProcessor] and [BatchProcessor] are threads that
    report by signals.  [run] of the processor emits [finished] or [error];
    the batch calls that [run] directly, on a processor whose signals
    nobody listens to. *)

Module LegacyThreads.

Import MainWindow.

Section Threads.
Context `{Libs}.

(** [extract_exif] of the earlier processor. *)
Definition extract_exif (image_path : string) : M (gmap key exif_value) :=
  try_except_all
    (let* image := invoke (ImageOpen image_path) (image_open image_path) in
     let exif_data := ∅ in
     if image_has_getexif image then
       let* first := invoke GetExif (image_getexif image) in
       if EXIFProcessor.exif_truthy first then
         let* exif := invoke GetExif (image_getexif image) in
         match exif with
         | Some items => lift (EXIFProcessor.exif_data_of items exif_data)
         | None =>
             raise (Exn AttributeError
                      "'NoneType' object has no attribute 'items'")
         end
       else ret exif_data
     else ret exif_data)
    (fun e => raise (EXIFProcessor.wrapped "Failed to extract EXIF data: " e)).

(** [EXIFProcessor.run]: the signal emitted. *)
Definition run (image_path operation : string)
    (exif_data : option (list (key * exif_value))) : M signal :=
  try_except_all
    (let* result :=
       if String.eqb operation "extract" then
         let* d := extract_exif image_path in ret (ExifData d)
       else if String.eqb operation "edit" then
         let* r := Legacy.edit_exif image_path exif_data in ret (Status r)
       else if String.eqb operation "delete" then
         let* r := Legacy.delete_exif image_path in ret (Status r)
       else raise (Exn ValueError ("Unknown operation: " ++ operation)) in
     ret (Finished result))
    (fun e => ret (Error (exc_str e))).

(** The signals of the earlier [BatchProcessor]. *)
Inductive batch_signal :=
| FileProcessed (filename status : string)
| ProgressValue (value : Z)
| BatchFinished
| BatchError (message : string).

(** [a / b] on integers: the quotient rounded to the nearest float (the
    quotient is computed with 2200 more bits and a last bit that tells
    whether anything was left). *)
Definition true_div (a b : Z) : result PrimFloat.float :=
  if Z.eqb b 0 then Raise (Exn OtherError "division by zero")
  else
    let negative := xorb (Z.ltb a 0) (Z.ltb b 0) in
    let scaled := Z.abs a * 2 ^ 2200 in
    let q := scaled / Z.abs b in
    let rest := if Z.eqb (scaled mod Z.abs b) 0 then 0 else 1 in
    let m := 2 * q + rest in
    let f := SF2Prim (binary_normalize prec emax
                        (if negative then - m else m) (-2201) negative) in
    if PrimFloat.is_infinity f
    then Raise (Exn OverflowError
                  "integer division result too large for a float")
    else Ok f.

(** [int((i + 1) / total_files * 100)] *)
Definition percent (done total_files : Z) : result Z :=
  bind (true_div done total_files) (fun q => int_of_float (q * 100)%float).

(** The body of the inner [try] for one file; [processor.run()] is a
    plain call, and what it emits is lost. *)
Definition process_file (operation : string) (preserve_original : bool)
    (exif_data : option (list (key * exif_value))) (file_path : string)
    : M unit :=
  let* working_path :=
    if preserve_original then
      let new_path := BatchProcessor.modified_path file_path in
      let* _ := invoke (Copy2 file_path new_path) (copy2 file_path new_path) in
      ret new_path
    else ret file_path in
  let* _ := run working_path operation exif_data in
  ret tt.

(** The [for] loop of the batch, from index [i]: the signals emitted, and
    the exception that ended the loop, if any. *)
Fixpoint run_from (i total_files : Z) (operation : string)
    (preserve_original : bool)
    (exif_data : option (list (key * exif_value)))
    (file_list : list string) : M (list batch_signal * option exn) :=
  match file_list with
  | [] => ret ([], None)
  | file_path :: rest =>
      let* status :=
        try_except_all
          (let* _ := process_file operation preserve_original exif_data
                       file_path in
           ret "Success")
          (fun e => ret ("Error: " ++ exc_str e)) in
      let processed := FileProcessed (BatchProcessor.basename file_path) status in
      match percent (i + 1) total_files with
      | Raise e => ret ([processed], Some e)
      | Ok progress =>
          let* more := run_from (i + 1) total_files operation
                         preserve_original exif_data rest in
          ret (processed :: ProgressValue progress :: fst more, snd more)
      end
  end.

(** [BatchProcessor.run]: the signals emitted, in order. *)
Definition batch_run (file_list : list string) (operation : string)
    (exif_data : option (list (key * exif_value)))
    (preserve_original : bool) : M (list batch_signal) :=
  let total_files := Z.of_nat (List.length file_list) in
  let* emitted := run_from 0 total_files operation preserve_original
                    exif_data file_list in
  ret (fst emitted
       ++ [match snd emitted with
           | None => BatchFinished
           | Some e => BatchError (exc_str e)
           end])%list.

End Threads.

End LegacyThreads.

(** * Properties *)

(** ** Strings *)

Lemma append_cons (c : ascii) (s t : string) :
  String c s ++ t = String c (s ++ t).
Proof. reflexivity. Qed.

Lemma append_empty_l (t : string) : "" ++ t = t.
Proof. reflexivity. Qed.

Lemma length_append (s t : string) :
  String.length (s ++ t) = (String.length s + String.length t)%nat.
Proof.
  induction s as [|c s IH]; [reflexivity|].
  rewrite append_cons. simpl. now rewrite IH.
Qed.

Lemma append_assoc (s t u : string) : (s ++ t) ++ u = s ++ (t ++ u).
Proof.
  induction s as [|c s IH]; [reflexivity|].
  rewrite !append_cons. now rewrite IH.
Qed.

Lemma append_empty_r (s : string) : s ++ "" = s.
Proof.
  induction s as [|c s IH]; [reflexivity|].
  rewrite append_cons. now rewrite IH.
Qed.

Lemma list_ascii_of_append (s t : string) :
  list_ascii_of_string (s ++ t) =
  (list_ascii_of_string s ++ list_ascii_of_string t)%list.
Proof.
  induction s as [|c s IH]; [reflexivity|].
  rewrite append_cons. simpl. now rewrite IH.
Qed.

Lemma length_string_of_list_ascii (l : list ascii) :
  String.length (string_of_list_ascii l) = List.length l.
Proof. induction l as [|c l IH]; simpl; [reflexivity | now rewrite IH]. Qed.

(** ** The geohash loop *)

Section Geohash.
Import GPSConverter.
Variables latitude longitude : PrimFloat.float.

Lemma while_unfold {S : Type} fuel cond body (s : S) :
  while (Datatypes.S fuel) cond body s =
  if cond s
  then match body s with
       | Ok s' => while fuel cond body s'
       | Raise e => Some (Raise e)
       end
  else Some (Ok s).
Proof. reflexivity. Qed.

(** A pass that does not complete a symbol. *)
Lemma pass_within lar lor g bt c ev :
  bt < 4 ->
  geohash_body latitude longitude (GeohashVars lar lor g bt c ev) =
  Ok (GeohashVars
        (if ev then lar else snd (bisect latitude lar))
        (if ev then snd (bisect longitude lor) else lor)
        g (bt + 1)
        (if fst (bisect (if ev then longitude else latitude)
                   (if ev then lor else lar))
         then Z.lor c (Z.shiftl 1 (4 - bt)) else c)
        (negb ev)).
Proof.
  intros Hbt. unfold geohash_body, bisect.
  cbn [even lat_range lon_range bit ch geohash].
  destruct ev; cbn [fst snd];
    match goal with
    | |- context [PrimFloat.leb ?a ?b] => destruct (PrimFloat.leb a b)
    end;
    cbn [even lat_range lon_range bit ch geohash fst snd negb];
    apply Z.ltb_lt in Hbt; rewrite Hbt; reflexivity.
Qed.

(** The pass that completes a symbol. *)
Lemma pass_last lar lor g c ev :
  geohash_body latitude longitude (GeohashVars lar lor g 4 c ev) =
  bind (str_index base32
          (if fst (bisect (if ev then longitude else latitude)
                     (if ev then lor else lar))
           then Z.lor c 1 else c))
    (fun c' =>
       Ok (GeohashVars
             (if ev then lar else snd (bisect latitude lar))
             (if ev then snd (bisect longitude lor) else lor)
             (g ++ String c' EmptyString) 0 0 (negb ev))).
Proof.
  unfold geohash_body, bisect.
  cbn [even lat_range lon_range bit ch geohash].
  destruct ev; cbn [fst snd];
    match goal with
    | |- context [PrimFloat.leb ?a ?b] => destruct (PrimFloat.leb a b)
    end;
    cbn [even lat_range lon_range bit ch geohash fst snd negb]; reflexivity.
Qed.

(** Case analysis on a comparison whose operands contain no other
    comparison, so that dependent midpoints are settled first. *)
Ltac case_innermost_leb :=
  match goal with
  | |- context [PrimFloat.leb ?a ?b] =>
      lazymatch a with
      | context [PrimFloat.leb _ _] => fail
      | _ => destruct (PrimFloat.leb a b); cbn [negb fst snd]
      end
  end.

(** Five passes from the start of a symbol append that symbol. *)
Lemma five_passes precision fuel lar lor g ev :
  Z.of_nat (String.length g) < precision ->
  while (5 + fuel) (geohash_cond precision)
    (geohash_body latitude longitude) (GeohashVars lar lor g 0 0 ev) =
  while fuel (geohash_cond precision) (geohash_body latitude longitude)
    (GeohashVars
       (fst (ranges_after 5 ev latitude longitude lar lor))
       (snd (ranges_after 5 ev latitude longitude lar lor))
       (g ++ String (symbol (interleaved_bits 5 ev latitude longitude lar lor))
               EmptyString)
       0 0 (negb ev)).
Proof.
  intros Hlt.
  assert (Hc : forall a b bt c e,
             geohash_cond precision (GeohashVars a b g bt c e) = true).
  { intros. unfold geohash_cond. cbn [geohash]. apply Z.ltb_lt, Hlt. }
  change (5 + fuel)%nat with (S (S (S (S (S fuel))))).
  do 4 (rewrite while_unfold, Hc, pass_within by lia).
  rewrite while_unfold, Hc.
  change (0 + 1 + 1 + 1 + 1) with 4. rewrite pass_last.
  destruct ev; cbn [negb interleaved_bits ranges_after];
    unfold bisect; cbn [fst snd];
    repeat case_innermost_leb; reflexivity.
Qed.

(** The first five bits of a longer stream, and what follows them. *)
Lemma interleaved_bits_five n ev lar lor :
  interleaved_bits (5 + n) ev latitude longitude lar lor =
  (interleaved_bits 5 ev latitude longitude lar lor ++
   interleaved_bits n (negb ev) latitude longitude
     (fst (ranges_after 5 ev latitude longitude lar lor))
     (snd (ranges_after 5 ev latitude longitude lar lor)))%list.
Proof.
  change (5 + n)%nat with (S (S (S (S (S n))))).
  destruct ev; cbn [negb interleaved_bits ranges_after];
    unfold bisect; cbn [fst snd];
    repeat case_innermost_leb; reflexivity.
Qed.

Lemma interleaved_bits_length n : forall ev lar lor,
  List.length (interleaved_bits n ev latitude longitude lar lor) = n.
Proof.
  induction n as [|n IH]; intros ev lar lor; [reflexivity|].
  cbn [interleaved_bits]. destruct ev.
  - destruct (bisect longitude lor) as [b r]. cbn. now rewrite IH.
  - destruct (bisect latitude lar) as [b r]. cbn. now rewrite IH.
Qed.

Local Notation symbols := (GPSConverter.symbols latitude longitude).

Lemma symbols_succ count ev lar lor :
  symbols (S count) ev lar lor =
  String (symbol (interleaved_bits 5 ev latitude longitude lar lor))
    (symbols count (negb ev)
       (fst (ranges_after 5 ev latitude longitude lar lor))
       (snd (ranges_after 5 ev latitude longitude lar lor))).
Proof.
  unfold symbols.
  replace (5 * S count)%nat with (5 + 5 * count)%nat by lia.
  rewrite interleaved_bits_five. cbn [groups_of_five map string_of_list_ascii].
  rewrite firstn_app, skipn_app, interleaved_bits_length.
  rewrite Nat.sub_diag. cbn [firstn skipn].
  rewrite firstn_all2 by (rewrite interleaved_bits_length; lia).
  rewrite skipn_all2 by (rewrite interleaved_bits_length; lia).
  rewrite app_nil_r. reflexivity.
Qed.

(** From the start of a symbol, with [count] symbols still to come, the
    loop ends after [5 * count] passes and appends those symbols. *)
Lemma loop_symbols precision count : forall extra lar lor g ev,
  Z.of_nat (String.length g) + Z.of_nat count
    = Z.max precision (Z.of_nat (String.length g)) ->
  exists v,
    while (5 * count + S extra) (geohash_cond precision)
      (geohash_body latitude longitude) (GeohashVars lar lor g 0 0 ev)
    = Some (Ok v)
    /\ geohash v = g ++ symbols count ev lar lor.
Proof.
  induction count as [|count IH]; intros extra lar lor g ev Hlen.
  - eexists. split.
    + cbn [Nat.mul Nat.add]. rewrite while_unfold.
      unfold geohash_cond at 1. cbn [geohash].
      replace (Z.ltb (Z.of_nat (String.length g)) precision) with false
        by (symmetry; apply Z.ltb_ge; lia).
      reflexivity.
    + cbn [geohash]. unfold symbols. cbn. now rewrite append_empty_r.
  - replace (5 * S count + S extra)%nat
      with (5 + (5 * count + S extra))%nat by lia.
    rewrite five_passes by lia.
    destruct (IH extra
                (fst (ranges_after 5 ev latitude longitude lar lor))
                (snd (ranges_after 5 ev latitude longitude lar lor))
                (g ++ String (symbol (interleaved_bits 5 ev latitude
                                        longitude lar lor)) "")
                (negb ev)) as (v & Hv & Hg).
    { rewrite length_append. cbn [String.length]. lia. }
    exists v. split; [exact Hv|].
    rewrite Hg, symbols_succ, append_assoc, append_cons, append_empty_l.
    reflexivity.
Qed.

Lemma groups_of_five_length count : forall bs,
  List.length (groups_of_five count bs) = count.
Proof. induction count as [|count IH]; intros bs; simpl; auto. Qed.

Lemma symbols_length count ev lar lor :
  String.length (symbols count ev lar lor) = count.
Proof.
  unfold symbols.
  now rewrite length_string_of_list_ascii, length_map, groups_of_five_length.
Qed.

Lemma symbol_in_alphabet bs : In (symbol bs) alphabet.
Proof.
  unfold symbol.
  destruct (Nat.lt_ge_cases (Z.to_nat (bits_value bs)) (List.length alphabet))
    as [Hlt | Hge].
  - now apply nth_In.
  - rewrite nth_overflow by exact Hge. vm_compute. now left.
Qed.

Lemma symbols_in_alphabet count ev lar lor :
  Forall (fun c => In c alphabet)
    (list_ascii_of_string (symbols count ev lar lor)).
Proof.
  unfold symbols. rewrite list_ascii_of_string_of_list_ascii.
  apply List.Forall_forall. intros c Hc. apply in_map_iff in Hc.
  destruct Hc as (bs & <- & _). apply symbol_in_alphabet.
Qed.

(** The loop of [to_geohash] ends, whatever the bound beyond
    [5 * precision + 1], with the symbols of the bisection. *)
Lemma to_geohash_fuel_enough precision extra :
  to_geohash_fuel (5 * Z.to_nat precision + 1 + extra)
    latitude longitude precision =
  Some (Ok (symbols (Z.to_nat precision) true
              ((-90)%float, 90%float) ((-180)%float, 180%float))).
Proof.
  unfold to_geohash_fuel, geohash_init.
  destruct (loop_symbols precision (Z.to_nat precision) extra
              ((-90)%float, 90%float) ((-180)%float, 180%float) "" true)
    as (v & Hv & Hg).
  { cbn [String.length]. lia. }
  replace (5 * Z.to_nat precision + 1 + extra)%nat
    with (5 * Z.to_nat precision + S extra)%nat by lia.
  rewrite Hv, Hg. reflexivity.
Qed.

End Geohash.

(** The same point gives the well-known geohash of the literature. *)
Example to_geohash_jutland :
  GPSConverter.to_geohash 57.64911%float 10.40744%float 11 =
  Some (Ok "u4pruydqqvj").
Proof. vm_compute. reflexivity. Qed.

(** C10: for every latitude, longitude and integer precision, the loop of
    [to_geohash] ends (within [5 * precision + 1] tests of its condition,
    and with the same result under any larger bound) and the text returned
    has exactly [max precision 0] characters, each of them in the alphabet
    "0123456789bcdefghjkmnpqrstuvwxyz". *)
Theorem to_geohash_terminates_length_alphabet
    (latitude longitude : PrimFloat.float) (precision : Z) :
  exists s : string,
    GPSConverter.to_geohash latitude longitude precision = Some (Ok s)
    /\ (forall extra : nat,
          GPSConverter.to_geohash_fuel (5 * Z.to_nat precision + 1 + extra)
            latitude longitude precision = Some (Ok s))
    /\ Z.of_nat (String.length s) = Z.max precision 0
    /\ Forall (fun c => In c (list_ascii_of_string
                                "0123456789bcdefghjkmnpqrstuvwxyz"))
         (list_ascii_of_string s).
Proof.
  exists (GPSConverter.rounded_geohash latitude longitude
            (Z.to_nat precision)).
  split; [|split; [|split]].
  - unfold GPSConverter.to_geohash.
    replace (5 * Z.to_nat precision + 1)%nat
      with (5 * Z.to_nat precision + 1 + 0)%nat by lia.
    apply to_geohash_fuel_enough.
  - intros extra. apply to_geohash_fuel_enough.
  - unfold GPSConverter.rounded_geohash. rewrite symbols_length. lia.
  - apply symbols_in_alphabet.
Qed.

(** ** Decoding EXIF GPS data *)

Section Decoding.
Import GPSConverter.
Context `{StrToFloat}.








(** C2: when [parse_exif_gps] returns a pair, the latitude lies in
    [-90, 90], the longitude in [-180, 180] and the pair is not (0, 0);
    a structure whose decoded coordinates fall outside those ranges, or
    are exactly (0, 0), yields [None]. *)
Theorem parse_exif_gps_validates (gps_info : gmap key value) :
  (forall lat lon : PrimFloat.float,
      parse_exif_gps gps_info = Ok (Some (lat, lon)) ->
      (-90 <=? lat)%float = true /\ (lat <=? 90)%float = true
      /\ (-180 <=? lon)%float = true /\ (lon <=? 180)%float = true
      /\ ((lat =? 0) && (lon =? 0))%bool%float = false)
  /\ (forall lat lon : PrimFloat.float,
        decoded gps_info = Some (lat, lon) ->
        ((-90 <=? lat) && (lat <=? 90) && (-180 <=? lon) && (lon <=? 180))%bool%float
          = false
        \/ ((lat =? 0) && (lon =? 0))%bool%float = true ->
        parse_exif_gps gps_info = Ok None).
Proof.
  unfold parse_exif_gps, decoded. split.
  - intros lat lon. case_bool_decide; [discriminate|].
    destruct (negb (forallb truthy _)); [discriminate|].
    destruct (_dms_to_decimal (get2 gps_info "GPSLatitude" 2) _)
      as [[latitude|]|e1]; cbn [bind try_except].
    + destruct (_dms_to_decimal (get2 gps_info "GPSLongitude" 4) _)
        as [[longitude|]|e2]; cbn [bind try_except].
      * destruct (-90 <=? latitude)%float eqn:E1, (latitude <=? 90)%float eqn:E2,
          (-180 <=? longitude)%float eqn:E3, (longitude <=? 180)%float eqn:E4;
          cbn [andb negb orb]; try discriminate.
        destruct ((latitude =? 0) && (longitude =? 0))%bool%float eqn:E5;
          [discriminate|].
        intros [= <- <-]. auto.
      * discriminate.
      * case_bool_decide; discriminate.
    + destruct (_dms_to_decimal (get2 gps_info "GPSLongitude" 4) _)
        as [[longitude|]|e2]; cbn [bind try_except];
        try discriminate; case_bool_decide; discriminate.
    + case_bool_decide; discriminate.
  - intros lat lon Hdec Hbad. case_bool_decide; [reflexivity|].
    destruct (negb (forallb truthy _)); [reflexivity|].
    destruct (_dms_to_decimal (get2 gps_info "GPSLatitude" 2) _)
      as [[latitude|]|e1]; try discriminate Hdec.
    destruct (_dms_to_decimal (get2 gps_info "GPSLongitude" 4) _)
      as [[longitude|]|e2]; try discriminate Hdec.
    injection Hdec as -> ->. cbn [bind try_except].
    destruct Hbad as [Hbad | Hbad].
    + destruct (-90 <=? lat)%float, (lat <=? 90)%float,
        (-180 <=? lon)%float, (lon <=? 180)%float;
        try discriminate Hbad; reflexivity.
    + rewrite Hbad.
      destruct (negb _ || negb _)%bool; reflexivity.
Qed.

(** Zone and hemisphere are what [to_utm] prints. *)
Lemma to_utm_text (latitude longitude : PrimFloat.float) (zone : Z) :
  utm_zone longitude = Ok zone ->
  to_utm latitude longitude =
  Ok ("Zone " ++ str_of_int zone ++ utm_hemisphere latitude
      ++ " (Approximate conversion - use specialized library for precise UTM)").
Proof. intros Hz. unfold to_utm. rewrite Hz. reflexivity. Qed.

(** The hemisphere letter is 'N' exactly when the latitude is at least
    zero, and 'S' otherwise. *)
Lemma utm_hemisphere_spec (latitude : PrimFloat.float) :
  (utm_hemisphere latitude = "N" <-> (0 <=? latitude)%float = true)
  /\ (utm_hemisphere latitude = "S" <-> (0 <=? latitude)%float = false).
Proof.
  unfold utm_hemisphere. destruct (0 <=? latitude)%float;
    split; split; intros; try discriminate; reflexivity.
Qed.

End Decoding.

(** C9: at longitude 180, which lies in [-180, 180], [to_utm] prints zone
    61, outside 1..60. *)
Theorem to_utm_zone_61_at_180 :
  PrimFloat.leb (-180)%float 180%float = true
  /\ PrimFloat.leb 180%float 180%float = true
  /\ GPSConverter.utm_zone 180%float = Ok 61
  /\ GPSConverter.to_utm 0%float 180%float =
     Ok "Zone 61N (Approximate conversion - use specialized library for precise UTM)".
Proof. vm_compute. auto. Qed.

(** The largest float below 180 prints zone 61 as well: the sum
    [longitude + 180] rounds to 360. *)
Example to_utm_zone_61_below_180 :
  PrimFloat.ltb 0x1.67fffffffffffp+7%float 180%float = true
  /\ GPSConverter.utm_zone 0x1.67fffffffffffp+7%float = Ok 61.
Proof. vm_compute. auto. Qed.

Example to_utm_zone_first_last :
  GPSConverter.utm_zone (-180)%float = Ok 1
  /\ GPSConverter.utm_zone 179.5%float = Ok 60
  /\ GPSConverter.utm_zone 0%float = Ok 31.
Proof. vm_compute. auto. Qed.

(** ** The operations on one image *)

(** Runs the code symbolically: one case per result of each library call
    and of each pure step that may raise. *)
Ltac run_call :=
  match goal with
  | |- context [copy2 ?a ?b ?w] =>
      let E := fresh "Ecopy" in destruct (copy2 a b w) as [[[]|?] ?] eqn:E
  | |- context [piexif_load ?a ?w] =>
      let E := fresh "Eload" in destruct (piexif_load a w) as [[?|?] ?] eqn:E
  | |- context [piexif_dump ?a ?w] =>
      let E := fresh "Edump" in destruct (piexif_dump a w) as [[?|?] ?] eqn:E
  | |- context [piexif_insert ?a ?b ?w] =>
      let E := fresh "Einsert" in
      destruct (piexif_insert a b w) as [[[]|?] ?] eqn:E
  | |- context [piexif_remove ?a ?w] =>
      let E := fresh "Eremove" in
      destruct (piexif_remove a w) as [[[]|?] ?] eqn:E
  | |- context [image_open ?a ?w] =>
      let E := fresh "Eopen" in destruct (image_open a w) as [[?|?] ?] eqn:E
  | |- context [image_getexif ?a ?w] =>
      let E := fresh "Eexif" in destruct (image_getexif a w) as [[?|?] ?] eqn:E
  | |- context [image_has_getexif ?a] => destruct (image_has_getexif a) eqn:?
  | |- context [EXIFProcessor.exif_truthy ?a] =>
      destruct (EXIFProcessor.exif_truthy a) eqn:?
  | |- context [match ?r with Ok _ => _ | Raise _ => _ end] =>
      let E := fresh "Epure" in destruct r as [?|?] eqn:E
  | |- context [match ?r with Some _ => _ | None => _ end] =>
      destruct r as [?|] eqn:?
  end;
  cbn beta iota.

Ltac run_code :=
  unfold try_except_all, bindM, invoke, lift, ret, raise;
  cbn beta iota;
  repeat run_call.

Section Operations.
Import EXIFProcessor Log.
Context `{Libs}.

Ltac single_pass_case :=
  cbn [res log app map ev_call ev_raised raised_in stops_at_failure succeeded];
  split; [|split; [|split]];
  [ eexists; reflexivity
  | reflexivity
  | intros x Hx; first [discriminate Hx | injection Hx as <-; reflexivity]
  | intros x Hx;
    first
      [ discriminate Hx
      | apply (f_equal (fun r => match r with Raise e => e | Ok _ => x end))
          in Hx;
        cbn beta iota in Hx; subst x; eexists; reflexivity ] ].

Lemma delete_single_pass image_path preserve_original w :
  single_pass (delete_calls image_path preserve_original)
    "Failed to delete EXIF data: " (delete image_path preserve_original w).
Proof.
  unfold delete, delete_calls, backup_calls, backup_path, wrapped, single_pass.
  destruct preserve_original; run_code; single_pass_case.
Qed.

Lemma edit_single_pass image_path exif_data preserve_original w :
  single_pass (edit_calls image_path preserve_original)
    "Failed to edit EXIF data: "
    (edit image_path exif_data preserve_original w).
Proof.
  unfold edit, edit_calls, backup_calls, backup_path, wrapped, single_pass.
  destruct preserve_original; run_code; single_pass_case.
Qed.

Lemma extract_single_pass image_path w :
  single_pass (extract_calls image_path)
    "Failed to extract EXIF data: " (extract image_path w).
Proof.
  unfold extract, extract_calls, wrapped, single_pass.
  run_code; single_pass_case.
Qed.







End Operations.


(** On a photograph that carries an EXIF table, [extract] calls
    [_getexif()] twice in its one pass: once for the test and once for the
    table. *)
Example extract_reads_exif_table_twice :
  map ev_call
    (log (@EXIFProcessor.extract Disk.disk_libs "/d/a.jpg" Disk.two_photos))
  = [ImageOpen "/d/a.jpg"; GetExif; GetExif]
  /\ match res (@EXIFProcessor.extract Disk.disk_libs "/d/a.jpg"
                  Disk.two_photos) with
     | Ok d => d !! KStr "Make"
     | Raise _ => None
     end = Some (Plain (PyStr "Canon")).
Proof. vm_compute. split; reflexivity. Qed.

(** ** Files and backups *)

Section Files.
Import EXIFProcessor BatchProcessor Log.
Context `{FileSystem}.

Lemma copy2_copies_eq src dst w w' :
  copy2 src dst w = (Ok tt, w') -> read w' dst = read w src.
Proof. intros E. generalize (copy2_copies src dst w). rewrite E. auto. Qed.

Lemma copy2_frame_eq src dst w r w' p :
  copy2 src dst w = (r, w') -> p <> dst -> read w' p = read w p.
Proof. intros E Hp. generalize (copy2_frame src dst w p Hp). now rewrite E. Qed.

Lemma piexif_load_frame_eq path w r w' p :
  piexif_load path w = (r, w') -> read w' p = read w p.
Proof. intros E. generalize (piexif_load_frame path w p). now rewrite E. Qed.

Lemma piexif_dump_frame_eq d w r w' p :
  piexif_dump d w = (r, w') -> read w' p = read w p.
Proof. intros E. generalize (piexif_dump_frame d w p). now rewrite E. Qed.

Lemma piexif_insert_frame_eq bytes path w r w' p :
  piexif_insert bytes path w = (r, w') -> p <> path -> read w' p = read w p.
Proof.
  intros E Hp. generalize (piexif_insert_frame bytes path w p Hp).
  now rewrite E.
Qed.

Lemma piexif_remove_frame_eq path w r w' p :
  piexif_remove path w = (r, w') -> p <> path -> read w' p = read w p.
Proof.
  intros E Hp. generalize (piexif_remove_frame path w p Hp). now rewrite E.
Qed.

Lemma append_neq (s t : string) : t <> "" -> s ++ t <> s.
Proof.
  intros Ht E. apply (f_equal String.length) in E.
  rewrite length_append in E. destruct t; [congruence | simpl in E; lia].
Qed.

Lemma backup_path_neq (image_path : string) :
  image_path ++ ".backup" <> image_path.
Proof. apply append_neq. discriminate. Qed.

End Files.

(** Follows a file through the calls made, back to the first world. *)
Ltac frame_step :=
  match goal with
  | E : copy2 ?s ?d ?w = (Ok tt, ?w') |- context [read ?w' ?d] =>
      rewrite (copy2_copies_eq s d w w' E)
  | E : copy2 ?s ?d ?w = (?r, ?w') |- context [read ?w' ?p] =>
      rewrite (copy2_frame_eq s d w r w' p E)
        by first [assumption | apply backup_path_neq]
  | E : piexif_load ?a ?w = (?r, ?w') |- context [read ?w' ?p] =>
      rewrite (piexif_load_frame_eq a w r w' p E)
  | E : piexif_dump ?a ?w = (?r, ?w') |- context [read ?w' ?p] =>
      rewrite (piexif_dump_frame_eq a w r w' p E)
  | E : piexif_insert ?b ?a ?w = (?r, ?w') |- context [read ?w' ?p] =>
      rewrite (piexif_insert_frame_eq b a w r w' p E)
        by first [assumption | apply backup_path_neq]
  | E : piexif_remove ?a ?w = (?r, ?w') |- context [read ?w' ?p] =>
      rewrite (piexif_remove_frame_eq a w r w' p E)
        by first [assumption | apply backup_path_neq]
  end.

Ltac in_log :=
  match goal with
  | Hin : In _ _ |- _ =>
      cbn [In] in Hin;
      repeat (destruct Hin as [Hin | Hin]; [subst|]);
      try contradiction
  end.

Ltac backup_case image_path :=
  cbn [res log final app];
  split; [|split; [|split; [|split]]];
  [ split;
    [ first [ reflexivity
            | intros (logged & Hlogged & Hcopy); in_log; discriminate Hcopy ]
    | intros Hp; first [ discriminate Hp
                       | eexists; split; [left; reflexivity | reflexivity] ] ]
  | intros logged Hlogged Hcopy; in_log;
    first [reflexivity | discriminate Hcopy]
  | intros Hp; first [ discriminate Hp | idtac ];
    cbn [Log.backup_precedes_modification Log.modifies ev_call succeeded
         ev_raised];
    rewrite ?String.eqb_refl, ?bool_decide_true by reflexivity;
    reflexivity
  | intros rest Hrest; first [ discriminate Hrest
                             | repeat frame_step; reflexivity ]
  | intros Hp; first [ discriminate Hp | repeat frame_step; reflexivity ] ].

Section Backups.
Import EXIFProcessor Log.
Context `{FileSystem}.

Lemma delete_backup image_path preserve_original w :
  backup_discipline image_path preserve_original w
    (delete image_path preserve_original w).
Proof.
  unfold delete, backup_path, wrapped, backup_discipline.
  destruct preserve_original; run_code; backup_case image_path.
Qed.

Lemma edit_backup image_path exif_data preserve_original w :
  backup_discipline image_path preserve_original w
    (edit image_path exif_data preserve_original w).
Proof.
  unfold edit, backup_path, wrapped, backup_discipline.
  destruct preserve_original; run_code; backup_case image_path.
Qed.

(** The earlier [edit_exif] and [delete_exif] of UI/UI.py copy the image
    whenever they succeed: there is no parameter to turn the backup off. *)
Lemma legacy_always_copies image_path exif_data w :
  (forall d, res (Legacy.edit_exif image_path exif_data w) = Ok d ->
     In (Copy2 image_path (image_path ++ ".backup"))
       (map ev_call (log (Legacy.edit_exif image_path exif_data w))))
  /\ (forall d, res (Legacy.delete_exif image_path w) = Ok d ->
       In (Copy2 image_path (image_path ++ ".backup"))
         (map ev_call (log (Legacy.delete_exif image_path w)))).
Proof.
  unfold Legacy.edit_exif, Legacy.delete_exif, wrapped.
  split; intros d; run_code; cbn [res log map ev_call app In];
    intros Hd; try discriminate Hd; auto 6.
Qed.

End Backups.

(** C4: [edit] and [delete] call [shutil.copy2] from the image to its
    ".backup" path if and only if [preserve_original] is true; the backup
    is made, successfully, before any call that rewrites the image, and it
    holds the image as it was; when [preserve_original] is false no copy is
    made and the ".backup" path is left as it was. *)
Theorem backup_iff_preserve_original `{FileSystem}
    (image_path : string) (exif_data : option (list (key * exif_value)))
    (preserve_original : bool) (w : world) :
  Log.backup_discipline image_path preserve_original w
    (EXIFProcessor.edit image_path exif_data preserve_original w)
  /\ Log.backup_discipline image_path preserve_original w
       (EXIFProcessor.delete image_path preserve_original w).
Proof. split; [apply edit_backup | apply delete_backup]. Qed.

(** ** The batch *)

Section BatchFiles.
Import EXIFProcessor BatchProcessor Log.
Context `{FileSystem}.

Lemma rsplit_spec c : forall s before after,
  rsplit c s = Some (before, after) -> s = before ++ String c after.
Proof.
  induction s as [|a s IH]; intros before after Hs; [discriminate Hs|].
  cbn [rsplit] in Hs. destruct (rsplit c s) as [[b t]|].
  - injection Hs as <- <-. rewrite append_cons. f_equal. now apply IH.
  - destruct (Ascii.eqb_spec a c) as [->|]; [|discriminate Hs].
    injection Hs as <- <-. reflexivity.
Qed.

(** A name is its stem followed by its suffix. *)
Lemma stem_suffix (name : string) : stem name ++ suffix name = name.
Proof.
  unfold stem, suffix. destruct (rsplit "." name) as [[before after]|] eqn:E.
  - destruct (String.eqb before "" || String.eqb after "")%bool.
    + apply append_empty_r.
    + apply rsplit_spec in E. now rewrite E.
  - apply append_empty_r.
Qed.

(** *** Paths in normal form *)

Lemma no_slash_app (a b : string) :
  no_slash (a ++ b) = (no_slash a && no_slash b)%bool.
Proof.
  induction a as [|c a IH]; [reflexivity|].
  rewrite append_cons. cbn [no_slash]. rewrite IH. now rewrite andb_assoc.
Qed.

Lemma no_slash_leading (s : string) :
  no_slash s = true -> leading_slashes s = 0%nat.
Proof.
  destruct s as [|c s]; [reflexivity|]. cbn [no_slash leading_slashes].
  destruct (Ascii.eqb c "/"); [discriminate | reflexivity].
Qed.

Lemma split_slash_no_slash (c : string) :
  no_slash c = true -> split_slash c = [c].
Proof.
  induction c as [|a c IH]; [reflexivity|]. cbn [no_slash split_slash].
  destruct (Ascii.eqb a "/"); [discriminate|]. cbn [negb andb].
  intros Hc. now rewrite (IH Hc).
Qed.

Lemma split_slash_app (c t : string) :
  no_slash c = true ->
  split_slash (c ++ String "/" t) = c :: split_slash t.
Proof.
  induction c as [|a c IH]; [reflexivity|].
  rewrite append_cons. cbn [no_slash split_slash].
  destruct (Ascii.eqb a "/"); [discriminate|]. cbn [negb andb].
  intros Hc. now rewrite (IH Hc).
Qed.

Lemma split_slash_parts (s : string) :
  Forall (fun c => no_slash c = true) (split_slash s).
Proof.
  induction s as [|a s IH]; [repeat constructor|]. cbn [split_slash].
  destruct (Ascii.eqb a "/") eqn:Ea; [now constructor|].
  destruct (split_slash s) as [|first others].
  - repeat constructor. cbn [no_slash]. now rewrite Ea.
  - inversion IH as [|? ? Hfirst Hothers]; subst. constructor; [|exact Hothers].
    cbn [no_slash]. now rewrite Ea.
Qed.

Lemma split_join (l : list string) :
  l <> [] -> Forall (fun c => no_slash c = true) l ->
  split_slash (join_slash l) = l.
Proof.
  induction l as [|c l IH]; [congruence|]. intros _ Hl.
  inversion Hl as [|? ? Hc Hrest]; subst.
  destruct l as [|c' l]; [now apply split_slash_no_slash|].
  change (join_slash (c :: c' :: l))
    with (c ++ "/" ++ join_slash (c' :: l)).
  rewrite append_cons, append_empty_l, split_slash_app by exact Hc.
  now rewrite IH.
Qed.

(** What [Path] builds is in normal form. *)
Lemma Path_normal (s : string) : normal (Path s).
Proof.
  split.
  - cbn [Path root]. unfold root_of.
    destruct (leading_slashes s) as [|[|[|n]]]; cbn [In]; auto.
  - cbn [Path parts]. apply List.Forall_forall. intros c Hc.
    apply filter_In in Hc. destruct Hc as [Hc Hk]. split; [exact Hk|].
    exact (proj1 (List.Forall_forall _ _) (split_slash_parts s) c Hc).
Qed.

Lemma filter_kept (l : list string) :
  Forall (fun c => kept c = true /\ no_slash c = true) l ->
  List.filter kept l = l.
Proof.
  induction 1 as [|c l [Hk _] _ IH]; [reflexivity|].
  cbn [List.filter]. now rewrite Hk, IH.
Qed.

(** The text of components in normal form starts with no slash. *)
Lemma join_slash_leading (l : list string) :
  Forall (fun c => kept c = true /\ no_slash c = true) l ->
  leading_slashes (join_slash l) = 0%nat.
Proof.
  intros Hl. destruct l as [|c l]; [reflexivity|].
  inversion Hl as [|? ? [Hk Hc] _]; subst.
  assert (leading_slashes (c ++ join_slash ("" :: l)) = 0%nat) as Hlead.
  { destruct c as [|a c]; [discriminate Hk|].
    rewrite append_cons. cbn [no_slash] in Hc. cbn [leading_slashes].
    destruct (Ascii.eqb a "/"); [discriminate Hc | reflexivity]. }
  destruct l as [|c' l].
  - destruct c as [|a c]; [discriminate Hk|].
    cbn [no_slash] in Hc. cbn [join_slash leading_slashes].
    destruct (Ascii.eqb a "/"); [discriminate Hc | reflexivity].
  - change (join_slash (c :: c' :: l))
      with (c ++ "/" ++ join_slash (c' :: l)).
    destruct c as [|a c]; [discriminate Hk|].
    rewrite append_cons. cbn [no_slash] in Hc. cbn [leading_slashes].
    destruct (Ascii.eqb a "/"); [discriminate Hc | reflexivity].
Qed.

Lemma parts_join (l : list string) :
  Forall (fun c => kept c = true /\ no_slash c = true) l ->
  List.filter kept (split_slash (join_slash l)) = l.
Proof.
  intros Hl. destruct l as [|c l]; [reflexivity|].
  rewrite split_join; [now apply filter_kept | discriminate |].
  eapply List.Forall_impl; [|exact Hl]. now intros x [_ Hx].
Qed.

(** Reading the text of a path in normal form gives the path again. *)
Lemma Path_str (path : pure_path) : normal path -> Path (path_str path) = path.
Proof.
  destruct path as [r l]. intros [Hr Hl]. cbn [root parts] in Hr, Hl.
  pose proof (join_slash_leading l Hl) as Hlead.
  pose proof (parts_join l Hl) as Hparts.
  unfold Path, path_str, root_of. cbn [root parts In] in *.
  destruct Hr as [<- | [<- | [<- | []]]].
  - destruct l as [|c l]; [reflexivity|].
    rewrite append_empty_l, Hlead, Hparts. reflexivity.
  - rewrite append_cons, append_empty_l.
    cbn [leading_slashes split_slash List.filter kept String.eqb orb negb].
    change (Ascii.eqb "/" "/") with true. cbv iota.
    cbn [List.filter kept String.eqb orb negb].
    rewrite Hlead, Hparts. reflexivity.
  - rewrite !append_cons, append_empty_l.
    cbn [leading_slashes split_slash].
    change (Ascii.eqb "/" "/") with true. cbv iota.
    cbn [List.filter kept String.eqb orb negb].
    rewrite Hlead, Hparts. reflexivity.
Qed.

Lemma Forall_removelast {A} (P : A -> Prop) (l : list A) :
  Forall P l -> Forall P (removelast l).
Proof.
  induction 1 as [|x l Hx Hl IH]; [constructor|].
  destruct l as [|y l]; [constructor|].
  change (removelast (x :: y :: l)) with (x :: removelast (y :: l)).
  now constructor.
Qed.

(** The name of a path holds no slash. *)
Lemma path_name_no_slash (s : string) : no_slash (path_name (Path s)) = true.
Proof.
  destruct (Path_normal s) as [_ Hl]. unfold path_name.
  destruct (parts (Path s)) as [|c l] eqn:E; [reflexivity|].
  assert (In (List.last (c :: l) "") (c :: l)) as Hin.
  { destruct (exists_last (l := c :: l)) as (l' & a & ->); [discriminate|].
    rewrite last_last. apply in_or_app. right. now left. }
  exact (proj2 (proj1 (List.Forall_forall _ _) Hl _ Hin)).
Qed.

Lemma modified_name_length (name : string) :
  String.length (modified_name name) = (String.length name + 9)%nat.
Proof.
  pose proof (f_equal String.length (stem_suffix name)) as E.
  rewrite length_append in E.
  unfold modified_name. rewrite !length_append. cbn [String.length]. lia.
Qed.

Lemma kept_long (s : string) : (2 <= String.length s)%nat -> kept s = true.
Proof.
  destruct s as [|a [|b s]]; cbn [String.length]; try lia. intros _.
  unfold kept. cbn [String.eqb]. now destruct (Ascii.eqb a ".").
Qed.

Lemma modified_name_component (name : string) :
  no_slash name = true ->
  kept (modified_name name) = true /\ no_slash (modified_name name) = true.
Proof.
  intros Hn. split.
  - apply kept_long. rewrite modified_name_length. lia.
  - rewrite <- (stem_suffix name), no_slash_app in Hn.
    apply andb_true_iff in Hn. destruct Hn as [Hs Hx].
    unfold modified_name. now rewrite !no_slash_app, Hs, Hx.
Qed.

(** The name of the copy, taken as a path, is that one component. *)
Lemma Path_modified_name (name : string) :
  no_slash name = true ->
  Path (modified_name name) = PurePath "" [modified_name name].
Proof.
  intros Hn. destruct (modified_name_component name Hn) as [Hk Hs].
  unfold Path, root_of.
  rewrite (no_slash_leading _ Hs), (split_slash_no_slash _ Hs).
  cbn [List.filter]. now rewrite Hk.
Qed.

(** The path of the copy: the root and the components of the file, the
    last one replaced by the name of the copy. *)
Lemma modified_path_read (file_path : string) :
  Path (modified_path file_path)
  = PurePath (root (Path file_path))
      (removelast (parts (Path file_path))
       ++ [modified_name (path_name (Path file_path))]).
Proof.
  pose proof (path_name_no_slash file_path) as Hn.
  destruct (Path_normal file_path) as [Hr Hl].
  unfold modified_path, truediv. cbv zeta.
  rewrite (Path_modified_name _ Hn). cbn [root parts path_parent String.eqb].
  apply Path_str. split; [exact Hr|]. cbn [parts].
  apply Forall_app. split; [now apply Forall_removelast|].
  repeat constructor; now apply modified_name_component.
Qed.

(** The copy is never the file itself. *)
Lemma modified_path_neq (file_path : string) :
  modified_path file_path <> file_path.
Proof.
  intros E. pose proof (modified_path_read file_path) as Hread.
  rewrite E in Hread.
  apply (f_equal (fun path => String.length (path_name path))) in Hread.
  unfold path_name at 2 in Hread. cbn [parts] in Hread.
  rewrite last_last, modified_name_length in Hread. lia.
Qed.

(** The calls for one file: with [preserve_original] the copy to the
    "_modified" path and then the operation on that copy; without it the
    operation on the file itself. *)
Lemma process_file_calls operation preserve_original exif_data file_path w :
  map ev_call
    (log (process_file operation preserve_original exif_data file_path w))
  `prefix_of`
  (if preserve_original
   then Copy2 file_path (modified_path file_path)
        :: operation_calls operation (modified_path file_path)
   else operation_calls operation file_path).
Proof.
  unfold process_file, operation_calls, delete, edit, wrapped.
  destruct preserve_original, (String.eqb operation "delete"),
    (String.eqb operation "edit");
    run_code; cbn [log map ev_call app]; eexists; reflexivity.
Qed.

(** Processing one file writes the path worked on and no other. *)
Lemma process_file_frame operation (preserve_original : bool) exif_data
    (file_path : string) w (q : string) :
  q <> (if preserve_original then modified_path file_path else file_path) ->
  read (final (process_file operation preserve_original exif_data
                 file_path w)) q
  = read w q.
Proof.
  intros Hq. unfold process_file, delete, edit, wrapped.
  destruct preserve_original, (String.eqb operation "delete"),
    (String.eqb operation "edit");
    run_code; cbn [final]; repeat frame_step; reflexivity.
Qed.

(** One turn of the loop of [run]: the file is processed, its status is
    reported whatever the result, and the loop goes on from the world the
    file left. *)
Lemma run_from_cons i n operation preserve_original exif_data file_path rest w :
  run_from i n operation preserve_original exif_data (file_path :: rest) w =
  let o1 := process_file operation preserve_original exif_data file_path w in
  let o2 := run_from (i + 1) n operation preserve_original exif_data rest
              (final o1) in
  Outcome (res o2) (final o2)
    (log o1
     ++ Event (Progress (i + 1) n (basename file_path) (status_of (res o1)))
          None
        :: log o2).
Proof.
  cbn [run_from].
  unfold try_except_all, bindM, progress_callback, invoke, ret.
  destruct (process_file operation preserve_original exif_data file_path w)
    as [[[]|e] w1 l1]; cbn beta iota zeta; cbn [res final log status_of];
    destruct (run_from (i + 1) n operation preserve_original exif_data rest w1)
      as [r w2 l2]; cbn [res final log];
    rewrite ?app_nil_r, <- ?app_assoc; reflexivity.
Qed.

(** No failure of a file escapes the loop. *)
Lemma run_from_returns operation preserve_original exif_data n file_paths :
  forall i w,
    res (run_from i n operation preserve_original exif_data file_paths w)
    = Ok tt.
Proof.
  induction file_paths as [|file_path rest IH]; intros i w; [reflexivity|].
  rewrite run_from_cons. cbn [res]. apply IH.
Qed.

(** The log of the loop: file after file, each followed by its report. *)
Lemma run_from_log operation preserve_original exif_data n file_paths :
  forall i w,
    log (run_from i n operation preserve_original exif_data file_paths w)
    = expected_log i n operation preserve_original exif_data file_paths w.
Proof.
  induction file_paths as [|file_path rest IH]; intros i w; [reflexivity|].
  rewrite run_from_cons. cbn [log expected_log]. now rewrite IH.
Qed.

Lemma progress_calls_app (l1 l2 : list event) :
  progress_calls (l1 ++ l2) = (progress_calls l1 ++ progress_calls l2)%list.
Proof. unfold progress_calls. now rewrite map_app, filter_app. Qed.

Lemma operation_calls_not_progress operation path :
  filter (fun c => is_progress c = true) (operation_calls operation path) = [].
Proof.
  unfold operation_calls.
  destruct (String.eqb operation "delete"), (String.eqb operation "edit");
    reflexivity.
Qed.

Lemma process_file_no_progress operation preserve_original exif_data file_path w :
  progress_calls
    (log (process_file operation preserve_original exif_data file_path w))
  = [].
Proof.
  unfold progress_calls.
  destruct (process_file_calls operation preserve_original exif_data
              file_path w) as [k Hk].
  assert (filter (fun c => is_progress c = true)
            (if preserve_original
             then Copy2 file_path (modified_path file_path)
                  :: operation_calls operation (modified_path file_path)
             else operation_calls operation file_path) = []) as Hnone.
  { destruct preserve_original;
      [rewrite filter_cons_False by (cbn; discriminate)|];
      apply operation_calls_not_progress. }
  rewrite Hk, filter_app in Hnone.
  now apply app_eq_nil in Hnone.
Qed.

(** The progress calls of the loop are those the specification lists. *)
Lemma run_from_progress operation preserve_original exif_data n file_paths :
  forall i w,
    progress_calls
      (log (run_from i n operation preserve_original exif_data file_paths w))
    = expected_progress i n operation preserve_original exif_data
        file_paths w.
Proof.
  induction file_paths as [|file_path rest IH]; intros i w; [reflexivity|].
  rewrite run_from_cons. cbn [log expected_progress].
  rewrite progress_calls_app, process_file_no_progress.
  change (Event ?c None :: ?l) with ([Event c None] ++ l)%list.
  rewrite progress_calls_app, IH. reflexivity.
Qed.

Lemma expected_progress_length operation preserve_original exif_data n
    file_paths : forall i w,
  List.length (expected_progress i n operation preserve_original exif_data
                 file_paths w)
  = List.length file_paths.
Proof.
  induction file_paths as [|file_path rest IH]; intros i w; [reflexivity|].
  cbn [expected_progress List.length]. now rewrite IH.
Qed.

Lemma status_of_shape (r : result unit) :
  status_of r = "Success" \/ exists e, r = Raise e /\ status_of r = "Error: " ++ exc_str e.
Proof. destruct r as [|e]; [left | right; exists e]; auto. Qed.

(** The call at position [k] carries [k + 1], the total, the base name of
    the path at position [k] and a status. *)
Lemma expected_progress_lookup operation preserve_original exif_data n
    file_paths : forall i w k file_path,
  file_paths !! k = Some file_path ->
  exists status,
    expected_progress i n operation preserve_original exif_data file_paths w
      !! k
    = Some (Progress (i + Z.of_nat k + 1) n (basename file_path) status)
    /\ (status = "Success" \/ exists e, status = "Error: " ++ exc_str e).
Proof.
  induction file_paths as [|first rest IH]; intros i w k file_path Hk;
    [discriminate Hk|].
  destruct k as [|k].
  - injection Hk as ->. cbn [expected_progress]. eexists. split.
    + cbn. rewrite Z.add_0_r. reflexivity.
    + destruct (status_of_shape
                  (res (process_file operation preserve_original exif_data
                          file_path w))) as [-> | (e & _ & ->)]; eauto.
  - cbn [expected_progress].
    destruct (IH (i + 1)
                (final (process_file operation preserve_original exif_data
                          first w)) k file_path Hk) as (status & Hs & Hshape).
    exists status. split; [|exact Hshape].
    replace (i + Z.of_nat (S k) + 1) with (i + 1 + Z.of_nat k + 1) by lia.
    exact Hs.
Qed.

(** The batch writes the paths worked on and no other. *)
Lemma run_from_frame operation (preserve_original : bool) exif_data n
    (q : string) (file_paths : list string) : forall i w,
  (forall file_path, In file_path file_paths ->
     q <> (if preserve_original then modified_path file_path else file_path)) ->
  read (final (run_from i n operation preserve_original exif_data
                 file_paths w)) q
  = read w q.
Proof.
  induction file_paths as [|file_path rest IH]; intros i w Hq; [reflexivity|].
  rewrite run_from_cons. cbn [final].
  rewrite IH by (intros p Hp; apply Hq; now right).
  apply process_file_frame, Hq. now left.
Qed.

End BatchFiles.

(** C3: for a list of n paths, [run] calls [progress_callback] exactly n
    times and in list order; the call for the path at position k (from 0)
    carries k + 1, n, the base name of that path and a status; the status is
    "Success" or "Error: " followed by the message of the failure; the files
    are processed strictly in list order, each followed by its report, and
    a failure never stops the loop: every file is processed, in the world
    its predecessors left, and [run] returns. *)
Theorem run_reports_every_file_in_order `{Libs}
    (file_paths : list string) (operation : string)
    (preserve_original : bool)
    (exif_data : option (list (key * exif_value))) (w : world) :
  let o := BatchProcessor.run file_paths operation preserve_original
             exif_data w in
  let n := Z.of_nat (List.length file_paths) in
  res o = Ok tt
  /\ log o
     = BatchProcessor.expected_log 0 n operation preserve_original
         exif_data file_paths w
  /\ BatchProcessor.progress_calls (log o)
     = BatchProcessor.expected_progress 0 n operation preserve_original
         exif_data file_paths w
  /\ List.length (BatchProcessor.progress_calls (log o))
     = List.length file_paths
  /\ (forall (k : nat) (file_path : string),
        file_paths !! k = Some file_path ->
        exists status,
          BatchProcessor.progress_calls (log o) !! k
          = Some (Progress (Z.of_nat k + 1) n
                    (BatchProcessor.basename file_path) status)
          /\ (status = "Success"
              \/ exists e, status = "Error: " ++ exc_str e)).
Proof.
  cbv zeta. unfold BatchProcessor.run.
  rewrite run_from_returns, run_from_progress, expected_progress_length.
  split; [reflexivity|]. split; [apply run_from_log|].
  split; [reflexivity|]. split; [reflexivity|].
  intros k file_path Hk.
  destruct (expected_progress_lookup operation preserve_original exif_data
              (Z.of_nat (List.length file_paths)) file_paths 0 w k file_path Hk)
    as (status & Hs & Hshape).
  exists status. split; [exact Hs | exact Hshape].
Qed.

(** A batch of three paths, the second of which does not exist. *)
Example run_reports_missing_file :
  BatchProcessor.progress_calls
    (log (@BatchProcessor.run Disk.disk_libs
            ["/d/a.jpg"; "/d/missing.jpg"; "/d/a_modified.jpg"]
            "delete" false None Disk.two_photos))
  = [Progress 1 3 "a.jpg" "Success";
     Progress 2 3 "missing.jpg"
       "Error: Failed to delete EXIF data: No such file or directory: /d/missing.jpg";
     Progress 3 3 "a_modified.jpg" "Success"].
Proof. vm_compute. reflexivity. Qed.

(** ** The concrete world satisfies the laws of files *)

Lemma disk_copy2_copies src dst (w : gmap string Disk.file) :
  fst (Disk.disk_copy2 src dst w) = Ok tt ->
  snd (Disk.disk_copy2 src dst w) !! dst = w !! src.
Proof.
  unfold Disk.disk_copy2. destruct (w !! src) as [f|]; [|discriminate].
  intros _. cbn [snd]. apply lookup_insert_eq.
Qed.

Lemma disk_copy2_frame src dst (w : gmap string Disk.file) p :
  p <> dst -> snd (Disk.disk_copy2 src dst w) !! p = w !! p.
Proof.
  intros Hp. unfold Disk.disk_copy2. destruct (w !! src) as [f|]; cbn [snd];
    [now apply lookup_insert_ne | reflexivity].
Qed.

Lemma disk_load_frame path (w : gmap string Disk.file) (p : string) :
  snd (Disk.disk_load path w) !! p = w !! p.
Proof. unfold Disk.disk_load. destruct (w !! path); reflexivity. Qed.

Lemma disk_dump_frame d (w : gmap string Disk.file) (p : string) :
  snd (Disk.disk_dump d w) !! p = w !! p.
Proof.
  unfold Disk.disk_dump.
  destruct (d !! KStr "0th") as [[v|ifd]|]; try reflexivity.
  destruct (ifd !! KInt 271) as [[]|]; reflexivity.
Qed.

Lemma disk_insert_frame bytes path (w : gmap string Disk.file) p :
  p <> path -> snd (Disk.disk_insert bytes path w) !! p = w !! p.
Proof.
  intros Hp. unfold Disk.disk_insert. destruct (w !! path) as [f|]; cbn [snd];
    [now apply lookup_insert_ne | reflexivity].
Qed.

Lemma disk_remove_frame path (w : gmap string Disk.file) p :
  p <> path -> snd (Disk.disk_remove path w) !! p = w !! p.
Proof.
  intros Hp. unfold Disk.disk_remove. destruct (w !! path) as [f|]; cbn [snd];
    [now apply lookup_insert_ne | reflexivity].
Qed.

Definition disk_files : @FileSystem Disk.disk_libs := {|
  content := Disk.file;
  read := fun (w : @world Disk.disk_libs) (p : string) => w !! p;
  copy2_copies := disk_copy2_copies;
  copy2_frame := disk_copy2_frame;
  piexif_load_frame := disk_load_frame;
  piexif_dump_frame := disk_dump_frame;
  piexif_insert_frame := disk_insert_frame;
  piexif_remove_frame := disk_remove_frame
|}.

(** C5: the code misses what the claim says when an input is named as the
    copy of another input would be.  In a batch over "/d/a.jpg" and
    "/d/a_modified.jpg" that is to keep the originals, the copy of the first
    replaces the second: the photograph "/d/a_modified.jpg" held is in no
    file afterwards, and its copy is a copy of the other photograph; both
    files are reported as a success. *)
Theorem batch_overwrites_an_input :
  let o := @BatchProcessor.run Disk.disk_libs
             ["/d/a.jpg"; "/d/a_modified.jpg"] "delete" true None
             Disk.two_photos in
  Disk.two_photos !! "/d/a_modified.jpg"
  = Some (Disk.File (Some "Nikon") "pixels of b")
  /\ final o !! "/d/a_modified.jpg" = Some (Disk.File None "pixels of a")
  /\ final o !! "/d/a_modified_modified.jpg"
     = Some (Disk.File None "pixels of a")
  /\ final o !! "/d/a.jpg" = Some (Disk.File (Some "Canon") "pixels of a")
  /\ map fst (map_to_list (final o))
     ≡ₚ ["/d/a.jpg"; "/d/a_modified.jpg"; "/d/a_modified_modified.jpg"]
  /\ BatchProcessor.progress_calls (log o)
     = [Progress 1 2 "a.jpg" "Success";
        Progress 2 2 "a_modified.jpg" "Success"].
Proof.
  cbv zeta. repeat split; try (vm_compute; reflexivity).
  apply (bool_decide_unpack _). vm_compute. exact I.
Qed.

(** On the concrete world: a batch that keeps the originals leaves a lone
    input as it was and strips the copy. *)
Example batch_keeps_lone_original :
  let w := @BatchProcessor.run Disk.disk_libs ["/d/a.jpg"] "delete" true None
             (<["/d/a.jpg" := Disk.File (Some "Canon") "pixels of a"]> ∅) in
  final w !! "/d/a.jpg" = Some (Disk.File (Some "Canon") "pixels of a")
  /\ final w !! "/d/a_modified.jpg" = Some (Disk.File None "pixels of a").
Proof. vm_compute. auto. Qed.

(** On the concrete world: [edit] with [preserve_original] keeps the image
    as it was under ".backup". *)
Example edit_keeps_backup :
  let o := @EXIFProcessor.edit Disk.disk_libs "/d/a.jpg"
             (Some [(KStr "0th", Nested (<[KInt 271 := PyStr "Leica"]> ∅))])
             true Disk.two_photos in
  map ev_call (log o)
  = [Copy2 "/d/a.jpg" "/d/a.jpg.backup"; PiexifLoad "/d/a.jpg"; PiexifDump;
     PiexifInsert "/d/a.jpg"]
  /\ final o !! "/d/a.jpg.backup" = Some (Disk.File (Some "Canon") "pixels of a")
  /\ final o !! "/d/a.jpg" = Some (Disk.File (Some "Leica") "pixels of a").
Proof. vm_compute. auto. Qed.

(** ** The window *)

Section Window.
Import MainWindow.

Lemma start_running j s : running (start j s) = (running s ++ [j])%list.
Proof. reflexivity. Qed.

Lemma extract_exif_running s :
  running (extract_exif s) = running s
  \/ exists j, running (extract_exif s) = (running s ++ [j])%list.
Proof.
  unfold extract_exif. destruct (selected s); [right; eexists|left];
    reflexivity.
Qed.

(** A handler starts at most one worker. *)
Lemma handle_starts_at_most_one e s s' :
  handle e s = Some s' ->
  (List.length (running s') <= List.length (running s) + 1)%nat.
Proof.
  destruct e; cbn [handle].
  - intros [= <-]. unfold open_single_image.
    destruct (String.eqb file_path ""); [lia|].
    destruct (extract_exif_running
                {| current_image_path := Some file_path; worker := worker s;
                   running := running s |}) as [-> | (j & ->)];
      cbn [running]; rewrite ?length_app; cbn; lia.
  - intros [= <-].
    destruct (extract_exif_running s) as [-> | (j & ->)];
      rewrite ?length_app; cbn; lia.
  - intros [= <-]. unfold save_exif_changes.
    destruct (selected s), reply_yes; rewrite ?start_running, ?length_app;
      cbn; lia.
  - intros [= <-]. unfold delete_all_exif.
    destruct (selected s), reply_yes; rewrite ?start_running, ?length_app;
      cbn; lia.
  - intros [= <-]. unfold process_batch_images.
    destruct file_list, (mentions_delete operation_text), reply_yes;
      rewrite ?start_running, ?length_app; cbn; lia.
  - destruct (running s !! i) as [j|] eqn:Ei; [|discriminate].
    intros [= <-].
    assert (List.length (delete i (running s)) <= List.length (running s))%nat
      as Hdel.
    { rewrite length_delete by eauto. lia. }
    destruct ok; [|cbn [running]; lia].
    destruct j; cbn [on_finished running]; try lia;
      match goal with
      | |- context [extract_exif ?x] =>
          destruct (extract_exif_running x) as [-> | (j' & ->)]
      end; cbn [running]; rewrite ?length_app; cbn; lia.
Qed.

(** With an image selected, each click on "Extract" starts one more
    worker, whatever is running. *)
Lemma clicks_add_workers (n : nat) : forall s p,
  selected s = Some p ->
  exists s',
    handle_all (repeat ClickExtract n) s = Some s'
    /\ selected s' = Some p
    /\ List.length (running s') = (List.length (running s) + n)%nat.
Proof.
  induction n as [|n IH]; intros s p Hp.
  - exists s. cbn. auto with lia.
  - cbn [repeat handle_all handle].
    assert (extract_exif s = start (Extract p) s) as ->.
    { unfold extract_exif. now rewrite Hp. }
    destruct (IH (start (Extract p) s) p) as (s' & Hs' & Hsel & Hlen).
    { unfold selected in *. exact Hp. }
    exists s'. split; [exact Hs'|]. split; [exact Hsel|].
    rewrite Hlen, start_running, length_app. cbn. lia.
Qed.

End Window.

Section WorkerThread.
Import MainWindow.
Context `{Libs}.

(** A worker runs the operation it was created for, once, and emits one
    signal: [finished] with the result, or [error] with the text of the
    exception. *)
Lemma worker_run_emits (j : job) (w : world) :
  log (worker_run j w) = log (job_operation j w)
  /\ final (worker_run j w) = final (job_operation j w)
  /\ res (worker_run j w)
     = Ok (match res (job_operation j w) with
           | Ok result => Finished result
           | Raise e => Error (exc_str e)
           end).
Proof.
  unfold worker_run, try_except_all, bindM, ret.
  destruct (job_operation j w) as [[result|e] w1 l1];
    cbn [res final log]; rewrite app_nil_r; auto.
Qed.

End WorkerThread.

(** C8, as the code has it: a handler of the window starts at most one
    worker per event (the handlers are functions of the state of the window
    alone: they call no library); a worker runs the one operation it was
    created for and emits one signal; but the number of workers running at
    a moment is not limited: for every n there is a sequence of user
    actions after which n workers are running. *)
Theorem workers_are_not_limited `{Libs} :
  (forall e s s',
      MainWindow.handle e s = Some s' ->
      (List.length (MainWindow.running s')
       <= List.length (MainWindow.running s) + 1)%nat)
  /\ (forall (j : MainWindow.job) (w : world),
        log (MainWindow.worker_run j w) = log (MainWindow.job_operation j w)
        /\ exists sig, res (MainWindow.worker_run j w) = Ok sig)
  /\ (forall n : nat,
        exists events s,
          MainWindow.handle_all events MainWindow.initial = Some s
          /\ List.length (MainWindow.running s) = n).
Proof.
  split; [apply handle_starts_at_most_one|].
  split.
  { intros j w. destruct (worker_run_emits j w) as (Hlog & _ & Hres).
    split; [exact Hlog | eexists; exact Hres]. }
  intros [|n].
  - exists [], MainWindow.initial. split; reflexivity.
  - destruct (clicks_add_workers n
                (MainWindow.open_single_image "/d/a.jpg" MainWindow.initial)
                "/d/a.jpg" eq_refl) as (s & Hs & _ & Hlen).
    exists (MainWindow.OpenSingleImage "/d/a.jpg"
            :: repeat MainWindow.ClickExtract n), s.
    split; [exact Hs|]. rewrite Hlen. reflexivity.
Qed.

(** C8, as stated, fails: after an image is opened (which starts an
    extraction) a click on "Delete All EXIF Data" starts a second worker
    on the same image while the first is still running. *)
Lemma two_workers_on_one_image :
  exists s,
    MainWindow.handle_all
      [MainWindow.OpenSingleImage "/d/a.jpg"; MainWindow.ClickDelete true false]
      MainWindow.initial = Some s
    /\ MainWindow.running s
       = [MainWindow.Extract "/d/a.jpg"; MainWindow.Delete "/d/a.jpg" false]
    /\ map MainWindow.job_image (MainWindow.running s)
       = [Some "/d/a.jpg"; Some "/d/a.jpg"].
Proof. eexists. vm_compute. auto. Qed.

(** ** The theorems at the concrete world *)

Lemma backup_iff_preserve_original_witness :
  @Log.backup_discipline Disk.disk_libs disk_files _ "/d/a.jpg" true
    Disk.two_photos
    (@EXIFProcessor.edit Disk.disk_libs "/d/a.jpg" (Some []) true
       Disk.two_photos)
  /\ @Log.backup_discipline Disk.disk_libs disk_files _ "/d/a.jpg" true
       Disk.two_photos
       (@EXIFProcessor.delete Disk.disk_libs "/d/a.jpg" true Disk.two_photos).
Proof.
  exact (@backup_iff_preserve_original Disk.disk_libs disk_files "/d/a.jpg"
           (Some []) true Disk.two_photos).
Defined.

(** ** Decoding, on examples *)

Example parse_exif_gps_pittsburgh :
  @GPSConverter.parse_exif_gps Disk.no_text Disk.pittsburgh
  = Ok (Some ((40 + 26 / 60 + 46 / 3600)%float,
              (- (79 + 58 / 60 + 56 / 3600))%float)).
Proof. vm_compute. reflexivity. Qed.

(** The same structure under the numeric keys 1 to 4, with a latitude of
    91 degrees: rejected. *)
Example parse_exif_gps_out_of_range :
  @GPSConverter.parse_exif_gps Disk.no_text
    (<[KInt 1 := PyStr "N"]>
       (<[KInt 2 := PyList [PyInt 91; PyInt 0; PyInt 0]]>
          (<[KInt 3 := PyStr "E"]>
             (<[KInt 4 := PyList [PyInt 10; PyInt 0; PyInt 0]]> ∅))))
  = Ok None
  /\ @GPSConverter.decoded Disk.no_text
       (<[KInt 1 := PyStr "N"]>
          (<[KInt 2 := PyList [PyInt 91; PyInt 0; PyInt 0]]>
             (<[KInt 3 := PyStr "E"]>
                (<[KInt 4 := PyList [PyInt 10; PyInt 0; PyInt 0]]> ∅))))
     = Some (91%float, 10%float).
Proof. vm_compute. auto. Qed.

(** Rational pairs as piexif stores them are not numbers for [float]:
    the datum decodes to [None]. *)
Example dms_to_decimal_pairs :
  @GPSConverter._dms_to_decimal Disk.no_text
    (PyTuple [PyTuple [PyInt 40; PyInt 1]; PyTuple [PyInt 26; PyInt 1];
              PyTuple [PyInt 46; PyInt 1]]) (PyStr "N")
  = Ok None.
Proof. vm_compute. reflexivity. Qed.

Example dms_to_decimal_south :
  @GPSConverter._dms_to_decimal Disk.no_text
    (PyList [PyInt 33; PyInt 52; PyFloat 4.5]) (PyStr "s")
  = Ok (Some (- (33 + 52 / 60 + 4.5 / 3600))%float).
Proof. vm_compute. reflexivity. Qed.


Lemma parse_exif_gps_validates_witness :
  let lat := (40 + 26 / 60 + 46 / 3600)%float in
  let lon := (- (79 + 58 / 60 + 56 / 3600))%float in
  @GPSConverter.parse_exif_gps Disk.no_text Disk.pittsburgh
  = Ok (Some (lat, lon))
  /\ ((-90 <=? lat)%float = true /\ (lat <=? 90)%float = true
      /\ (-180 <=? lon)%float = true /\ (lon <=? 180)%float = true
      /\ ((lat =? 0) && (lon =? 0))%bool%float = false).
Proof.
  cbv zeta. split; [vm_compute; reflexivity|].
  apply (proj1 (@parse_exif_gps_validates Disk.no_text Disk.pittsburgh)).
  vm_compute. reflexivity.
Defined.

(** ** Decoding EXIF GPS data: failures and what is read *)

Section DecodingFailures.
Import GPSConverter.
Context `{StrToFloat}.

Import GPSFields.

(** [float(x)] raises [ValueError], [TypeError], or [OverflowError] for an
    integer beyond the floats. *)
Lemma float_raises v e :
  float v = Raise e ->
  e = too_large \/ exc_cls e = ValueError \/ exc_cls e = TypeError.
Proof.
  destruct v; cbn [float];
    try match goal with
        | |- context [if ?b then _ else _] => destruct b
        | |- context [float_of_str ?s] => destruct (float_of_str s)
        | |- context [float_of_int ?z] =>
            unfold float_of_int; destruct (PrimFloat.is_infinity _)
        end;
    try discriminate; intros [= <-]; auto.
Qed.

Lemma degrees_minutes_seconds_raises l e :
  (3 <= List.length l)%nat ->
  degrees_minutes_seconds l = Raise e ->
  e = too_large \/ exc_cls e = ValueError \/ exc_cls e = TypeError.
Proof.
  destruct l as [|c0 [|c1 [|c2 rest]]]; cbn [List.length]; try lia.
  intros _. unfold degrees_minutes_seconds, item. cbn [nth_error bind].
  destruct (float c0) as [d|e0] eqn:E0; cbn [bind];
    [|intros [= <-]; eapply float_raises, E0].
  destruct (float c1) as [m|e1] eqn:E1; cbn [bind];
    [|intros [= <-]; eapply float_raises, E1].
  destruct (float c2) as [s|e2] eqn:E2; cbn [bind];
    [discriminate|intros [= <-]; eapply float_raises, E2].
Qed.

Lemma dms_to_decimal_body_raises dms_data ref e :
  dms_to_decimal_body dms_data ref = Raise e ->
  e = too_large \/ exc_cls e = ValueError \/ exc_cls e = TypeError.
Proof.
  unfold dms_to_decimal_body.
  destruct (is_list_or_tuple dms_data && Nat.leb 3 _)%bool eqn:E1.
  - apply andb_prop in E1 as [_ Hlen]. apply Nat.leb_le in Hlen.
    destruct (degrees_minutes_seconds _) as [[[d m] s]|e'] eqn:E; cbn [bind].
    + destruct (ref_is_south_or_west ref); discriminate.
    + intros [= <-]. eapply degrees_minutes_seconds_raises; eauto.
  - destruct (has_iter dms_data && negb _)%bool; [|discriminate].
    destruct (Nat.leb 3 _) eqn:Hlen; [|discriminate].
    apply Nat.leb_le in Hlen.
    destruct (degrees_minutes_seconds _) as [[[d m] s]|e'] eqn:E; cbn [bind].
    + destruct (ref_is_south_or_west ref); discriminate.
    + intros [= <-]. eapply degrees_minutes_seconds_raises; eauto.
Qed.

(** What escapes [_dms_to_decimal] is the [OverflowError] of [float]. *)
Lemma dms_to_decimal_raises dms_data ref e :
  _dms_to_decimal dms_data ref = Raise e -> e = too_large.
Proof.
  unfold _dms_to_decimal.
  destruct (dms_to_decimal_body dms_data ref) as [r|e'] eqn:E;
    cbn [try_except]; [discriminate|].
  apply dms_to_decimal_body_raises in E.
  case_bool_decide as Hin; [discriminate|]. intros [= <-].
  destruct E as [E | [E | E]]; [exact E | |];
    exfalso; apply Hin; rewrite E; set_solver.
Qed.

Lemma get2_ext (g g' : gmap key value) name number :
  g !! KStr name = g' !! KStr name ->
  g !! KInt number = g' !! KInt number ->
  get2 g name number = get2 g' name number.
Proof. unfold get2, get. now intros -> ->. Qed.

(** An empty dictionary is the case of four missing fields. *)
Lemma parse_exif_gps_fields (g : gmap key value) :
  parse_exif_gps g =
  try_except [KeyError; ValueError; TypeError; IndexError]
    (let lat_ref := get2 g "GPSLatitudeRef" 1 in
     let lat_data := get2 g "GPSLatitude" 2 in
     let lon_ref := get2 g "GPSLongitudeRef" 3 in
     let lon_data := get2 g "GPSLongitude" 4 in
     if negb (forallb truthy [lat_ref; lat_data; lon_ref; lon_data])
     then Ok None
     else
       bind (_dms_to_decimal lat_data lat_ref) (fun latitude =>
       bind (_dms_to_decimal lon_data lon_ref) (fun longitude =>
       match latitude, longitude with
       | Some latitude, Some longitude =>
           if (negb ((-90 <=? latitude) && (latitude <=? 90))
               || negb ((-180 <=? longitude) && (longitude <=? 180)))%bool%float
           then Ok None
           else if ((latitude =? 0) && (longitude =? 0))%bool%float
           then Ok None
           else Ok (Some (latitude, longitude))
       | _, _ => Ok None
       end)))
    (fun _ => Ok None).
Proof.
  unfold parse_exif_gps. case_bool_decide as Hempty; [|reflexivity].
  apply dom_empty_inv_L in Hempty. subst g.
  reflexivity.
Qed.

End DecodingFailures.

(** X1: the only exception that escapes [parse_exif_gps] is the
    [OverflowError] that [float] raises on an integer component too large
    for a float; every other failure of the decoding gives [None]. *)
Theorem parse_exif_gps_raises_only_overflow `{StrToFloat}
    (gps_info : gmap key value) (e : exn) :
  GPSConverter.parse_exif_gps gps_info = Raise e ->
  e = Exn OverflowError "int too large to convert to float".
Proof.
  rewrite parse_exif_gps_fields. cbv zeta.
  destruct (negb (forallb truthy _)); [discriminate|].
  destruct (GPSConverter._dms_to_decimal
              (GPSConverter.get2 gps_info "GPSLatitude" 2) _)
    as [latitude|e1] eqn:E1; cbn [bind try_except].
  - destruct (GPSConverter._dms_to_decimal
                (GPSConverter.get2 gps_info "GPSLongitude" 4) _)
      as [longitude|e2] eqn:E2; cbn [bind try_except].
    + destruct latitude, longitude; try discriminate.
      destruct (negb _ || negb _)%bool; [discriminate|].
      destruct (_ && _)%bool; discriminate.
    + apply dms_to_decimal_raises in E2. subst e2.
      cbn. intros [= <-]. reflexivity.
  - apply dms_to_decimal_raises in E1. subst e1.
    cbn. intros [= <-]. reflexivity.
Qed.

(** A latitude of 10^400 degrees, as an integer. *)
Lemma parse_exif_gps_raises_only_overflow_witness :
  @GPSConverter.parse_exif_gps Disk.no_text
    (<[KStr "GPSLatitude" := PyList [PyInt (10 ^ 400); PyInt 0; PyInt 0]]>
       Disk.pittsburgh)
  = Raise (Exn OverflowError "int too large to convert to float").
Proof.
  destruct (@GPSConverter.parse_exif_gps Disk.no_text
              (<[KStr "GPSLatitude" := PyList [PyInt (10 ^ 400); PyInt 0; PyInt 0]]>
                 Disk.pittsburgh)) as [r|e] eqn:E.
  - vm_compute in E. discriminate E.
  - f_equal.
    exact (@parse_exif_gps_raises_only_overflow Disk.no_text _ e E).
Defined.

(** X2: the result of [parse_exif_gps] depends only on what the
    dictionary holds under the names and the tag numbers of the four
    fields: two dictionaries that agree on those eight keys decode alike. *)
Theorem parse_exif_gps_reads_four_fields `{StrToFloat}
    (g g' : gmap key value) :
  (forall k, k ∈ GPSFields.keys -> g !! k = g' !! k) ->
  GPSConverter.parse_exif_gps g = GPSConverter.parse_exif_gps g'.
Proof.
  intros Hk. rewrite !parse_exif_gps_fields.
  rewrite (get2_ext g g' "GPSLatitudeRef" 1),
    (get2_ext g g' "GPSLatitude" 2),
    (get2_ext g g' "GPSLongitudeRef" 3),
    (get2_ext g g' "GPSLongitude" 4);
    first [reflexivity
          | apply Hk, (bool_decide_unpack _); vm_compute; exact I].
Qed.

Lemma parse_exif_gps_reads_four_fields_witness :
  @GPSConverter.parse_exif_gps Disk.no_text
    (<[KStr "GPSAltitude" := PyRational 372]> Disk.pittsburgh)
  = @GPSConverter.parse_exif_gps Disk.no_text Disk.pittsburgh.
Proof.
  apply (@parse_exif_gps_reads_four_fields Disk.no_text).
  intros k Hk. apply lookup_insert_ne. intros <-.
  assert (KStr "GPSAltitude" ∉ GPSFields.keys) as Hnot
    by (apply (bool_decide_unpack _); vm_compute; exact I).
  exact (Hnot Hk).
Defined.

(** X3: when one of the four fields is missing under its name and under
    its number, or is there with a value that counts as false (None, empty
    text, an empty list, zero), [parse_exif_gps] returns [None]. *)
Theorem parse_exif_gps_missing_field `{StrToFloat}
    (gps_info : gmap key value) (name : string) (number : Z) :
  (name, number) ∈ GPSFields.fields ->
  truthy (GPSConverter.get2 gps_info name number) = false ->
  GPSConverter.parse_exif_gps gps_info = Ok None.
Proof.
  intros Hin Hfalse. rewrite parse_exif_gps_fields. cbv zeta.
  assert (forallb truthy
            [GPSConverter.get2 gps_info "GPSLatitudeRef" 1;
             GPSConverter.get2 gps_info "GPSLatitude" 2;
             GPSConverter.get2 gps_info "GPSLongitudeRef" 3;
             GPSConverter.get2 gps_info "GPSLongitude" 4] = false) as ->;
    [|reflexivity].
  unfold GPSFields.fields in Hin. cbn [forallb].
  repeat (apply elem_of_cons in Hin as [[= -> ->] | Hin];
          [rewrite Hfalse, ?andb_false_r; reflexivity|]).
  inversion Hin.
Qed.

Lemma parse_exif_gps_missing_field_witness :
  @GPSConverter.parse_exif_gps Disk.no_text
    (delete (KStr "GPSLongitudeRef") Disk.pittsburgh)
  = Ok None.
Proof.
  apply (@parse_exif_gps_missing_field Disk.no_text _ "GPSLongitudeRef" 3).
  - apply (bool_decide_unpack _). vm_compute. exact I.
  - vm_compute. reflexivity.
Defined.

(** X4: the sign is taken from a text reference only: with a reference
    that is not a [str] (the bytes b'S' that piexif stores, a number,
    None), [_dms_to_decimal] never negates, and returns what it returns
    for 'N'. *)
Theorem dms_to_decimal_sign_needs_text `{StrToFloat}
    (dms_data ref : value) :
  (forall s, ref <> PyStr s) ->
  GPSConverter._dms_to_decimal dms_data ref
  = GPSConverter._dms_to_decimal dms_data (PyStr "N").
Proof.
  intros Href. unfold GPSConverter._dms_to_decimal,
    GPSConverter.dms_to_decimal_body.
  assert (GPSConverter.ref_is_south_or_west ref = false) as ->.
  { destruct ref; try reflexivity. now destruct (Href s). }
  reflexivity.
Qed.

Lemma dms_to_decimal_sign_needs_text_witness :
  @GPSConverter._dms_to_decimal Disk.no_text
    (PyList [PyInt 33; PyInt 52; PyFloat 4.5]) (PyBytes "S")
  = Ok (Some (33 + 52 / 60 + 4.5 / 3600)%float).
Proof.
  rewrite (@dms_to_decimal_sign_needs_text Disk.no_text
             (PyList [PyInt 33; PyInt 52; PyFloat 4.5]) (PyBytes "S"))
    by discriminate.
  vm_compute. reflexivity.
Defined.

(** ** Floats that are not numbers *)

Lemma SFcompare_refl (f : spec_float) :
  f <> S754_nan -> SFcompare f f = Some Eq.
Proof.
  destruct f as [s|s| |s m e]; intros Hf; try congruence.
  - destruct s; reflexivity.
  - destruct s; reflexivity.
  - cbn [SFcompare]. rewrite Z.compare_refl.
    change (PosDef.Pos.compare_cont Eq m m) with (Pos.compare m m).
    rewrite Pos.compare_refl. destruct s; reflexivity.
Qed.

(** [x != x] holds of NaN alone. *)
Lemma not_self_equal_nan (x : PrimFloat.float) :
  (x =? x)%float = false -> Prim2SF x = S754_nan.
Proof.
  rewrite FloatAxioms.eqb_spec. unfold SFeqb. intros Hx.
  destruct (Prim2SF x) as [s|s| |s m e] eqn:E; try reflexivity;
    rewrite SFcompare_refl in Hx by discriminate; discriminate Hx.
Qed.

(** Every comparison with NaN is false. *)
Lemma leb_nan_r (x y : PrimFloat.float) :
  Prim2SF y = S754_nan -> (x <=? y)%float = false.
Proof.
  intros Hy. rewrite FloatAxioms.leb_spec, Hy. unfold SFleb.
  destruct (Prim2SF x); reflexivity.
Qed.

Lemma leb_nan_l (x y : PrimFloat.float) :
  Prim2SF x = S754_nan -> (x <=? y)%float = false.
Proof. intros Hx. rewrite FloatAxioms.leb_spec, Hx. reflexivity. Qed.

(** ** The geohash: prefixes, and coordinates that are not numbers *)

Section GeohashMore.
Import GPSConverter.
Variables latitude longitude : PrimFloat.float.

Local Notation symbols := (GPSConverter.symbols latitude longitude).

(** More symbols extend the text. *)
Lemma symbols_extend count more : forall ev lar lor,
  exists t, symbols (count + more) ev lar lor = symbols count ev lar lor ++ t.
Proof.
  induction count as [|count IH]; intros ev lar lor.
  - eexists. reflexivity.
  - cbn [Nat.add]. rewrite !symbols_succ.
    destruct (IH (negb ev)
                (fst (ranges_after 5 ev latitude longitude lar lor))
                (snd (ranges_after 5 ev latitude longitude lar lor)))
      as [t Ht].
    exists t. now rewrite Ht, append_cons.
Qed.

Hypothesis Hlat : Prim2SF latitude = S754_nan.
Hypothesis Hlon : Prim2SF longitude = S754_nan.

Lemma bisect_nan_lat r : bisect latitude r = (false, (fst r, ((fst r + snd r) / 2)%float)).
Proof. unfold bisect. now rewrite leb_nan_r. Qed.

Lemma bisect_nan_lon r : bisect longitude r = (false, (fst r, ((fst r + snd r) / 2)%float)).
Proof. unfold bisect. now rewrite leb_nan_r. Qed.

Lemma interleaved_bits_nan n : forall ev lar lor,
  interleaved_bits n ev latitude longitude lar lor = repeat false n.
Proof.
  induction n as [|n IH]; intros ev lar lor; [reflexivity|].
  cbn [interleaved_bits repeat]. destruct ev.
  - rewrite bisect_nan_lon. now rewrite IH.
  - rewrite bisect_nan_lat. now rewrite IH.
Qed.

Lemma symbols_nan count : forall ev lar lor,
  symbols count ev lar lor = GPSFormats.zeros count.
Proof.
  induction count as [|count IH]; intros ev lar lor; [reflexivity|].
  rewrite symbols_succ, IH, interleaved_bits_nan. reflexivity.
Qed.

End GeohashMore.

(** X5: a geohash of lower precision is the beginning of the geohash of
    the same point at a higher precision. *)
Theorem to_geohash_prefix
    (latitude longitude : PrimFloat.float) (p q : Z) :
  p <= q ->
  exists s t : string,
    GPSConverter.to_geohash latitude longitude p = Some (Ok s)
    /\ GPSConverter.to_geohash latitude longitude q = Some (Ok (s ++ t)).
Proof.
  intros Hpq. unfold GPSConverter.to_geohash.
  replace (5 * Z.to_nat p + 1)%nat with (5 * Z.to_nat p + 1 + 0)%nat by lia.
  replace (5 * Z.to_nat q + 1)%nat with (5 * Z.to_nat q + 1 + 0)%nat by lia.
  rewrite !to_geohash_fuel_enough.
  replace (Z.to_nat q) with (Z.to_nat p + (Z.to_nat q - Z.to_nat p))%nat by lia.
  destruct (symbols_extend latitude longitude (Z.to_nat p)
              (Z.to_nat q - Z.to_nat p) true
              ((-90)%float, 90%float) ((-180)%float, 180%float)) as [t Ht].
  eexists _, t. split; [reflexivity|]. now rewrite Ht.
Qed.

Lemma to_geohash_prefix_witness :
  exists s t : string,
    GPSConverter.to_geohash 57.64911%float 10.40744%float 5 = Some (Ok s)
    /\ GPSConverter.to_geohash 57.64911%float 10.40744%float 11
       = Some (Ok (s ++ t)).
Proof.
  apply (to_geohash_prefix 57.64911%float 10.40744%float 5 11). lia.
Defined.

Example geohash_jutland_prefix :
  GPSConverter.to_geohash 57.64911%float 10.40744%float 5 = Some (Ok "u4pru")
  /\ GPSConverter.to_geohash 57.64911%float 10.40744%float 11
     = Some (Ok ("u4pru" ++ "ydqqvj")).
Proof. vm_compute. auto. Qed.

(** X6: [to_geohash] does not reject coordinates that are not numbers:
    for a latitude and a longitude that are both NaN (the floats that differ
    from themselves) every comparison fails, every bit is 0, and the result
    is the text of [precision] characters '0'. *)
Theorem to_geohash_nan
    (latitude longitude : PrimFloat.float) (precision : Z) :
  (latitude =? latitude)%float = false ->
  (longitude =? longitude)%float = false ->
  GPSConverter.to_geohash latitude longitude precision
  = Some (Ok (GPSFormats.zeros (Z.to_nat precision))).
Proof.
  intros Hlat Hlon. apply not_self_equal_nan in Hlat, Hlon.
  unfold GPSConverter.to_geohash.
  replace (5 * Z.to_nat precision + 1)%nat
    with (5 * Z.to_nat precision + 1 + 0)%nat by lia.
  rewrite to_geohash_fuel_enough.
  now rewrite symbols_nan.
Qed.

Lemma to_geohash_nan_witness :
  GPSConverter.to_geohash nan nan 12 = Some (Ok "000000000000").
Proof.
  apply (to_geohash_nan nan nan 12); reflexivity.
Defined.

(** ** The output formats *)

Section Formats.
Import GPSFormats.

Lemma abs_opp (x : PrimFloat.float) : abs (- x)%float = abs x.
Proof.
  apply Prim2SF_inj. rewrite !abs_spec, opp_spec.
  destruct (Prim2SF x); reflexivity.
Qed.

(** A positive number is at least zero, and its opposite is not. *)
Lemma leb_0_positive (x : PrimFloat.float) :
  (0 <? x)%float = true ->
  (0 <=? x)%float = true /\ (0 <=? - x)%float = false.
Proof.
  rewrite FloatAxioms.ltb_spec, !FloatAxioms.leb_spec, opp_spec.
  change (Prim2SF 0) with (S754_zero false).
  unfold SFltb, SFleb.
  destruct (Prim2SF x) as [s|s| |s m e]; cbn; try discriminate;
    destruct s; try discriminate; auto.
Qed.

(** The digits of a coordinate are those of its absolute value: only the
    letter tells a coordinate from its opposite. *)
Lemma decimal_to_dms_opp x is_latitude s :
  decimal_to_dms x is_latitude = Ok s ->
  exists digits,
    s = digits ++ ref_letter x is_latitude
    /\ decimal_to_dms (- x)%float is_latitude
       = Ok (digits ++ ref_letter (- x)%float is_latitude).
Proof.
  unfold decimal_to_dms. rewrite abs_opp.
  destruct (int_of_float (abs x)) as [degrees|e]; [|discriminate].
  cbn [bind].
  destruct (float_of_int degrees) as [degrees_float|e]; [|discriminate].
  cbn [bind].
  destruct (int_of_float _) as [minutes|e]; [|discriminate].
  cbn [bind].
  destruct (float_of_int minutes) as [minutes_as_float|e]; [|discriminate].
  cbn [bind]. intros [= <-].
  eexists (str_of_int degrees ++ "°" ++ str_of_int minutes ++ "'"
           ++ format_fixed 2 _ ++ double_quote).
  rewrite !append_assoc. split; reflexivity.
Qed.

Lemma decimal_to_dmm_opp x is_latitude s :
  decimal_to_dmm x is_latitude = Ok s ->
  exists digits,
    s = digits ++ ref_letter x is_latitude
    /\ decimal_to_dmm (- x)%float is_latitude
       = Ok (digits ++ ref_letter (- x)%float is_latitude).
Proof.
  unfold decimal_to_dmm. rewrite abs_opp.
  destruct (int_of_float (abs x)) as [degrees|e]; [|discriminate].
  cbn [bind].
  destruct (float_of_int degrees) as [degrees_float|e]; [|discriminate].
  cbn [bind]. intros [= <-].
  eexists (str_of_int degrees ++ "°" ++ format_fixed 4 _ ++ "'").
  rewrite !append_assoc. split; reflexivity.
Qed.

Lemma ref_letter_positive x is_latitude :
  (0 <? x)%float = true ->
  ref_letter x is_latitude = (if is_latitude then "N" else "E")
  /\ ref_letter (- x)%float is_latitude = (if is_latitude then "S" else "W").
Proof.
  intros Hx. apply leb_0_positive in Hx as [H1 H2].
  unfold ref_letter. rewrite H1, H2. destruct is_latitude; auto.
Qed.

(** The two coordinates of a pair, each with its digits and its letter. *)
Lemma pair_mirror (f : PrimFloat.float -> bool -> result string)
    (latitude longitude : PrimFloat.float) (s : string) :
  (forall x il t, f x il = Ok t ->
     exists digits, t = digits ++ ref_letter x il
                    /\ f (- x)%float il = Ok (digits ++ ref_letter (- x)%float il)) ->
  (0 <? latitude)%float = true ->
  (0 <? longitude)%float = true ->
  bind (f latitude true) (fun a =>
    bind (f longitude false) (fun b => Ok (a ++ ", " ++ b))) = Ok s ->
  exists a b : string,
    let pair (lat lon : PrimFloat.float) :=
      bind (f lat true) (fun a =>
        bind (f lon false) (fun b => Ok (a ++ ", " ++ b))) in
    s = (a ++ "N") ++ ", " ++ (b ++ "E")
    /\ pair (- latitude)%float longitude = Ok ((a ++ "S") ++ ", " ++ (b ++ "E"))
    /\ pair latitude (- longitude)%float = Ok ((a ++ "N") ++ ", " ++ (b ++ "W"))
    /\ pair (- latitude)%float (- longitude)%float
       = Ok ((a ++ "S") ++ ", " ++ (b ++ "W")).
Proof.
  intros Hf Hlat Hlon.
  destruct (ref_letter_positive _ true Hlat) as [Hn Hs].
  destruct (ref_letter_positive _ false Hlon) as [He Hw].
  destruct (f latitude true) as [a|e] eqn:Ea; [|discriminate].
  destruct (f longitude false) as [b|e] eqn:Eb; [|discriminate].
  cbn [bind]. intros [= <-].
  destruct (Hf _ _ _ Ea) as (da & -> & Ea').
  destruct (Hf _ _ _ Eb) as (db & -> & Eb').
  exists da, db. cbv zeta.
  rewrite Ea, Eb, Ea', Eb', Hn, Hs, He, Hw. cbn [bind]. auto.
Qed.

(** What [int(x)] and [float(n)] raise. *)
Lemma int_of_float_raises x e :
  int_of_float x = Raise e ->
  exc_cls e = ValueError \/ exc_cls e = OverflowError.
Proof.
  unfold int_of_float. destruct (Prim2SF x); try discriminate;
    intros [= <-]; auto.
Qed.

Lemma float_of_int_raises z e :
  float_of_int z = Raise e ->
  exc_cls e = ValueError \/ exc_cls e = OverflowError.
Proof.
  unfold float_of_int. destruct (PrimFloat.is_infinity _); [|discriminate].
  intros [= <-]; auto.
Qed.

Lemma decimal_to_dms_raises x il e :
  decimal_to_dms x il = Raise e ->
  exc_cls e = ValueError \/ exc_cls e = OverflowError.
Proof.
  unfold decimal_to_dms.
  destruct (int_of_float (abs x)) as [degrees|e1] eqn:E1; cbn [bind];
    [|intros [= <-]; eapply int_of_float_raises, E1].
  destruct (float_of_int degrees) as [df|e2] eqn:E2; cbn [bind];
    [|intros [= <-]; eapply float_of_int_raises, E2].
  destruct (int_of_float ((abs x - df) * 60)%float) as [minutes|e3] eqn:E3;
    cbn [bind]; [|intros [= <-]; eapply int_of_float_raises, E3].
  destruct (float_of_int minutes) as [mf|e4] eqn:E4; cbn [bind];
    [discriminate|intros [= <-]; eapply float_of_int_raises, E4].
Qed.

(** NaN and the infinities, from the tests of the library. *)
Lemma not_finite_spec (x : PrimFloat.float) :
  (is_nan x || is_infinity x)%bool = true ->
  Prim2SF (abs x) = S754_nan \/ Prim2SF (abs x) = S754_infinity false.
Proof.
  unfold is_nan, is_infinity. intros Hx. apply orb_prop in Hx as [Hx | Hx].
  - apply negb_true_iff, not_self_equal_nan in Hx.
    left. now rewrite abs_spec, Hx.
  - rewrite FloatAxioms.eqb_spec in Hx. unfold SFeqb in Hx.
    change (Prim2SF infinity) with (S754_infinity false) in Hx.
    right. rewrite abs_spec in *.
    destruct (Prim2SF x) as [s|s| |s m e]; try discriminate Hx.
    reflexivity.
Qed.

Lemma int_of_float_not_finite (x : PrimFloat.float) :
  (is_nan x || is_infinity x)%bool = true ->
  exists e, int_of_float (abs x) = Raise e.
Proof.
  intros Hx. unfold int_of_float.
  destruct (not_finite_spec x Hx) as [-> | ->]; eexists; reflexivity.
Qed.

Lemma decimal_to_dms_not_finite x il :
  (is_nan x || is_infinity x)%bool = true ->
  exists e, decimal_to_dms x il = Raise e.
Proof.
  intros Hx. destruct (int_of_float_not_finite x Hx) as [e He].
  exists e. unfold decimal_to_dms. now rewrite He.
Qed.

Lemma to_dms_not_finite latitude longitude :
  (is_nan latitude || is_infinity latitude
   || (is_nan longitude || is_infinity longitude))%bool = true ->
  exists e, to_dms latitude longitude = Raise e
            /\ (exc_cls e = ValueError \/ exc_cls e = OverflowError).
Proof.
  intros Hx. unfold to_dms.
  destruct (decimal_to_dms latitude true) as [a|e] eqn:Ea; cbn [bind].
  - apply orb_prop in Hx as [Hx | Hx].
    + destruct (decimal_to_dms_not_finite latitude true Hx) as [e He].
      congruence.
    + destruct (decimal_to_dms_not_finite longitude false Hx) as [e He].
      rewrite He. cbn [bind]. exists e. split; [reflexivity|].
      eapply decimal_to_dms_raises, He.
  - exists e. split; [reflexivity|]. eapply decimal_to_dms_raises, Ea.
Qed.

End Formats.

(** X7: [to_dms] and [to_dmm] print the absolute value of each coordinate
    and carry the sign in the letter alone: for a positive latitude and a
    positive longitude whose text is a ++ "N, " ++ b ++ "E", the opposite
    latitude prints the same a with "S" and the opposite longitude the same
    b with "W". *)
Theorem to_dms_sign_is_the_letter
    (latitude longitude : PrimFloat.float) (dms dmm : string) :
  (0 <? latitude)%float = true ->
  (0 <? longitude)%float = true ->
  GPSFormats.to_dms latitude longitude = Ok dms ->
  GPSFormats.to_dmm latitude longitude = Ok dmm ->
  (exists a b : string,
      dms = (a ++ "N") ++ ", " ++ (b ++ "E")
      /\ GPSFormats.to_dms (- latitude)%float longitude
         = Ok ((a ++ "S") ++ ", " ++ (b ++ "E"))
      /\ GPSFormats.to_dms latitude (- longitude)%float
         = Ok ((a ++ "N") ++ ", " ++ (b ++ "W"))
      /\ GPSFormats.to_dms (- latitude)%float (- longitude)%float
         = Ok ((a ++ "S") ++ ", " ++ (b ++ "W")))
  /\ (exists a b : string,
        dmm = (a ++ "N") ++ ", " ++ (b ++ "E")
        /\ GPSFormats.to_dmm (- latitude)%float longitude
           = Ok ((a ++ "S") ++ ", " ++ (b ++ "E"))
        /\ GPSFormats.to_dmm latitude (- longitude)%float
           = Ok ((a ++ "N") ++ ", " ++ (b ++ "W"))
        /\ GPSFormats.to_dmm (- latitude)%float (- longitude)%float
           = Ok ((a ++ "S") ++ ", " ++ (b ++ "W"))).
Proof.
  intros Hlat Hlon Hdms Hdmm. split.
  - exact (pair_mirror GPSFormats.decimal_to_dms latitude longitude dms
             decimal_to_dms_opp Hlat Hlon Hdms).
  - exact (pair_mirror GPSFormats.decimal_to_dmm latitude longitude dmm
             decimal_to_dmm_opp Hlat Hlon Hdmm).
Qed.

Lemma to_dms_sign_is_the_letter_witness :
  GPSFormats.to_dms (-40.446111)%float (-79.982222)%float
  = Ok ("40°26'46.00" ++ GPSFormats.double_quote ++ "S, 79°58'56.00"
        ++ GPSFormats.double_quote ++ "W")
  /\ GPSFormats.to_dmm (-40.446111)%float (-79.982222)%float
     = Ok "40°26.7667'S, 79°58.9333'W".
Proof.
  destruct (to_dms_sign_is_the_letter 40.446111%float 79.982222%float
              ("40°26'46.00" ++ GPSFormats.double_quote ++ "N, 79°58'56.00"
               ++ GPSFormats.double_quote ++ "E")
              "40°26.7667'N, 79°58.9333'E"
              eq_refl eq_refl eq_refl eq_refl)
    as [(a & b & _ & _ & _ & _) (a' & b' & _ & _ & _ & _)].
  split; vm_compute; reflexivity.
Defined.

(** X8: [get_all_formats] needs numbers: when the latitude or the
    longitude is NaN or infinite, [to_dms] raises ([int] of the coordinate:
    ValueError or OverflowError) and [get_all_formats] raises the same
    exception; no dictionary is returned. *)
Theorem get_all_formats_needs_finite
    (latitude longitude : PrimFloat.float) :
  (is_nan latitude || is_infinity latitude
   || (is_nan longitude || is_infinity longitude))%bool = true ->
  exists e,
    GPSFormats.to_dms latitude longitude = Raise e
    /\ GPSFormats.get_all_formats latitude longitude = Some (Raise e)
    /\ (exc_cls e = ValueError \/ exc_cls e = OverflowError).
Proof.
  intros Hx. destruct (to_dms_not_finite latitude longitude Hx) as (e & He & Hc).
  exists e. split; [exact He|]. split; [|exact Hc].
  unfold GPSFormats.get_all_formats. now rewrite He.
Qed.

Lemma get_all_formats_needs_finite_witness :
  exists e,
    GPSFormats.to_dms 40.446111%float infinity = Raise e
    /\ GPSFormats.get_all_formats 40.446111%float infinity = Some (Raise e)
    /\ (exc_cls e = ValueError \/ exc_cls e = OverflowError).
Proof.
  apply (get_all_formats_needs_finite 40.446111%float infinity). reflexivity.
Defined.

Example get_all_formats_pittsburgh :
  (fun d => (d !! "decimal_degrees", d !! "utm", d !! "geohash",
             d !! "google_maps_url"))
  <$> (GPSFormats.get_all_formats 40.446111%float (-79.982222)%float
       ≫= (fun r => match r with Ok d => Some d | Raise _ => None end))
  = Some (Some "40.446111, -79.982222",
          Some "Zone 17N (Approximate conversion - use specialized library for precise UTM)",
          Some "dppn5fyxxjs9",
          Some "https://maps.google.com/maps?q=40.446111,-79.982222").
Proof. vm_compute. reflexivity. Qed.

(** ** The loops of [extract] and [edit] *)

Section Loops.
Import EXIFProcessor EXIFItems.
Context `{Libs}.

(** The keys of the dictionary built are those it had and the tag keys
    of the items. *)
Lemma exif_data_of_keys_from items : forall acc d,
  exif_data_of items acc = Ok d ->
  forall k, is_Some (d !! k) <-> is_Some (acc !! k) \/ In k (tag_keys items).
Proof.
  induction items as [|[tag_id value] items IH]; intros acc d Hd k.
  - injection Hd as <-. cbn. tauto.
  - cbn [exif_data_of] in Hd. cbn [tag_keys map fst In].
    fold (tag_keys items).
    case_bool_decide as Htag.
    + destruct value as [v|gps_items]; [discriminate Hd|].
      rewrite (IH _ _ Hd k), lookup_insert_is_Some'. tauto.
    + rewrite (IH _ _ Hd k), lookup_insert_is_Some'. tauto.
Qed.

(** What sits under "GPSInfo" is a dictionary. *)
Lemma exif_data_of_gps_nested_from items : forall acc d,
  exif_data_of items acc = Ok d ->
  (forall v, acc !! KStr "GPSInfo" = Some v -> exists g, v = Nested g) ->
  forall v, d !! KStr "GPSInfo" = Some v -> exists g, v = Nested g.
Proof.
  induction items as [|[tag_id value] items IH]; intros acc d Hd Hacc.
  - injection Hd as <-. exact Hacc.
  - cbn [exif_data_of] in Hd. case_bool_decide as Htag.
    + destruct value as [v|gps_items]; [discriminate Hd|].
      apply (IH _ _ Hd). intros v. rewrite Htag, lookup_insert_eq.
      intros [= <-]. eauto.
    + apply (IH _ _ Hd). intros v.
      rewrite lookup_insert_ne by exact Htag. apply Hacc.
Qed.

(** The loop fails exactly on a GPSInfo item that is not a dictionary,
    with the error of the first one. *)
Lemma exif_data_of_malformed items : forall acc,
  match first_malformed_gps items with
  | Some v => exif_data_of items acc = Raise (no_attribute v "items")
  | None => exists d, exif_data_of items acc = Ok d
  end.
Proof.
  induction items as [|[tag_id value] items IH]; intros acc.
  - eexists. reflexivity.
  - cbn [exif_data_of first_malformed_gps].
    case_bool_decide as Htag; destruct value as [v|gps_items];
      first [reflexivity | apply IH].
Qed.

(** Every step of the merge writes the key of its item and no other. *)
Lemma merge_entries items : forall exif_dict merged,
  merge items exif_dict = Ok merged ->
  (forall k, ~ In k (map fst items) -> merged !! k = exif_dict !! k)
  /\ (forall k, is_Some (exif_dict !! k) -> is_Some (merged !! k))
  /\ (forall k, In k (map fst items) -> is_Some (merged !! k)).
Proof.
  induction items as [|[key value] items IH]; intros exif_dict merged Hm.
  - injection Hm as <-. cbn. tauto.
  - cbn [merge] in Hm. cbn [map fst In].
    assert (forall x : exif_value,
              merge items (<[key := x]> exif_dict) = Ok merged ->
              (forall k, ~ (key = k \/ In k (map fst items)) ->
                 merged !! k = exif_dict !! k)
              /\ (forall k, is_Some (exif_dict !! k) -> is_Some (merged !! k))
              /\ (forall k, key = k \/ In k (map fst items) ->
                    is_Some (merged !! k))) as Hstep.
    { intros x Hx. destruct (IH _ _ Hx) as (Hother & Hkept & Hnew).
      split; [|split].
      - intros k Hk. rewrite Hother by tauto.
        apply lookup_insert_ne. tauto.
      - intros k Hk. apply Hkept, lookup_insert_is_Some'. now right.
      - intros k [<- | Hk]; [|now apply Hnew].
        apply Hkept, lookup_insert_is_Some'. now left. }
    destruct (exif_dict !! key) as [[v|d]|] eqn:Ek.
    + discriminate Hm.
    + destruct value as [v|d'].
      * destruct (dict_update_plain d v) as [d''|e]; [|discriminate Hm].
        cbn [bind] in Hm. eapply Hstep, Hm.
      * eapply Hstep, Hm.
    + eapply Hstep, Hm.
Qed.

End Loops.

(** X9: the dictionary that the loop of [extract] builds from the items
    of an EXIF table has as keys exactly the tag keys of the items (the
    name [TAGS] gives to the tag id, or else the id itself), and what it
    holds under "GPSInfo" is always a dictionary. *)
Theorem extract_keys_are_tag_keys `{Libs}
    (items : list (Z * raw_value)) (exif_data : gmap key exif_value) :
  EXIFProcessor.exif_data_of items ∅ = Ok exif_data ->
  (forall k, is_Some (exif_data !! k) <-> In k (EXIFItems.tag_keys items))
  /\ (forall v, exif_data !! KStr "GPSInfo" = Some v -> exists g, v = Nested g).
Proof.
  intros Hd. split.
  - intros k. rewrite (exif_data_of_keys_from _ _ _ Hd k), lookup_empty.
    split; [intros [[x Hx] | Hk]; [discriminate Hx | exact Hk] | auto].
  - apply (exif_data_of_gps_nested_from _ _ _ Hd).
    intros v. rewrite lookup_empty. discriminate.
Qed.

Lemma extract_keys_are_tag_keys_witness :
  let items := [(271, RawValue (PyStr "Canon"));
                (34853, RawDict [(1, PyStr "N"); (5, PyInt 0)]);
                (40961, RawValue (PyInt 1))] in
  exists exif_data,
    @EXIFProcessor.exif_data_of Disk.disk_libs items ∅ = Ok exif_data
    /\ (forall k, is_Some (exif_data !! k)
                  <-> In k [KStr "Make"; KStr "GPSInfo"; KInt 40961]).
Proof.
  cbv zeta.
  destruct (@EXIFProcessor.exif_data_of Disk.disk_libs
              [(271, RawValue (PyStr "Canon"));
               (34853, RawDict [(1, PyStr "N"); (5, PyInt 0)]);
               (40961, RawValue (PyInt 1))] ∅) as [d|e] eqn:E.
  - exists d. split; [reflexivity|].
    exact (proj1 (@extract_keys_are_tag_keys Disk.disk_libs _ d E)).
  - apply (f_equal (fun r => match r with Ok _ => false | Raise _ => true end))
      in E.
    vm_compute in E. discriminate E.
Defined.

(** X10: the loop of [extract] fails exactly when the table holds a
    GPSInfo item whose value is not a dictionary, and then with the
    AttributeError that [value.items()] raises on the first such value,
    whose text names the type of the value: one such item costs the whole
    extraction. *)
Theorem extract_fails_on_malformed_gps `{Libs}
    (items : list (Z * raw_value)) :
  (forall v : value,
      EXIFItems.first_malformed_gps items = Some v ->
      EXIFProcessor.exif_data_of items ∅
      = Raise (Exn AttributeError
                 ("'" ++ type_name v ++ "' object has no attribute 'items'")))
  /\ (EXIFItems.first_malformed_gps items = None ->
      exists exif_data, EXIFProcessor.exif_data_of items ∅ = Ok exif_data).
Proof.
  pose proof (exif_data_of_malformed items ∅) as Hm.
  destruct (EXIFItems.first_malformed_gps items) as [v|].
  - split; [|discriminate]. intros v' [= <-]. exact Hm.
  - split; [discriminate|]. intros _. exact Hm.
Qed.

Lemma extract_fails_on_malformed_gps_witness :
  @EXIFProcessor.exif_data_of Disk.disk_libs
    [(271, RawValue (PyStr "Canon")); (34853, RawValue (PyInt 2048));
     (34853, RawValue PyNone)] ∅
  = Raise (Exn AttributeError "'int' object has no attribute 'items'").
Proof.
  apply (proj1 (@extract_fails_on_malformed_gps Disk.disk_libs _)
           (PyInt 2048)).
  vm_compute. reflexivity.
Defined.

(** X11: the loop of [edit] that merges the edited data never removes an
    entry of the loaded dictionary, leaves every entry whose key is not
    edited exactly as it was loaded, and leaves an entry under every edited
    key. *)
Theorem merge_keeps_loaded_entries `{Libs}
    (items : list (key * exif_value)) (exif_dict merged : gmap key exif_value) :
  EXIFProcessor.merge items exif_dict = Ok merged ->
  (forall k, ~ In k (map fst items) -> merged !! k = exif_dict !! k)
  /\ (forall k, is_Some (exif_dict !! k) -> is_Some (merged !! k))
  /\ (forall k, In k (map fst items) -> is_Some (merged !! k)).
Proof. apply merge_entries. Qed.

Lemma merge_keeps_loaded_entries_witness :
  let loaded : gmap key exif_value :=
    <[KStr "0th" := Nested (<[KInt 271 := PyStr "Canon"]> ∅)]>
      (<[KStr "Exif" := Nested ∅]> ∅) in
  let items := [(KStr "0th", Nested (<[KInt 272 := PyStr "EOS"]> ∅));
                (KStr "Make", Plain (PyStr "Leica"))] in
  exists merged,
    @EXIFProcessor.merge Disk.disk_libs items loaded = Ok merged
    /\ merged !! KStr "Exif" = Some (Nested ∅).
Proof.
  cbv zeta.
  destruct (@EXIFProcessor.merge Disk.disk_libs
              [(KStr "0th", Nested (<[KInt 272 := PyStr "EOS"]> ∅));
               (KStr "Make", Plain (PyStr "Leica"))]
              (<[KStr "0th" := Nested (<[KInt 271 := PyStr "Canon"]> ∅)]>
                 (<[KStr "Exif" := Nested ∅]> ∅))) as [merged|e] eqn:E.
  - exists merged. split; [reflexivity|].
    rewrite (proj1 (@merge_keeps_loaded_entries Disk.disk_libs _ _ _ E)).
    + reflexivity.
    + cbn [map fst In]. intros [E' | [E' | []]]; discriminate E'.
  - apply (f_equal (fun r => match r with Ok _ => false | Raise _ => true end))
      in E.
    vm_compute in E. discriminate E.
Defined.

(** ** What an operation leaves as it was *)

(** Follows a path through the calls made, the side conditions left to
    [different]. *)
Ltac frames different :=
  repeat match goal with
  | E : copy2 ?s ?d ?w = (?r, ?w') |- context [read ?w' ?p] =>
      rewrite (copy2_frame_eq s d w r w' p E) by different
  | E : piexif_load ?a ?w = (?r, ?w') |- context [read ?w' ?p] =>
      rewrite (piexif_load_frame_eq a w r w' p E)
  | E : piexif_dump ?a ?w = (?r, ?w') |- context [read ?w' ?p] =>
      rewrite (piexif_dump_frame_eq a w r w' p E)
  | E : piexif_insert ?b ?a ?w = (?r, ?w') |- context [read ?w' ?p] =>
      rewrite (piexif_insert_frame_eq b a w r w' p E) by different
  | E : piexif_remove ?a ?w = (?r, ?w') |- context [read ?w' ?p] =>
      rewrite (piexif_remove_frame_eq a w r w' p E) by different
  end.

Section Untouched.
Import EXIFProcessor Log.
Context `{FileSystem}.

Lemma image_neq_backup (image_path : string) :
  image_path <> image_path ++ ".backup".
Proof. intros E. symmetry in E. revert E. apply backup_path_neq. Qed.

Lemma edit_before_insert image_path exif_data preserve_original w :
  ~ In (PiexifInsert image_path)
      (map ev_call (log (edit image_path exif_data preserve_original w))) ->
  read (final (edit image_path exif_data preserve_original w)) image_path
  = read w image_path.
Proof.
  unfold edit, backup_path, wrapped.
  destruct preserve_original; run_code; cbn [res log final app map ev_call];
    intros Hno;
    try (exfalso; apply Hno; cbn [In]; tauto);
    frames ltac:(apply image_neq_backup); reflexivity.
Qed.

Lemma delete_before_remove image_path preserve_original w :
  ~ In (PiexifRemove image_path)
      (map ev_call (log (delete image_path preserve_original w))) ->
  read (final (delete image_path preserve_original w)) image_path
  = read w image_path.
Proof.
  unfold delete, backup_path, wrapped.
  destruct preserve_original; run_code; cbn [res log final app map ev_call];
    intros Hno;
    try (exfalso; apply Hno; cbn [In]; tauto);
    frames ltac:(apply image_neq_backup); reflexivity.
Qed.

Lemma edit_frame image_path exif_data preserve_original w (q : string) :
  q <> image_path -> q <> image_path ++ ".backup" ->
  read (final (edit image_path exif_data preserve_original w)) q = read w q.
Proof.
  intros Hq Hb. unfold edit, backup_path, wrapped.
  destruct preserve_original; run_code; cbn [final];
    frames assumption; reflexivity.
Qed.

Lemma delete_frame image_path preserve_original w (q : string) :
  q <> image_path -> q <> image_path ++ ".backup" ->
  read (final (delete image_path preserve_original w)) q = read w q.
Proof.
  intros Hq Hb. unfold delete, backup_path, wrapped.
  destruct preserve_original; run_code; cbn [final];
    frames assumption; reflexivity.
Qed.

(** The earlier [edit_exif]: the copy comes after [piexif.load] and
    [piexif.dump] and before [piexif.insert]. *)
Lemma legacy_edit_backup image_path exif_data w :
  let o := Legacy.edit_exif image_path exif_data w in
  backup_precedes_modification image_path false (log o) = true
  /\ (forall d, res o = Ok d ->
        read (final o) (image_path ++ ".backup") = read w image_path)
  /\ (~ In (PiexifInsert image_path) (map ev_call (log o)) ->
      read (final o) image_path = read w image_path).
Proof.
  cbv zeta. unfold Legacy.edit_exif, wrapped.
  run_code; cbn [res log final app map ev_call];
    (split;
     [ cbn [backup_precedes_modification modifies ev_call succeeded ev_raised
            andb];
       repeat (first [ rewrite String.eqb_refl
                     | rewrite bool_decide_true by reflexivity
                     | rewrite bool_decide_false by discriminate ];
               cbn [andb]);
       reflexivity
     | split;
       [ intros d Hd; try discriminate Hd;
         repeat frame_step; reflexivity
       | intros Hno; try (exfalso; apply Hno; cbn [In]; tauto);
         frames ltac:(apply image_neq_backup); reflexivity ] ]).
Qed.

Lemma legacy_delete_backup image_path w :
  let o := Legacy.delete_exif image_path w in
  backup_precedes_modification image_path false (log o) = true
  /\ (forall d, res o = Ok d ->
        read (final o) (image_path ++ ".backup") = read w image_path)
  /\ (~ In (PiexifRemove image_path) (map ev_call (log o)) ->
      read (final o) image_path = read w image_path).
Proof.
  cbv zeta. unfold Legacy.delete_exif, wrapped.
  run_code; cbn [res log final app map ev_call];
    (split;
     [ cbn [backup_precedes_modification modifies ev_call succeeded ev_raised
            andb];
       repeat (first [ rewrite String.eqb_refl
                     | rewrite bool_decide_true by reflexivity
                     | rewrite bool_decide_false by discriminate ];
               cbn [andb]);
       reflexivity
     | split;
       [ intros d Hd; try discriminate Hd;
         repeat frame_step; reflexivity
       | intros Hno; try (exfalso; apply Hno; cbn [In]; tauto);
         frames ltac:(apply image_neq_backup); reflexivity ] ]).
Qed.

End Untouched.

(** X12: [edit] rewrites the image only by its last call: as long as
    [piexif.insert] has not been called on the image (the backup, the load,
    the merge or the dump failed), the image reads as before; likewise
    [delete] and [piexif.remove]. *)
Theorem image_changes_only_by_last_call `{FileSystem}
    (image_path : string) (exif_data : option (list (key * exif_value)))
    (preserve_original : bool) (w : world) :
  (~ In (PiexifInsert image_path)
       (map ev_call
          (log (EXIFProcessor.edit image_path exif_data preserve_original w))) ->
   read (final (EXIFProcessor.edit image_path exif_data preserve_original w))
     image_path
   = read w image_path)
  /\ (~ In (PiexifRemove image_path)
          (map ev_call
             (log (EXIFProcessor.delete image_path preserve_original w))) ->
      read (final (EXIFProcessor.delete image_path preserve_original w))
        image_path
      = read w image_path).
Proof. split; [apply edit_before_insert | apply delete_before_remove]. Qed.

(** An edit without data stops at the merge: the image is as it was. *)
Lemma image_changes_only_by_last_call_witness :
  @read Disk.disk_libs disk_files
    (final (@EXIFProcessor.edit Disk.disk_libs "/d/a.jpg" None true
              Disk.two_photos)) "/d/a.jpg"
  = Some (Disk.File (Some "Canon") "pixels of a").
Proof.
  rewrite (proj1 (@image_changes_only_by_last_call Disk.disk_libs disk_files
                    "/d/a.jpg" None true Disk.two_photos)).
  - reflexivity.
  - vm_compute. intros [E | [E | []]]; discriminate E.
Defined.

(** X13: [edit] and [delete] write the image and, with
    [preserve_original], its ".backup" path, and nothing else: every other
    path reads as before, whether the operation succeeds or fails. *)
Theorem operations_write_image_and_backup_only `{FileSystem}
    (image_path : string) (exif_data : option (list (key * exif_value)))
    (preserve_original : bool) (w : world) (q : string) :
  q <> image_path ->
  q <> image_path ++ ".backup" ->
  read (final (EXIFProcessor.edit image_path exif_data preserve_original w)) q
  = read w q
  /\ read (final (EXIFProcessor.delete image_path preserve_original w)) q
     = read w q.
Proof. intros Hq Hb. split; [now apply edit_frame | now apply delete_frame]. Qed.

Lemma operations_write_image_and_backup_only_witness :
  @read Disk.disk_libs disk_files
    (final (@EXIFProcessor.edit Disk.disk_libs "/d/a.jpg" (Some []) true
              Disk.two_photos)) "/d/a_modified.jpg"
  = Some (Disk.File (Some "Nikon") "pixels of b")
  /\ @read Disk.disk_libs disk_files
       (final (@EXIFProcessor.delete Disk.disk_libs "/d/a.jpg" true
                 Disk.two_photos)) "/d/a_modified.jpg"
     = Some (Disk.File (Some "Nikon") "pixels of b").
Proof.
  destruct (@operations_write_image_and_backup_only Disk.disk_libs disk_files
              "/d/a.jpg" (Some []) true Disk.two_photos "/d/a_modified.jpg")
    as [Hedit Hdelete]; [discriminate | discriminate |].
  rewrite Hedit, Hdelete. split; reflexivity.
Defined.

(** On the concrete world: an edit without data fails at the merge, after
    the backup and the load, and the image reads as before. *)
Example edit_without_data_leaves_image :
  let o := @EXIFProcessor.edit Disk.disk_libs "/d/a.jpg" None true
             Disk.two_photos in
  res o = Raise (Exn PlainException
                   "Failed to edit EXIF data: 'NoneType' object has no attribute 'items'")
  /\ map ev_call (log o)
     = [Copy2 "/d/a.jpg" "/d/a.jpg.backup"; PiexifLoad "/d/a.jpg"]
  /\ final o !! "/d/a.jpg" = Disk.two_photos !! "/d/a.jpg".
Proof. vm_compute. auto. Qed.

(** X14: the earlier [edit_exif] and [delete_exif] of UI/UI.py: a
    successful copy of the image to its ".backup" path comes before every
    call that rewrites the image; when the operation succeeds the backup
    holds the image as it was; the image reads as before as long as
    [piexif.insert] (or [piexif.remove]) has not been called; the earlier
    [delete_exif] is [delete] with [preserve_original] true, and the
    earlier [extract_exif] is [extract]. *)
Theorem legacy_backup_discipline `{FileSystem}
    (image_path : string) (exif_data : option (list (key * exif_value)))
    (w : world) :
  (let o := Legacy.edit_exif image_path exif_data w in
   Log.backup_precedes_modification image_path false (log o) = true
   /\ (forall d, res o = Ok d ->
         read (final o) (image_path ++ ".backup") = read w image_path)
   /\ (~ In (PiexifInsert image_path) (map ev_call (log o)) ->
       read (final o) image_path = read w image_path))
  /\ (let o := Legacy.delete_exif image_path w in
      Log.backup_precedes_modification image_path false (log o) = true
      /\ (forall d, res o = Ok d ->
            read (final o) (image_path ++ ".backup") = read w image_path)
      /\ (~ In (PiexifRemove image_path) (map ev_call (log o)) ->
          read (final o) image_path = read w image_path))
  /\ Legacy.delete_exif image_path w = EXIFProcessor.delete image_path true w
  /\ LegacyThreads.extract_exif image_path w
     = EXIFProcessor.extract image_path w.
Proof.
  split; [apply legacy_edit_backup|].
  split; [apply legacy_delete_backup|]. split; reflexivity.
Qed.

Lemma legacy_backup_discipline_witness :
  @read Disk.disk_libs disk_files
    (final (@Legacy.delete_exif Disk.disk_libs "/d/a.jpg" Disk.two_photos))
    "/d/a.jpg.backup"
  = Some (Disk.File (Some "Canon") "pixels of a").
Proof.
  destruct (@legacy_backup_discipline Disk.disk_libs disk_files "/d/a.jpg"
              None Disk.two_photos) as (_ & (_ & Hbackup & _) & _).
  cbv zeta in Hbackup.
  refine (eq_trans
            (Hbackup (EXIFProcessor.success "EXIF data deleted successfully") _)
            _);
    reflexivity.
Defined.

(** ** The batch: operations, data and paths *)

Section BatchMore.
Import EXIFProcessor BatchProcessor Log.
Context `{Libs}.

(** With an operation that is neither 'delete' nor 'edit' and without
    [preserve_original], a file is not touched. *)
Lemma process_file_unknown operation exif_data file_path w :
  operation <> "delete" -> operation <> "edit" ->
  process_file operation false exif_data file_path w = Outcome (Ok tt) w [].
Proof.
  intros Hd He. unfold process_file.
  apply String.eqb_neq in Hd, He. rewrite Hd, He. reflexivity.
Qed.

Lemma run_from_unknown operation exif_data n file_paths : forall i w,
  operation <> "delete" -> operation <> "edit" ->
  run_from i n operation false exif_data file_paths w
  = Outcome (Ok tt) w
      (imap (fun k file_path =>
               Event (Progress (i + Z.of_nat k + 1) n (basename file_path)
                        "Success") None)
         file_paths).
Proof.
  induction file_paths as [|file_path rest IH]; intros i w Hd He;
    [reflexivity|].
  rewrite run_from_cons, process_file_unknown by assumption.
  cbn [res final log status_of app imap]. rewrite IH by assumption.
  cbn [res final log]. rewrite Z.add_0_r. f_equal. f_equal.
  apply imap_ext. intros k p _. cbn. f_equal. f_equal. lia.
Qed.

(** An edit without data fails for every file, before [piexif.dump]. *)
Lemma process_file_edit_none preserve_original file_path w :
  let o := process_file "edit" preserve_original None file_path w in
  (exists e, res o = Raise e)
  /\ (forall c, In c (map ev_call (log o)) ->
        c = Copy2 file_path (modified_path file_path)
        \/ exists p, c = PiexifLoad p).
Proof.
  cbv zeta. unfold process_file, edit, wrapped.
  cbn [String.eqb Ascii.eqb Bool.eqb].
  destruct preserve_original; run_code; cbn [res log app map ev_call];
    (split; [eexists; reflexivity|]);
    intros c Hc; cbn [In] in Hc;
    repeat (destruct Hc as [<- | Hc]; [eauto|]); destruct Hc.
Qed.

Lemma run_from_edit_none preserve_original n file_paths : forall i w c,
  In c (map ev_call
          (log (run_from i n "edit" preserve_original None file_paths w))) ->
  (exists file_path, c = Copy2 file_path (modified_path file_path))
  \/ (exists p, c = PiexifLoad p)
  \/ (exists current filename message,
        c = Progress current n filename ("Error: " ++ message)).
Proof.
  induction file_paths as [|file_path rest IH]; intros i w c Hc;
    [destruct Hc|].
  rewrite run_from_cons in Hc. cbn [log] in Hc.
  rewrite map_app, in_app_iff in Hc. cbn [map In ev_call] in Hc.
  destruct (process_file_edit_none preserve_original file_path w)
    as [[e He] Hcalls].
  destruct Hc as [Hc | [<- | Hc]].
  - destruct (Hcalls c Hc) as [-> | Hload]; eauto.
  - rewrite He. cbn [status_of]. eauto 8.
  - eapply IH, Hc.
Qed.

End BatchMore.

(** X15: a batch whose operation is neither 'delete' nor 'edit' reports
    "Success" for every file although nothing is done: without
    [preserve_original] no library is called, the world is left as it was,
    and the log holds the progress calls alone, one per file in order. *)
Theorem unknown_operation_reports_success `{Libs}
    (file_paths : list string) (operation : string)
    (exif_data : option (list (key * exif_value))) (w : world) :
  operation <> "delete" ->
  operation <> "edit" ->
  BatchProcessor.run file_paths operation false exif_data w
  = Outcome (Ok tt) w
      (imap (fun k file_path =>
               Event (Progress (Z.of_nat k + 1)
                        (Z.of_nat (List.length file_paths))
                        (BatchProcessor.basename file_path) "Success") None)
         file_paths).
Proof.
  intros Hd He. unfold BatchProcessor.run.
  rewrite run_from_unknown by assumption. reflexivity.
Qed.

Lemma unknown_operation_reports_success_witness :
  @BatchProcessor.run Disk.disk_libs ["/d/a.jpg"; "/d/missing.jpg"]
    "Delete" false None Disk.two_photos
  = @Outcome Disk.disk_libs unit (Ok tt) Disk.two_photos
      [Event (Progress 1 2 "a.jpg" "Success") None;
       Event (Progress 2 2 "missing.jpg" "Success") None].
Proof.
  apply (@unknown_operation_reports_success Disk.disk_libs
           ["/d/a.jpg"; "/d/missing.jpg"] "Delete" None Disk.two_photos);
    discriminate.
Defined.

(** X16: a batch 'edit' without EXIF data (the default of
    [BatchProcessor]) never succeeds on a file and never writes EXIF data:
    the only library calls are the copies and [piexif.load], and every
    progress call carries a status "Error: ...". *)
Theorem batch_edit_without_data_fails `{Libs}
    (file_paths : list string) (preserve_original : bool) (w : world)
    (c : call) :
  In c (map ev_call
          (log (BatchProcessor.run file_paths "edit" preserve_original None w))) ->
  (exists file_path,
      c = Copy2 file_path (BatchProcessor.modified_path file_path))
  \/ (exists p, c = PiexifLoad p)
  \/ (exists current filename message,
        c = Progress current (Z.of_nat (List.length file_paths)) filename
              ("Error: " ++ message)).
Proof. apply run_from_edit_none. Qed.

Lemma batch_edit_without_data_fails_witness :
  map ev_call
    (log (@BatchProcessor.run Disk.disk_libs ["/d/a.jpg"] "edit" false None
            Disk.two_photos))
  = [PiexifLoad "/d/a.jpg";
     Progress 1 1 "a.jpg"
       "Error: Failed to edit EXIF data: 'NoneType' object has no attribute 'items'"]
  /\ ((exists file_path,
          PiexifLoad "/d/a.jpg"
          = Copy2 file_path (BatchProcessor.modified_path file_path))
      \/ (exists p, PiexifLoad "/d/a.jpg" = PiexifLoad p)
      \/ (exists current filename message,
            PiexifLoad "/d/a.jpg"
            = Progress current (Z.of_nat (List.length ["/d/a.jpg"])) filename
                ("Error: " ++ message))).
Proof.
  split; [vm_compute; reflexivity|].
  apply (@batch_edit_without_data_fails Disk.disk_libs ["/d/a.jpg"] false
           Disk.two_photos (PiexifLoad "/d/a.jpg")).
  vm_compute. auto.
Defined.

(** X17: without [preserve_original] a batch writes the listed files and
    nothing else: every path that is not in the list reads as before. *)
Theorem batch_in_place_writes_listed_files_only `{FileSystem}
    (file_paths : list string) (operation : string)
    (exif_data : option (list (key * exif_value))) (w : world) (q : string) :
  ~ In q file_paths ->
  read (final (BatchProcessor.run file_paths operation false exif_data w)) q
  = read w q.
Proof.
  intros Hq. unfold BatchProcessor.run. apply run_from_frame.
  intros file_path Hin ->. exact (Hq Hin).
Qed.

Lemma batch_in_place_writes_listed_files_only_witness :
  @read Disk.disk_libs disk_files
    (final (@BatchProcessor.run Disk.disk_libs ["/d/a.jpg"] "delete" false None
              Disk.two_photos)) "/d/a_modified.jpg"
  = Some (Disk.File (Some "Nikon") "pixels of b").
Proof.
  rewrite (@batch_in_place_writes_listed_files_only Disk.disk_libs disk_files
             ["/d/a.jpg"] "delete" None Disk.two_photos "/d/a_modified.jpg").
  - reflexivity.
  - intros [E | []]. discriminate E.
Defined.

(** ** The path of the copy, read again *)

Section Paths.
Import BatchProcessor.

(** What follows the last [c] holds no [c]. *)
Lemma rsplit_after c : forall s before after,
  rsplit c s = Some (before, after) -> rsplit c after = None.
Proof.
  induction s as [|a s IH]; intros before after Hs; [discriminate Hs|].
  cbn [rsplit] in Hs. destruct (rsplit c s) as [[b t]|] eqn:E.
  - injection Hs as <- <-. eapply IH. reflexivity.
  - destruct (Ascii.eqb a c); [|discriminate Hs].
    injection Hs as <- <-. exact E.
Qed.

(** The last [c] of a text that ends with [c] and a text without [c]. *)
Lemma rsplit_last c t : rsplit c t = None -> forall s,
  rsplit c (s ++ String c t) = Some (s, t).
Proof.
  intros Ht. induction s as [|a s IH].
  - rewrite append_empty_l. cbn [rsplit].
    rewrite Ht, Ascii.eqb_refl. reflexivity.
  - rewrite append_cons. cbn [rsplit]. now rewrite IH.
Qed.

(** A name with a suffix: its stem is not empty and its suffix is a dot
    followed by a text without dots. *)
Lemma suffix_shape (name : string) :
  suffix name <> "" ->
  exists after,
    suffix name = String "." after /\ rsplit "." after = None
    /\ after <> "" /\ stem name <> "".
Proof.
  unfold suffix, stem.
  destruct (rsplit "." name) as [[before after]|] eqn:E; [|congruence].
  destruct (String.eqb_spec before ""), (String.eqb_spec after "");
    cbn [orb]; try congruence.
  intros _. exists after. split; [reflexivity|]. split; [|auto].
  eapply rsplit_after, E.
Qed.

Lemma suffix_stem_of_split (name before after : string) :
  rsplit "." name = Some (before, after) ->
  before <> "" -> after <> "" ->
  suffix name = String "." after /\ stem name = before.
Proof.
  intros Hsplit Hb Ha. unfold suffix, stem. rewrite Hsplit.
  apply String.eqb_neq in Hb, Ha. rewrite Hb, Ha. split; reflexivity.
Qed.

(** The name of the copy of a file whose name has a suffix. *)
Lemma modified_name_suffix (name : string) :
  suffix name <> "" ->
  suffix (modified_name name) = suffix name
  /\ stem (modified_name name) = stem name ++ "_modified".
Proof.
  intros Hsuffix. unfold modified_name.
  destruct (suffix_shape _ Hsuffix) as (after & Hs & Hclean & Hafter & Hstem).
  rewrite Hs.
  assert (rsplit "." (stem name ++ "_modified" ++ String "." after)
          = Some (stem name ++ "_modified", after)) as Hsplit.
  { rewrite <- append_assoc. now apply rsplit_last. }
  apply (suffix_stem_of_split _ _ _ Hsplit); [|exact Hafter].
  intros E. apply (f_equal String.length) in E.
  rewrite length_append in E. cbn in E. lia.
Qed.

End Paths.

(** X18: the path of the copy made for a file, read again as a path.  Its
    text is in pathlib's normal form, whatever the text of the file's path
    was; its root and its parent are those of the file's path, and its name
    is the stem of the file's name, "_modified" and the suffix of the file's
    name; when the file's name has a suffix, the copy has the same suffix
    and its stem is the file's stem followed by "_modified". *)
Theorem modified_path_components (file_path : string) :
  let path := BatchProcessor.Path file_path in
  let copy := BatchProcessor.Path (BatchProcessor.modified_path file_path) in
  let name := BatchProcessor.path_name path in
  BatchProcessor.path_str copy = BatchProcessor.modified_path file_path
  /\ BatchProcessor.root copy = BatchProcessor.root path
  /\ BatchProcessor.path_parent copy = BatchProcessor.path_parent path
  /\ BatchProcessor.path_name copy
     = BatchProcessor.stem name ++ "_modified" ++ BatchProcessor.suffix name
  /\ (BatchProcessor.suffix name <> "" ->
      BatchProcessor.suffix (BatchProcessor.path_name copy)
      = BatchProcessor.suffix name
      /\ BatchProcessor.stem (BatchProcessor.path_name copy)
         = BatchProcessor.stem name ++ "_modified").
Proof.
  cbv zeta. pose proof (modified_path_read file_path) as Hread.
  assert (BatchProcessor.path_name
            (BatchProcessor.Path (BatchProcessor.modified_path file_path))
          = BatchProcessor.modified_name
              (BatchProcessor.path_name (BatchProcessor.Path file_path)))
    as Hname.
  { rewrite Hread. unfold BatchProcessor.path_name at 1.
    cbn [BatchProcessor.parts]. apply last_last. }
  split; [|split; [|split; [|split]]].
  - unfold BatchProcessor.modified_path at 1 2. cbv zeta.
    set (new_path := BatchProcessor.truediv _ _).
    assert (BatchProcessor.Path (BatchProcessor.path_str new_path) = new_path)
      as E; [|now rewrite E].
    pose proof (path_name_no_slash file_path) as Hn.
    destruct (Path_normal file_path) as [Hr Hl].
    subst new_path. unfold BatchProcessor.truediv.
    rewrite (Path_modified_name _ Hn).
    cbn [BatchProcessor.root BatchProcessor.parts BatchProcessor.path_parent
         String.eqb].
    apply Path_str. split; [exact Hr|]. cbn [BatchProcessor.parts].
    apply Forall_app. split; [now apply Forall_removelast|].
    repeat constructor; now apply modified_name_component.
  - now rewrite Hread.
  - rewrite Hread. unfold BatchProcessor.path_parent.
    cbn [BatchProcessor.root BatchProcessor.parts].
    now rewrite removelast_last.
  - exact Hname.
  - intros Hsuffix. rewrite Hname. now apply modified_name_suffix.
Qed.

Lemma modified_path_components_witness :
  BatchProcessor.modified_path "/home/u//trip.2024/./a.b.jpg"
  = "/home/u/trip.2024/a.b_modified.jpg"
  /\ BatchProcessor.path_parent
       (BatchProcessor.Path
          (BatchProcessor.modified_path "/home/u//trip.2024/./a.b.jpg"))
     = BatchProcessor.PurePath "/" ["home"; "u"; "trip.2024"]
  /\ BatchProcessor.suffix
       (BatchProcessor.path_name
          (BatchProcessor.Path
             (BatchProcessor.modified_path "/home/u//trip.2024/./a.b.jpg")))
     = ".jpg".
Proof.
  pose proof (modified_path_components "/home/u//trip.2024/./a.b.jpg")
    as (_ & _ & Hparent & _ & Hsuffix).
  split; [reflexivity|]. split.
  - rewrite Hparent. reflexivity.
  - rewrite (proj1 (Hsuffix ltac:(discriminate))). reflexivity.
Defined.

(** The copies of paths that are not in normal form, of paths without a
    name and of names without a suffix, as pathlib gives them. *)
Example modified_path_examples :
  BatchProcessor.modified_path "/d//a.jpg" = "/d/a_modified.jpg"
  /\ BatchProcessor.modified_path "/d/./a.jpg" = "/d/a_modified.jpg"
  /\ BatchProcessor.modified_path "./a.jpg" = "a_modified.jpg"
  /\ BatchProcessor.modified_path "/d/a.jpg/" = "/d/a_modified.jpg"
  /\ BatchProcessor.modified_path "//d/a.jpg" = "//d/a_modified.jpg"
  /\ BatchProcessor.modified_path "///d/a.jpg" = "/d/a_modified.jpg"
  /\ BatchProcessor.modified_path "" = "_modified"
  /\ BatchProcessor.modified_path "/" = "/_modified"
  /\ BatchProcessor.modified_path "//" = "//_modified"
  /\ BatchProcessor.modified_path "." = "_modified"
  /\ BatchProcessor.modified_path ".." = ".._modified"
  /\ BatchProcessor.modified_path "/d/.." = "/d/.._modified"
  /\ BatchProcessor.modified_path "/d/.bashrc" = "/d/.bashrc_modified"
  /\ BatchProcessor.modified_path "/d/archive.tar.gz" = "/d/archive.tar_modified.gz"
  /\ BatchProcessor.modified_path "a" = "a_modified"
  /\ BatchProcessor.modified_path "/home/u/trip.2024/a.b.jpg" = "/home/u/trip.2024/a.b_modified.jpg"
  /\ BatchProcessor.modified_path "d/../a.jpg" = "d/../a_modified.jpg"
  /\ BatchProcessor.modified_path " /x" = " /x_modified"
  /\ BatchProcessor.modified_path "/d/a b.jpg" = "/d/a b_modified.jpg"
  /\ BatchProcessor.modified_path "a/" = "a_modified"
  /\ BatchProcessor.modified_path "./" = "_modified"
  /\ BatchProcessor.modified_path "/." = "/_modified"
  /\ BatchProcessor.modified_path "x/./y//z.png" = "x/y/z_modified.png".
Proof. vm_compute. repeat split. Qed.

(** ** What a worker reports, and what the window starts *)

Section WorkerReports.
Import MainWindow Requests Log.
Context `{Libs}.

(** The result and the log of an operation followed by a wrapping of its
    result. *)
Lemma bind_ret {A B} (m : M A) (f : A -> B) (w : world) :
  log (bindM m (fun a => ret (f a)) w) = log (m w)
  /\ res (bindM m (fun a => ret (f a)) w)
     = match res (m w) with Ok a => Ok (f a) | Raise e => Raise e end.
Proof.
  unfold bindM, ret. destruct (m w) as [[a|e] w1 l1]; cbn [res log];
    rewrite ?app_nil_r; auto.
Qed.

Lemma job_operation_single_pass (j : job) (w : world) :
  job_image j <> None ->
  (forall x, raised_in (log (job_operation j w)) = Some x ->
     res (job_operation j w)
     = Raise (Exn PlainException (failure_prefix j ++ exc_str x)))
  /\ (forall x, res (job_operation j w) = Raise x ->
        exists original,
          x = Exn PlainException (failure_prefix j ++ exc_str original)).
Proof.
  destruct j as [p|p data preserve|p preserve|l op preserve];
    cbn [job_image job_operation failure_prefix]; intros Hj;
    try congruence.
  - destruct (bind_ret (EXIFProcessor.extract p) ExifData w) as [-> ->].
    destruct (extract_single_pass p w) as (_ & _ & Hraised & Hres).
    split.
    + intros x Hx. now rewrite (Hraised x Hx).
    + intros x. destruct (res (EXIFProcessor.extract p w)) as [d|e] eqn:E;
        [discriminate|]. intros [= <-]. now apply Hres.
  - destruct (bind_ret (EXIFProcessor.edit p data preserve) Status w)
      as [-> ->].
    destruct (edit_single_pass p data preserve w) as (_ & _ & Hraised & Hres).
    split.
    + intros x Hx. now rewrite (Hraised x Hx).
    + intros x.
      destruct (res (EXIFProcessor.edit p data preserve w)) as [d|e] eqn:E;
        [discriminate|]. intros [= <-]. now apply Hres.
  - destruct (bind_ret (EXIFProcessor.delete p preserve) Status w)
      as [-> ->].
    destruct (delete_single_pass p preserve w) as (_ & _ & Hraised & Hres).
    split.
    + intros x Hx. now rewrite (Hraised x Hx).
    + intros x.
      destruct (res (EXIFProcessor.delete p preserve w)) as [d|e] eqn:E;
        [discriminate|]. intros [= <-]. now apply Hres.
Qed.

Lemma batch_job_finishes file_list operation preserve w :
  res (worker_run (Batch file_list operation preserve) w)
  = Ok (Finished NoResult).
Proof.
  destruct (worker_run_emits (Batch file_list operation preserve) w)
    as (_ & _ & ->).
  cbn [job_operation].
  destruct (bind_ret (BatchProcessor.run file_list operation preserve None)
              (fun _ => NoResult) w) as [_ ->].
  unfold BatchProcessor.run. now rewrite run_from_returns.
Qed.

End WorkerReports.

(** X19: what the user is shown when a worker is over.  For an operation
    on one image, an [error] signal carries "Failed to ... EXIF data: "
    followed by the text of the exception that stopped the operation, and
    when a library call raised, it is that call's exception, verbatim; a
    batch worker never emits [error]: it always emits [finished]. *)
Theorem worker_reports_the_failure `{Libs}
    (j : MainWindow.job) (w : world) :
  (MainWindow.job_image j <> None ->
   (forall message,
       res (MainWindow.worker_run j w) = Ok (MainWindow.Error message) ->
       exists original,
         message = Requests.failure_prefix j ++ exc_str original)
   /\ (forall x,
         Log.raised_in (log (MainWindow.worker_run j w)) = Some x ->
         res (MainWindow.worker_run j w)
         = Ok (MainWindow.Error (Requests.failure_prefix j ++ exc_str x))))
  /\ (MainWindow.job_image j = None ->
      res (MainWindow.worker_run j w)
      = Ok (MainWindow.Finished MainWindow.NoResult)).
Proof.
  split.
  - intros Hj.
    destruct (job_operation_single_pass j w Hj) as [Hraised Hres].
    destruct (worker_run_emits j w) as (-> & _ & ->).
    split.
    + intros message.
      destruct (res (MainWindow.job_operation j w)) as [r|e] eqn:E;
        [discriminate|].
      intros [= <-]. destruct (Hres e eq_refl) as [original ->].
      exists original. reflexivity.
    + intros x Hx. now rewrite (Hraised x Hx).
  - destruct j; cbn [MainWindow.job_image]; try discriminate.
    intros _. apply batch_job_finishes.
Qed.

Lemma worker_reports_the_failure_witness :
  res (@MainWindow.worker_run Disk.disk_libs
         (MainWindow.Delete "/d/missing.jpg" true) Disk.two_photos)
  = Ok (MainWindow.Error
          "Failed to delete EXIF data: No such file or directory: /d/missing.jpg").
Proof.
  apply (proj2 (proj1 (@worker_reports_the_failure Disk.disk_libs
                         (MainWindow.Delete "/d/missing.jpg" true)
                         Disk.two_photos)
                  ltac:(discriminate))
           (Disk.no_such_file "/d/missing.jpg")).
  vm_compute. reflexivity.
Defined.

Section WindowRequests.
Import MainWindow Requests.

Lemma requested_more events more j :
  requested events j -> requested (events ++ more) j.
Proof.
  destruct j as [p|p data preserve|p preserve|l op preserve];
    cbn [requested]; rewrite ?in_app_iff.
  - tauto.
  - intros (Hp & Ho & edited & -> & Hc). split; [exact Hp|].
    split; [tauto|]. exists edited. rewrite in_app_iff. tauto.
  - tauto.
  - intros (Hl & Hop & text & Ht & Hc). split; [exact Hl|].
    split; [exact Hop|]. exists text. rewrite in_app_iff. tauto.
Qed.

Lemma asked_for_more past more s :
  asked_for past s -> asked_for (past ++ more) s.
Proof.
  intros (Hr & Hw & Hp). split; [|split].
  - eapply Forall_impl; [exact Hr|]. intros j. apply requested_more.
  - intros j Hj. apply requested_more, Hw, Hj.
  - intros p Hc. destruct (Hp p Hc). rewrite in_app_iff. tauto.
Qed.

Lemma asked_for_start past s j :
  asked_for past s -> requested past j -> asked_for past (start j s).
Proof.
  intros (Hr & Hw & Hp) Hj. split; [|split]; cbn [start running worker
    current_image_path].
  - apply Forall_app. split; [exact Hr|]. now constructor.
  - now intros j' [= <-].
  - exact Hp.
Qed.

Lemma selected_spec s p :
  selected s = Some p -> current_image_path s = Some p.
Proof.
  unfold selected. destruct (current_image_path s) as [q|]; [|discriminate].
  destruct (String.eqb q ""); [discriminate|]. now intros [= ->].
Qed.

Lemma asked_for_extract past s :
  asked_for past s -> asked_for past (extract_exif s).
Proof.
  intros Hs. unfold extract_exif. destruct (selected s) as [p|] eqn:Ep;
    [|exact Hs].
  apply asked_for_start; [exact Hs|].
  destruct Hs as (_ & _ & Hp). apply selected_spec in Ep.
  exact (Hp p Ep).
Qed.

Lemma asked_for_handle past e s s' :
  asked_for past s -> handle e s = Some s' -> asked_for (past ++ [e]) s'.
Proof.
  intros Hs He.
  pose proof (asked_for_more past [e] s Hs) as Hs1.
  assert (In e (past ++ [e])) as Hin by (rewrite in_app_iff; cbn; auto).
  destruct e as [file_path| |reply_yes edited_data preserve
                 |reply_yes preserve
                 |file_list operation_text reply_yes preserve|i ok];
    cbn [handle] in He.
  - injection He as <-. unfold open_single_image.
    destruct (String.eqb_spec file_path "") as [|Hne]; [exact Hs1|].
    apply asked_for_extract. destruct Hs1 as (Hr & Hw & Hp).
    split; [exact Hr|]. split; [exact Hw|].
    cbn [current_image_path]. intros p [= <-]. auto.
  - injection He as <-. now apply asked_for_extract.
  - injection He as <-. unfold save_exif_changes.
    destruct (selected s) as [p|] eqn:Ep; [|exact Hs1].
    destruct reply_yes; [|exact Hs1].
    apply asked_for_start; [exact Hs1|]. cbn [requested].
    destruct Hs1 as (_ & _ & Hp). apply selected_spec in Ep.
    destruct (Hp p Ep). eauto 6.
  - injection He as <-. unfold delete_all_exif.
    destruct (selected s) as [p|] eqn:Ep; [|exact Hs1].
    destruct reply_yes; [|exact Hs1].
    apply asked_for_start; [exact Hs1|]. cbn [requested].
    destruct Hs1 as (_ & _ & Hp). apply selected_spec in Ep.
    destruct (Hp p Ep). auto.
  - injection He as <-. unfold process_batch_images.
    destruct file_list as [|f l]; [exact Hs1|].
    destruct (mentions_delete operation_text) eqn:Em; [|exact Hs1].
    destruct reply_yes; [|exact Hs1].
    apply asked_for_start; [exact Hs1|]. cbn [requested].
    split; [discriminate|]. split; [reflexivity|]. eauto.
  - destruct (running s !! i) as [j|] eqn:Ei; [|discriminate He].
    injection He as <-.
    assert (asked_for (past ++ [WorkerDone i ok])
              {| current_image_path := current_image_path s;
                 worker := worker s;
                 running := delete i (running s) |}) as Hdel.
    { destruct Hs1 as (Hr & Hw & Hp). split; [|split; assumption].
      cbn [running]. apply List.Forall_forall. intros j' Hj'.
      rewrite List.Forall_forall in Hr. apply Hr.
      apply list_elem_of_In. apply list_elem_of_In in Hj'.
      eapply elem_of_sublist; [exact Hj' | apply sublist_delete]. }
    destruct ok; [|exact Hdel].
    destruct j; cbn [on_finished]; try exact Hdel;
      now apply asked_for_extract.
Qed.

Lemma asked_for_handle_all events : forall past s s',
  asked_for past s -> handle_all events s = Some s' ->
  asked_for (past ++ events) s'.
Proof.
  induction events as [|e events IH]; intros past s s' Hs He.
  - injection He as <-. now rewrite app_nil_r.
  - cbn [handle_all] in He. destruct (handle e s) as [s1|] eqn:E1;
      [|discriminate He].
    replace (past ++ e :: events)%list with ((past ++ [e]) ++ events)%list
      by now rewrite <- app_assoc.
    eapply IH; [|exact He]. eapply asked_for_handle; eauto.
Qed.

End WindowRequests.

(** X20: the window starts nothing the user has not asked for.  After any
    sequence of events from the initial state, every worker running, and
    the worker the window holds, works on an image that was opened (and
    whose path is not empty), an edit or a deletion on one image follows a
    click confirmed with the same options, and a batch is a batch of
    deletions over the non-empty list of a confirmed click on "Process"
    whose operation text mentions "Delete". *)
Theorem window_starts_only_what_was_asked
    (events : list MainWindow.event) (s : MainWindow.window) :
  MainWindow.handle_all events MainWindow.initial = Some s ->
  Forall (Requests.requested events) (MainWindow.running s)
  /\ (forall j, MainWindow.worker s = Some j -> Requests.requested events j)
  /\ (forall p, MainWindow.current_image_path s = Some p ->
        p <> "" /\ In (MainWindow.OpenSingleImage p) events).
Proof.
  intros Hs.
  apply (asked_for_handle_all events [] MainWindow.initial s); [|exact Hs].
  split; [constructor|]. split; discriminate.
Qed.

Lemma window_starts_only_what_was_asked_witness :
  let events :=
    [MainWindow.ClickDelete true false;
     MainWindow.OpenSingleImage "/d/a.jpg";
     MainWindow.ClickSave false [] true;
     MainWindow.ClickProcess ["/d/a.jpg"] "Apply EXIF Template" true true;
     MainWindow.ClickDelete true true] in
  exists s,
    MainWindow.handle_all events MainWindow.initial = Some s
    /\ MainWindow.running s
       = [MainWindow.Extract "/d/a.jpg"; MainWindow.Delete "/d/a.jpg" true]
    /\ Forall (Requests.requested events) (MainWindow.running s).
Proof.
  cbv zeta. eexists. split; [vm_compute; reflexivity|].
  split; [reflexivity|].
  refine (proj1 (window_starts_only_what_was_asked _ _ _)).
  vm_compute. reflexivity.
Defined.

(** ** The list of files of the batch tab *)

Section FileList.
Import BatchProcessor BatchProcessingTab.

Lemma find_items_nil (t : string) (l : list item) :
  find_items t l = [] <-> ~ In t (map text l).
Proof.
  unfold find_items. induction l as [|i l IH]; cbn [List.filter map In].
  - tauto.
  - destruct (String.eqb_spec (text i) t) as [E|E].
    + split; [discriminate | tauto].
    + rewrite IH. tauto.
Qed.

(** One path: nothing when its base name is listed, a new last item
    otherwise. *)
Lemma add_file_spec (path : string) (l : list item) :
  (In (basename path) (map text l) /\ add_file path l = l)
  \/ (~ In (basename path) (map text l)
      /\ add_file path l = l ++ [Item (basename path) path])%list.
Proof.
  unfold add_file.
  destruct (find_items (basename path) l) as [|i found] eqn:E.
  - right. split; [now apply find_items_nil | reflexivity].
  - left. split; [|reflexivity].
    destruct (in_dec string_dec (basename path) (map text l)) as [Hin|Hout];
      [exact Hin|].
    apply find_items_nil in Hout. congruence.
Qed.

Lemma tidy_add_file path l : tidy l -> tidy (add_file path l).
Proof.
  intros [Hnodup Hnames].
  destruct (add_file_spec path l) as [[_ ->] | [Hout ->]]; [now split|].
  split.
  - rewrite map_app. cbn [map text].
    apply List.NoDup_app;
      [ exact Hnodup
      | repeat constructor; intros []
      | intros t Ht [<- | []]; exact (Hout Ht) ].
  - apply Forall_app. split; [exact Hnames|]. now repeat constructor.
Qed.

Lemma tidy_add_files file_paths : forall l,
  tidy l -> tidy (add_files file_paths l).
Proof.
  induction file_paths as [|path rest IH]; intros l Hl; [exact Hl|].
  cbn [add_files]. apply IH, tidy_add_file, Hl.
Qed.

Lemma tidy_act a l : tidy l -> tidy (act a l).
Proof.
  intros Hl. destruct a as [[|path rest]|]; cbn [act clear_file_list].
  - exact Hl.
  - now apply tidy_add_files.
  - split; constructor.
Qed.

Lemma tidy_after_from actions : forall l,
  tidy l -> tidy (fold_left (fun l a => act a l) actions l).
Proof.
  induction actions as [|a actions IH]; intros l Hl; [exact Hl|].
  cbn [fold_left]. apply IH, tidy_act, Hl.
Qed.

Lemma tidy_paths l :
  tidy l ->
  List.NoDup (map basename (get_file_list l)) /\ List.NoDup (get_file_list l).
Proof.
  intros [Hnodup Hnames]. unfold get_file_list.
  assert (map basename (map user_data l) = map text l) as E.
  { rewrite map_map. apply map_ext_Forall.
    eapply Forall_impl; [exact Hnames|]. intros i Hi. now rewrite Hi. }
  split.
  - now rewrite E.
  - apply (NoDup_map_inv basename). now rewrite E.
Qed.

(** Items are added at the end, and only for paths of the list. *)
Lemma add_files_appends file_paths : forall l,
  exists added,
    add_files file_paths l = (l ++ added)%list
    /\ Forall (fun i => In (user_data i) file_paths) added.
Proof.
  induction file_paths as [|path rest IH]; intros l.
  - exists []. split; [now rewrite app_nil_r | constructor].
  - cbn [add_files]. destruct (IH (add_file path l)) as (added & -> & Hadded).
    assert (Forall (fun i => In (user_data i) (path :: rest)) added) as Hrest.
    { eapply Forall_impl; [exact Hadded|]. intros i Hi. now right. }
    destruct (add_file_spec path l) as [[_ ->] | [_ ->]].
    + exists added. auto.
    + exists (Item (basename path) path :: added).
      split; [now rewrite <- app_assoc|].
      constructor; [now left | exact Hrest].
Qed.

Lemma add_files_keeps_texts file_paths : forall l t,
  In t (map text l) -> In t (map text (add_files file_paths l)).
Proof.
  intros l t Ht. destruct (add_files_appends file_paths l) as (added & -> & _).
  rewrite map_app, in_app_iff. now left.
Qed.

Lemma add_files_lists_names file_paths : forall l path,
  In path file_paths -> In (basename path) (map text (add_files file_paths l)).
Proof.
  induction file_paths as [|first rest IH]; intros l path Hin; [destruct Hin|].
  cbn [add_files]. destruct Hin as [-> | Hin]; [|now apply IH].
  apply add_files_keeps_texts.
  destruct (add_file_spec path l) as [[Hthere ->] | [_ ->]]; [exact Hthere|].
  rewrite map_app, in_app_iff. right. now left.
Qed.

Lemma add_files_all_listed file_paths : forall l,
  (forall path, In path file_paths -> In (basename path) (map text l)) ->
  add_files file_paths l = l.
Proof.
  induction file_paths as [|path rest IH]; intros l Hl; [reflexivity|].
  cbn [add_files].
  destruct (add_file_spec path l) as [[_ ->] | [Hout _]].
  - apply IH. intros p Hp. apply Hl. now right.
  - destruct Hout. apply Hl. now left.
Qed.

(** Paths with distinct base names, none of them listed, are all added,
    in order. *)
Lemma add_files_distinct file_paths : forall l,
  List.NoDup (map basename file_paths) ->
  (forall path, In path file_paths -> ~ In (basename path) (map text l)) ->
  get_file_list (add_files file_paths l)
  = (get_file_list l ++ file_paths)%list.
Proof.
  induction file_paths as [|path rest IH]; intros l Hnodup Hfresh.
  - cbn. now rewrite app_nil_r.
  - cbn [add_files]. cbn [map] in Hnodup. apply List.NoDup_cons_iff in Hnodup.
    destruct Hnodup as [Hpath Hrest].
    destruct (add_file_spec path l) as [[Hthere _] | [_ ->]].
    + destruct (Hfresh path); [now left | exact Hthere].
    + rewrite IH.
      * unfold get_file_list. rewrite map_app. cbn [map user_data].
        now rewrite <- app_assoc.
      * exact Hrest.
      * intros p Hp. rewrite map_app, in_app_iff. cbn [map text In].
        intros [Hin | [E | []]].
        -- destruct (Hfresh p); [now right | exact Hin].
        -- apply Hpath. rewrite E. now apply in_map.
Qed.

End FileList.

(** X21: whatever files the user adds and however often the list is
    cleared, no two items of the batch list show the same text, every item
    shows the base name of the path it keeps, and so the list handed to the
    batch ([get_file_list]) holds no path twice and no two paths with the
    same base name. *)
Theorem batch_list_has_distinct_names
    (actions : list BatchProcessingTab.action) :
  let batch_file_list := BatchProcessingTab.after actions in
  List.NoDup (map BatchProcessingTab.text batch_file_list)
  /\ Forall (fun i => BatchProcessingTab.text i
                      = BatchProcessor.basename
                          (BatchProcessingTab.user_data i))
       batch_file_list
  /\ List.NoDup (map BatchProcessor.basename
                   (BatchProcessingTab.get_file_list batch_file_list))
  /\ List.NoDup (BatchProcessingTab.get_file_list batch_file_list).
Proof.
  cbv zeta.
  assert (BatchProcessingTab.tidy (BatchProcessingTab.after actions)) as Htidy.
  { apply tidy_after_from. split; constructor. }
  destruct (tidy_paths _ Htidy) as [Hnames Hpaths].
  destruct Htidy as [Hnodup Hitems]. auto.
Qed.

(** X22: files with pairwise distinct base names, added to an empty
    list, are all listed, and [get_file_list] returns their paths in the
    order given. *)
Theorem add_files_then_get_file_list (file_paths : list string) :
  List.NoDup (map BatchProcessor.basename file_paths) ->
  BatchProcessingTab.get_file_list
    (BatchProcessingTab.add_files file_paths [])
  = file_paths.
Proof.
  intros Hnodup. rewrite add_files_distinct; [reflexivity | exact Hnodup|].
  intros path _ [].
Qed.

Lemma add_files_then_get_file_list_witness :
  BatchProcessingTab.get_file_list
    (BatchProcessingTab.add_files ["/d/a.jpg"; "/d/a_modified.jpg"; "/e/b.png"] [])
  = ["/d/a.jpg"; "/d/a_modified.jpg"; "/e/b.png"].
Proof.
  apply (add_files_then_get_file_list
           ["/d/a.jpg"; "/d/a_modified.jpg"; "/e/b.png"]).
  vm_compute.
  repeat (constructor; [cbn [In]; intuition discriminate|]). constructor.
Defined.

(** X23: [add_files] only appends: the items already listed stay where
    they are, each new item keeps a path of the files given; a file whose
    base name is already listed is dropped without notice, also when it is
    another file, in another directory; and adding the same files a second
    time changes nothing. *)
Theorem add_files_appends_new_names
    (file_paths : list string)
    (batch_file_list : list BatchProcessingTab.item) :
  (exists added,
      BatchProcessingTab.add_files file_paths batch_file_list
      = (batch_file_list ++ added)%list
      /\ Forall (fun i => In (BatchProcessingTab.user_data i) file_paths) added)
  /\ ((forall path, In path file_paths ->
         In (BatchProcessor.basename path)
           (map BatchProcessingTab.text batch_file_list)) ->
      BatchProcessingTab.add_files file_paths batch_file_list
      = batch_file_list)
  /\ BatchProcessingTab.add_files file_paths
       (BatchProcessingTab.add_files file_paths batch_file_list)
     = BatchProcessingTab.add_files file_paths batch_file_list.
Proof.
  split; [apply add_files_appends|]. split; [apply add_files_all_listed|].
  apply add_files_all_listed. intros path Hpath.
  now apply add_files_lists_names.
Qed.

(** The second of two files named alike is not listed. *)
Example add_files_same_name :
  BatchProcessingTab.get_file_list
    (BatchProcessingTab.add_files ["/d/a.jpg"; "/e/a.jpg"] [])
  = ["/d/a.jpg"].
Proof. vm_compute. reflexivity. Qed.

(** ** The earlier batch *)

Section LegacyBatch.
Import MainWindow LegacyThreads.
Context `{Libs}.

(** A [try] whose handler returns always returns. *)
Lemma try_except_all_returns {A} (m : M A) (g : exn -> A) (w : world) :
  try_except_all m (fun e => ret (g e)) w
  = Outcome (Ok (match res (m w) with Ok a => a | Raise e => g e end))
      (final (m w)) (log (m w)).
Proof.
  unfold try_except_all, ret. destruct (m w) as [[a|e] w1 l1];
    cbn [res final log]; rewrite ?app_nil_r; reflexivity.
Qed.

(** [run] of the earlier processor emits a signal and returns. *)
Lemma run_returns image_path operation exif_data w :
  exists sig, res (run image_path operation exif_data w) = Ok sig.
Proof. unfold run. rewrite try_except_all_returns. eexists. reflexivity. Qed.

(** One file of the earlier batch: the only failure is a failed copy. *)
Lemma process_file_fails_on_copy operation preserve_original exif_data
    file_path w :
  let o := process_file operation preserve_original exif_data file_path w in
  res o = Ok tt
  \/ (preserve_original = true
      /\ exists e,
           res o = Raise e
           /\ In (Event (Copy2 file_path (BatchProcessor.modified_path file_path))
                    (Some e)) (log o)).
Proof.
  cbv zeta. unfold process_file.
  destruct preserve_original.
  - destruct (copy2 file_path (BatchProcessor.modified_path file_path) w)
      as [[[]|e] w1] eqn:Ecopy.
    + left. unfold bindM, invoke, ret. rewrite Ecopy.
      destruct (run_returns (BatchProcessor.modified_path file_path)
                  operation exif_data w1) as [sig Hsig].
      destruct (run _ operation exif_data w1) as [r w2 l2].
      cbn [res] in Hsig. subst r. reflexivity.
    + right. split; [reflexivity|]. exists e.
      unfold bindM, invoke, ret. rewrite Ecopy. cbn [res log In]. auto.
  - left. unfold bindM, ret.
    destruct (run_returns file_path operation exif_data w) as [sig Hsig].
    destruct (run file_path operation exif_data w) as [r w2 l2].
    cbn [res] in Hsig. subst r. reflexivity.
Qed.

(** One turn of the loop of the earlier batch. *)
Lemma legacy_run_from_cons i n operation preserve_original exif_data
    file_path rest w :
  run_from i n operation preserve_original exif_data (file_path :: rest) w =
  let o1 := process_file operation preserve_original exif_data file_path w in
  let processed :=
    FileProcessed (BatchProcessor.basename file_path)
      (BatchProcessor.status_of (res o1)) in
  match percent (i + 1) n with
  | Raise e => Outcome (Ok ([processed], Some e)) (final o1) (log o1)
  | Ok progress =>
      let o2 := run_from (i + 1) n operation preserve_original exif_data rest
                  (final o1) in
      Outcome
        (match res o2 with
         | Ok more =>
             Ok (processed :: ProgressValue progress :: fst more, snd more)
         | Raise e => Raise e
         end)
        (final o2) (log o1 ++ log o2)
  end.
Proof.
  cbn [run_from]. unfold try_except_all, bindM, ret.
  destruct (process_file operation preserve_original exif_data file_path w)
    as [[[]|e] w1 l1]; cbn beta iota zeta;
    cbn [res final log BatchProcessor.status_of];
    (destruct (percent (i + 1) n) as [progress|e'];
     [ destruct (run_from (i + 1) n operation preserve_original exif_data
                   rest w1) as [[more|e''] w2 l2];
       cbn [res final log]
     | ]);
    rewrite ?app_nil_r, <- ?app_assoc; reflexivity.
Qed.

Lemma legacy_run_from_reports operation preserve_original exif_data n
    file_list : forall i w,
  let o := run_from i n operation preserve_original exif_data file_list w in
  exists emitted,
    res o = Ok emitted
    /\ forall filename status,
         In (FileProcessed filename status) (fst emitted) ->
         status = "Success"
         \/ (preserve_original = true
             /\ exists file_path e,
                  In (Event (Copy2 file_path
                               (BatchProcessor.modified_path file_path))
                        (Some e)) (log o)
                  /\ status = "Error: " ++ exc_str e).
Proof.
  induction file_list as [|file_path rest IH]; intros i w; cbv zeta.
  - eexists. split; [reflexivity|]. intros filename status [].
  - rewrite legacy_run_from_cons. cbv zeta.
    assert (forall filename status,
              FileProcessed (BatchProcessor.basename file_path)
                (BatchProcessor.status_of
                   (res (process_file operation preserve_original exif_data
                           file_path w)))
              = FileProcessed filename status ->
              status = "Success"
              \/ (preserve_original = true
                  /\ exists p e,
                       In (Event (Copy2 p (BatchProcessor.modified_path p))
                             (Some e))
                         (log (process_file operation preserve_original
                                 exif_data file_path w))
                       /\ status = "Error: " ++ exc_str e)) as Hfirst.
    { intros filename status.
      destruct (process_file_fails_on_copy operation preserve_original
                  exif_data file_path w) as [-> | (Hp & e & -> & Hin)];
        cbn [BatchProcessor.status_of]; intros [= _ <-]; [now left|].
      right. split; [exact Hp|]. eauto. }
    destruct (percent (i + 1) n) as [progress|e'].
    + destruct (IH (i + 1)
                  (final (process_file operation preserve_original exif_data
                            file_path w))) as (more & Hmore & Hrest).
      cbv zeta in Hmore, Hrest. rewrite Hmore. cbn [res log].
      eexists. split; [reflexivity|]. cbn [fst].
      intros filename status [Hin | [Hin | Hin]].
      * destruct (Hfirst _ _ Hin) as [-> | (Hp & p & e & Hlog & ->)];
          [now left|].
        right. split; [exact Hp|]. exists p, e. rewrite in_app_iff. auto.
      * discriminate Hin.
      * destruct (Hrest _ _ Hin) as [-> | (Hp & p & e & Hlog & ->)];
          [now left|].
        right. split; [exact Hp|]. exists p, e. rewrite in_app_iff. auto.
    + cbn [res log]. eexists. split; [reflexivity|]. cbn [fst].
      intros filename status [Hin | []]. exact (Hfirst _ _ Hin).
Qed.

End LegacyBatch.

(** X24: the earlier batch of UI/UI.py hides the failures of the
    operation.  It always returns, and a [file_processed] signal carries
    "Success" unless the copy of the file failed: the processor's [run]
    catches every failure of the operation and reports it by a signal of
    its own, to which nobody listens; without [preserve_original] every
    file is reported as a success. *)
Theorem legacy_batch_hides_failures `{Libs}
    (file_list : list string) (operation : string)
    (exif_data : option (list (key * exif_value)))
    (preserve_original : bool) (w : world) :
  let o := LegacyThreads.batch_run file_list operation exif_data
             preserve_original w in
  exists signals,
    res o = Ok signals
    /\ forall filename status,
         In (LegacyThreads.FileProcessed filename status) signals ->
         status = "Success"
         \/ (preserve_original = true
             /\ exists file_path e,
                  In (Event (Copy2 file_path
                               (BatchProcessor.modified_path file_path))
                        (Some e)) (log o)
                  /\ status = "Error: " ++ exc_str e).
Proof.
  cbv zeta. unfold LegacyThreads.batch_run.
  destruct (legacy_run_from_reports operation preserve_original exif_data
              (Z.of_nat (List.length file_list)) file_list 0 w)
    as (emitted & Hres & Hreports).
  cbv zeta in Hres, Hreports. unfold bindM, ret.
  destruct (LegacyThreads.run_from 0 _ operation preserve_original exif_data
              file_list w) as [r w1 l1].
  cbn [res log] in Hres, Hreports. subst r. cbn [res log].
  eexists. split; [reflexivity|].
  intros filename status Hin. rewrite app_nil_r.
  apply in_app_iff in Hin as [Hin | [Hin | []]].
  - exact (Hreports _ _ Hin).
  - destruct (snd emitted); discriminate Hin.
Qed.

(** A file that does not exist: the earlier batch reports a success, the
    batch of src/processing reports the failure. *)
Example legacy_batch_reports_missing_file_as_success :
  res (@LegacyThreads.batch_run Disk.disk_libs ["/d/a.jpg"; "/d/missing.jpg"]
         "delete" None false Disk.two_photos)
  = Ok [LegacyThreads.FileProcessed "a.jpg" "Success";
        LegacyThreads.ProgressValue 50;
        LegacyThreads.FileProcessed "missing.jpg" "Success";
        LegacyThreads.ProgressValue 100;
        LegacyThreads.BatchFinished]
  /\ BatchProcessor.progress_calls
       (log (@BatchProcessor.run Disk.disk_libs ["/d/a.jpg"; "/d/missing.jpg"]
               "delete" false None Disk.two_photos))
     = [Progress 1 2 "a.jpg" "Success";
        Progress 2 2 "missing.jpg"
          "Error: Failed to delete EXIF data: No such file or directory: /d/missing.jpg"].
Proof. vm_compute. auto. Qed.

(** The percentage is computed with floats: after 29 files of 100 the
    quotient 29 / 100 * 100 is just below 29. *)
Example percent_29_of_100 :
  LegacyThreads.percent 29 100 = Ok 28
  /\ LegacyThreads.percent 100 100 = Ok 100.
Proof. vm_compute. auto. Qed.

Example legacy_run_unknown_operation :
  let o := @LegacyThreads.run Disk.disk_libs "/d/a.jpg" "rotate" None
             Disk.two_photos in
  res o = Ok (MainWindow.Error "Unknown operation: rotate") /\ log o = [].
Proof. vm_compute. auto. Qed.

(** ** Floats that stay finite

    The exponent of a float bounds its size; the lemmas below follow the
    exponent through the rounding of [SpecFloat] and show that the
    operations of the formats stay within the floats. *)

Section Exponents.
Import FloatSize.

Local Notation fexp := (SpecFloat.fexp prec emax).

Lemma fexp_eq (e : Z) : fexp e = Z.max (e - 53) (-1074).
Proof. reflexivity. Qed.

Lemma digits2_pos_spec (m : positive) :
  2 ^ (Z.pos (digits2_pos m) - 1) <= Z.pos m < 2 ^ Z.pos (digits2_pos m).
Proof.
  induction m as [m IH|m IH|]; cbn [digits2_pos].
  - rewrite Pos2Z.inj_succ, Z.pow_succ_r by lia.
    replace (Z.succ (Z.pos (digits2_pos m)) - 1)
      with (Z.succ (Z.pos (digits2_pos m) - 1)) by lia.
    rewrite Z.pow_succ_r by lia. lia.
  - rewrite Pos2Z.inj_succ, Z.pow_succ_r by lia.
    replace (Z.succ (Z.pos (digits2_pos m)) - 1)
      with (Z.succ (Z.pos (digits2_pos m) - 1)) by lia.
    rewrite Z.pow_succ_r by lia. lia.
  - cbn. lia.
Qed.

Lemma Zdigits2_nonneg (n : Z) : 0 <= Zdigits2 n.
Proof. destruct n; cbn; lia. Qed.

(** A number below [2^k] has at most [k] digits. *)
Lemma Zdigits2_le (n k : Z) : 0 <= k -> Z.abs n < 2 ^ k -> Zdigits2 n <= k.
Proof.
  intros Hk Hn.
  assert (forall p, Z.pos p < 2 ^ k -> Z.pos (digits2_pos p) <= k) as Hp.
  { intros p Hlt. destruct (digits2_pos_spec p) as [Hlow _].
    apply Z.lt_succ_r. rewrite <- Z.add_1_r.
    apply (Z.pow_lt_mono_r_iff 2); [lia | lia |].
    replace (Z.pos (digits2_pos p)) with (Z.pos (digits2_pos p) - 1 + 1) by lia.
    rewrite (Z.pow_add_r 2 k 1) by lia.
    rewrite Z.pow_add_r by lia. lia. }
  destruct n as [|p|p]; cbn [Zdigits2]; [exact Hk | now apply Hp | now apply Hp].
Qed.

(** A number of at least [2^k] has more than [k] digits. *)
Lemma Zdigits2_gt (n k : Z) : 0 <= k -> 2 ^ k <= n -> k < Zdigits2 n.
Proof.
  intros Hk Hn. destruct n as [|p|p]; try (pose proof (Z.pow_pos_nonneg 2 k); lia).
  cbn [Zdigits2]. destruct (digits2_pos_spec p) as [_ Hup].
  apply (Z.pow_lt_mono_r_iff 2); lia.
Qed.

Lemma Zdigits2_mono (m n : Z) : 0 <= m <= n -> Zdigits2 m <= Zdigits2 n.
Proof.
  intros [Hm Hmn]. destruct m as [|p|p]; [apply Zdigits2_nonneg| |lia].
  destruct n as [|q|q]; try lia. cbn [Zdigits2].
  destruct (digits2_pos_spec p) as [Hlow _].
  destruct (digits2_pos_spec q) as [_ Hup].
  assert (Z.pos (digits2_pos p) - 1 < Z.pos (digits2_pos q)); [|lia].
  apply (Z.pow_lt_mono_r_iff 2); lia.
Qed.

Lemma Zdigits2_succ (m n : Z) :
  0 <= m -> m <= n <= m + 1 -> Zdigits2 n <= Zdigits2 m + 1.
Proof.
  intros Hm Hn. apply Zdigits2_le; [pose proof (Zdigits2_nonneg m); lia|].
  rewrite Z.abs_eq by lia.
  assert (m < 2 ^ Zdigits2 m) as Hup.
  { destruct m as [|p|p]; [cbn; lia | apply digits2_pos_spec | lia]. }
  rewrite Z.pow_add_r by (pose proof (Zdigits2_nonneg m); lia). lia.
Qed.

(** One shift to the right drops one digit. *)
Lemma shr_1_digits (r : shr_record) :
  0 <= shr_m r ->
  0 <= shr_m (shr_1 r)
  /\ Zdigits2 (shr_m (shr_1 r)) = Z.max (Zdigits2 (shr_m r) - 1) 0.
Proof.
  destruct r as [m rb sb]. cbn [shr_m]. intros Hm.
  destruct m as [|[p|p|]|p]; cbn [shr_1 shr_m Zdigits2 digits2_pos]; lia.
Qed.

Lemma iter_shr_1_digits (p : positive) : forall r,
  0 <= shr_m r ->
  0 <= shr_m (SpecFloat.iter_pos shr_1 p r)
  /\ Zdigits2 (shr_m (SpecFloat.iter_pos shr_1 p r))
     = Z.max (Zdigits2 (shr_m r) - Z.pos p) 0.
Proof.
  induction p as [p IH|p IH|]; intros r Hr; cbn [SpecFloat.iter_pos].
  - destruct (shr_1_digits r Hr) as [H1 E1].
    destruct (IH _ H1) as [H2 E2]. destruct (IH _ H2) as [H3 E3].
    split; [exact H3|]. rewrite E3, E2, E1. lia.
  - destruct (IH _ Hr) as [H2 E2]. destruct (IH _ H2) as [H3 E3].
    split; [exact H3|]. rewrite E3, E2. lia.
  - apply shr_1_digits, Hr.
Qed.

Lemma shr_record_of_loc_m m l : shr_m (shr_record_of_loc m l) = m.
Proof. destruct l as [|[]]; reflexivity. Qed.

(** The shift that brings a mantissa to its exponent. *)
Lemma shr_fexp_digits (m e : Z) (l : location) :
  0 <= m ->
  let r := fst (shr_fexp prec emax m e l) in
  let e' := snd (shr_fexp prec emax m e l) in
  0 <= shr_m r
  /\ e' = Z.max e (fexp (Zdigits2 m + e))
  /\ Zdigits2 (shr_m r) = Z.max (Zdigits2 m - (e' - e)) 0.
Proof.
  intros Hm. cbv zeta. unfold shr_fexp, shr.
  pose proof (Zdigits2_nonneg m) as Hd.
  destruct (fexp (Zdigits2 m + e) - e) as [|p|p] eqn:En; cbn [fst snd].
  - rewrite shr_record_of_loc_m. lia.
  - destruct (iter_shr_1_digits p (shr_record_of_loc m l)) as [H1 E1].
    { now rewrite shr_record_of_loc_m. }
    rewrite shr_record_of_loc_m in E1. rewrite E1. lia.
  - rewrite shr_record_of_loc_m. lia.
Qed.

Lemma round_nearest_even_bounds (m : Z) (l : location) :
  m <= round_nearest_even m l <= m + 1.
Proof.
  destruct l as [|[]]; cbn [round_nearest_even]; try lia.
  destruct (Z.even m); lia.
Qed.

Lemma exponent_le_mono k k' f : k <= k' -> exponent_le k f -> exponent_le k' f.
Proof. destruct f; cbn; auto; lia. Qed.

(** Rounding a mantissa whose exponent is not above the exponent of its
    size: the result is a zero or finite, one exponent higher at most. *)
Lemma binary_round_aux_exponent (s : bool) (mx ex : Z) (lx : location) :
  0 <= mx ->
  ex <= fexp (Zdigits2 mx + ex) ->
  fexp (Zdigits2 mx + ex) + 1 <= emax - prec ->
  exponent_le (fexp (Zdigits2 mx + ex) + 1) (binary_round_aux prec emax s mx ex lx).
Proof.
  intros Hmx Hex Hmax. unfold binary_round_aux.
  destruct (shr_fexp_digits mx ex lx Hmx) as (H1 & E1 & D1).
  destruct (shr_fexp prec emax mx ex lx) as [r1 e1]. cbn [fst snd] in *.
  pose proof (round_nearest_even_bounds (shr_m r1) (loc_of_shr_record r1))
    as Hrne.
  set (m2 := round_nearest_even (shr_m r1) (loc_of_shr_record r1)) in *.
  assert (0 <= m2) as Hm2 by lia.
  pose proof (Zdigits2_succ (shr_m r1) m2 H1 Hrne) as D2.
  destruct (shr_fexp_digits m2 e1 loc_Exact Hm2) as (H3 & E3 & D3).
  destruct (shr_fexp prec emax m2 e1 loc_Exact) as [r3 e3].
  cbn [fst snd] in *.
  rewrite fexp_eq in *. change (emax - prec) with 971 in *.
  pose proof (Zdigits2_nonneg mx).
  assert (e3 <= Z.max (Zdigits2 mx + ex - 53) (-1074) + 1) as He3 by lia.
  destruct (shr_m r3) as [|m|m]; [exact I | | lia].
  replace (Z.leb e3 971) with true by (symmetry; apply Z.leb_le; lia).
  exact He3.
Qed.

Lemma iter_xO_digits (m d : positive) :
  Z.pos (digits2_pos (Pos.iter xO m d)) = Z.pos (digits2_pos m) + Z.pos d.
Proof.
  induction d as [|d IH] using Pos.peano_ind.
  - cbn [Pos.iter digits2_pos]. lia.
  - rewrite Pos.iter_succ. cbn [digits2_pos]. lia.
Qed.

(** The alignment of a mantissa on a lower exponent keeps its size. *)
Lemma shl_align_digits (mx : positive) (ex ex' : Z) :
  snd (shl_align mx ex ex') = Z.min ex ex'
  /\ Z.pos (digits2_pos (fst (shl_align mx ex ex'))) + snd (shl_align mx ex ex')
     = Z.pos (digits2_pos mx) + ex.
Proof.
  unfold shl_align. destruct (ex' - ex) as [|d|d] eqn:Ed; cbn [fst snd].
  - lia.
  - lia.
  - rewrite iter_xO_digits. lia.
Qed.

Lemma binary_round_exponent (s : bool) (mx : positive) (ex : Z) :
  fexp (Z.pos (digits2_pos mx) + ex) + 1 <= emax - prec ->
  exponent_le (fexp (Z.pos (digits2_pos mx) + ex) + 1)
    (binary_round prec emax s mx ex).
Proof.
  intros Hmax. unfold binary_round.
  destruct (shl_align_digits mx ex (fexp (Z.pos (digits2_pos mx) + ex)))
    as [Ee Ed].
  destruct (shl_align mx ex (fexp (Z.pos (digits2_pos mx) + ex))) as [mz ez].
  cbn [fst snd] in *.
  assert (Zdigits2 (Z.pos mz) + ez = Z.pos (digits2_pos mx) + ex) as E
    by exact Ed.
  rewrite <- E in *. apply binary_round_aux_exponent; [lia | | exact Hmax].
  rewrite E in *. lia.
Qed.

(** The rounding of an integer times a power of two. *)
Lemma binary_normalize_exponent (m e : Z) (szero : bool) :
  fexp (Zdigits2 m + e) + 1 <= emax - prec ->
  exponent_le (fexp (Zdigits2 m + e) + 1)
    (binary_normalize prec emax m e szero).
Proof.
  intros Hmax. destruct m as [|p|p]; cbn [binary_normalize Zdigits2] in *.
  - exact I.
  - now apply binary_round_exponent.
  - now apply binary_round_exponent.
Qed.

(** A valid finite float has at most 53 digits, at its exponent. *)
Lemma valid_finite (s : bool) (m : positive) (e : Z) :
  valid_binary (S754_finite s m e) = true ->
  fexp (Z.pos (digits2_pos m) + e) = e /\ e <= 971.
Proof.
  cbn [SpecFloat.valid_binary]. unfold bounded, canonical_mantissa.
  intros H. apply andb_prop in H as [Hc He].
  apply Z.eqb_eq in Hc. apply Z.leb_le in He. split; [exact Hc | exact He].
Qed.

Lemma cond_Zopp_abs (b : bool) (m : Z) : Z.abs (cond_Zopp b m) = Z.abs m.
Proof. destruct b; cbn [cond_Zopp]; lia. Qed.

(** The size of a sum or a difference of two aligned mantissas. *)
Lemma aligned_sum_digits (a b : Z) (mx my : positive) (ex ey : Z) :
  Z.abs a = Z.pos (fst (shl_align mx ex (Z.min ex ey))) ->
  Z.abs b = Z.pos (fst (shl_align my ey (Z.min ex ey))) ->
  fexp (Z.pos (digits2_pos mx) + ex) = ex ->
  fexp (Z.pos (digits2_pos my) + ey) = ey ->
  fexp (Zdigits2 (a + b) + Z.min ex ey) <= Z.max ex ey + 1
  /\ fexp (Zdigits2 (a - b) + Z.min ex ey) <= Z.max ex ey + 1.
Proof.
  intros Ha Hb Hx Hy.
  destruct (shl_align_digits mx ex (Z.min ex ey)) as [Exe Exd].
  destruct (shl_align_digits my ey (Z.min ex ey)) as [Eye Eyd].
  set (mx' := fst (shl_align mx ex (Z.min ex ey))) in *.
  set (my' := fst (shl_align my ey (Z.min ex ey))) in *.
  destruct (digits2_pos_spec mx') as [_ Hxup].
  destruct (digits2_pos_spec my') as [_ Hyup].
  set (d := Z.max (Z.pos (digits2_pos mx')) (Z.pos (digits2_pos my'))) in *.
  assert (2 ^ Z.pos (digits2_pos mx') <= 2 ^ d) as Hxd
    by (apply Z.pow_le_mono_r; lia).
  assert (2 ^ Z.pos (digits2_pos my') <= 2 ^ d) as Hyd
    by (apply Z.pow_le_mono_r; lia).
  assert (forall c, Z.abs c <= Z.abs a + Z.abs b -> Zdigits2 c <= d + 1) as Hc.
  { intros c Hle. apply Zdigits2_le; [lia|].
    rewrite Z.pow_add_r by lia. lia. }
  rewrite !fexp_eq in *.
  pose proof (Hc (a + b) ltac:(lia)). pose proof (Hc (a - b) ltac:(lia)).
  lia.
Qed.

Lemma SFsub_exponent (x y : spec_float) (k : Z) :
  valid_binary x = true -> valid_binary y = true ->
  exponent_le k x -> exponent_le k y ->
  k + 2 <= 971 ->
  exponent_le (k + 2) (SF64sub x y).
Proof.
  intros Vx Vy Hx Hy Hk.
  destruct x as [sx|sx| |sx mx ex], y as [sy|sy| |sy my ey];
    try contradiction; cbn [exponent_le] in Hx, Hy.
  - destruct sx, sy; exact I.
  - cbn. lia.
  - cbn. lia.
  - apply valid_finite in Vx as [Cx _]. apply valid_finite in Vy as [Cy _].
    unfold SF64sub, SFsub.
    destruct (aligned_sum_digits
                (cond_Zopp sx (Z.pos (fst (shl_align mx ex (Z.min ex ey)))))
                (cond_Zopp sy (Z.pos (fst (shl_align my ey (Z.min ex ey)))))
                mx my ex ey) as [_ Hsub];
      [apply cond_Zopp_abs | apply cond_Zopp_abs | exact Cx | exact Cy |].
    eapply exponent_le_mono; [|apply binary_normalize_exponent].
    + lia.
    + change (emax - prec) with 971. lia.
Qed.

Lemma SFadd_exponent (x y : spec_float) (k : Z) :
  valid_binary x = true -> valid_binary y = true ->
  exponent_le k x -> exponent_le k y ->
  k + 2 <= 971 ->
  exponent_le (k + 2) (SF64add x y).
Proof.
  intros Vx Vy Hx Hy Hk.
  destruct x as [sx|sx| |sx mx ex], y as [sy|sy| |sy my ey];
    try contradiction; cbn [exponent_le] in Hx, Hy.
  - destruct sx, sy; exact I.
  - cbn. lia.
  - cbn. lia.
  - apply valid_finite in Vx as [Cx _]. apply valid_finite in Vy as [Cy _].
    unfold SF64add, SFadd.
    destruct (aligned_sum_digits
                (cond_Zopp sx (Z.pos (fst (shl_align mx ex (Z.min ex ey)))))
                (cond_Zopp sy (Z.pos (fst (shl_align my ey (Z.min ex ey)))))
                mx my ex ey) as [Hadd _];
      [apply cond_Zopp_abs | apply cond_Zopp_abs | exact Cx | exact Cy |].
    eapply exponent_le_mono; [|apply binary_normalize_exponent].
    + lia.
    + change (emax - prec) with 971. lia.
Qed.

(** The size of a product of two mantissas. *)
Lemma mul_digits (mx my : positive) :
  Z.pos (digits2_pos mx) + Z.pos (digits2_pos my) - 1
  <= Z.pos (digits2_pos (mx * my))
  <= Z.pos (digits2_pos mx) + Z.pos (digits2_pos my).
Proof.
  destruct (digits2_pos_spec mx) as [Hxl Hxu].
  destruct (digits2_pos_spec my) as [Hyl Hyu].
  rewrite <- (Z.abs_eq (Z.pos mx)) in Hxu by lia.
  split.
  - pose proof (Zdigits2_gt (Z.pos (mx * my))
                  (Z.pos (digits2_pos mx) - 1 + (Z.pos (digits2_pos my) - 1)))
      as Hgt.
    cbn [Zdigits2] in Hgt. rewrite Z.pow_add_r in Hgt by lia.
    rewrite Pos2Z.inj_mul in Hgt.
    assert (2 ^ (Z.pos (digits2_pos mx) - 1) * 2 ^ (Z.pos (digits2_pos my) - 1)
            <= Z.pos mx * Z.pos my) by (apply Z.mul_le_mono_nonneg; lia).
    lia.
  - apply (Zdigits2_le (Z.pos (mx * my))); [lia|].
    rewrite Z.pow_add_r, Pos2Z.inj_mul by lia. rewrite Z.abs_eq by lia.
    rewrite Z.abs_eq in Hxu by lia.
    apply Z.mul_lt_mono_nonneg; lia.
Qed.

Lemma SFmul_exponent (x y : spec_float) (kx ky : Z) :
  valid_binary x = true -> valid_binary y = true ->
  exponent_le kx x -> exponent_le ky y ->
  Z.max (kx + ky + 53) (-1074) + 1 <= 971 ->
  exponent_le (Z.max (kx + ky + 53) (-1074) + 1) (SF64mul x y).
Proof.
  intros Vx Vy Hx Hy Hk.
  destruct x as [sx|sx| |sx mx ex], y as [sy|sy| |sy my ey];
    try contradiction; cbn [exponent_le] in Hx, Hy; try exact I.
  apply valid_finite in Vx as [Cx _]. apply valid_finite in Vy as [Cy _].
  unfold SF64mul, SFmul. pose proof (mul_digits mx my) as Hd.
  rewrite fexp_eq in Cx, Cy.
  eapply exponent_le_mono; [|apply binary_round_aux_exponent].
  - cbn [Zdigits2]. rewrite fexp_eq. lia.
  - lia.
  - cbn [Zdigits2]. rewrite fexp_eq. lia.
  - cbn [Zdigits2]. rewrite fexp_eq. change (emax - prec) with 971. lia.
Qed.

(** The quotient of two mantissas, as [SFdiv] computes it. *)
Lemma SFdiv_exponent (x : spec_float) (sy : bool) (my : positive) (ey k : Z) :
  valid_binary x = true -> valid_binary (S754_finite sy my ey) = true ->
  exponent_le k x ->
  Z.max (k - ey) (-1074) + 1 <= 971 ->
  exponent_le (Z.max (k - ey) (-1074) + 1)
    (SF64div x (S754_finite sy my ey)).
Proof.
  intros Vx Vy Hx Hk.
  destruct x as [sx|sx| |sx mx ex]; try contradiction; [exact I|].
  cbn [exponent_le] in Hx.
  apply valid_finite in Vx as [Cx _]. apply valid_finite in Vy as [Cy _].
  unfold SF64div, SFdiv, SFdiv_core_binary. cbn [Zdigits2].
  set (d1 := Z.pos (digits2_pos mx)) in *.
  set (d2 := Z.pos (digits2_pos my)) in *.
  set (e' := Z.min (fexp (d1 + ex - (d2 + ey))) (ex - ey)).
  set (s := ex - ey - e').
  assert (0 <= s) as Hs by (unfold s, e'; lia).
  assert (match s with
          | 0 => Z.pos mx
          | Z.pos _ => Z.shiftl (Z.pos mx) s
          | Z.neg _ => 0
          end = Z.pos mx * 2 ^ s) as ->.
  { destruct s as [|p|p] eqn:Es; [cbn; lia | | lia].
    rewrite Z.shiftl_mul_pow2 by lia. reflexivity. }
  destruct (Z.div_eucl (Z.pos mx * 2 ^ s) (Z.pos my)) as [q r] eqn:Ediv.
  assert (q = Z.pos mx * 2 ^ s / Z.pos my) as Hq
    by (unfold Z.div; now rewrite Ediv).
  destruct (digits2_pos_spec mx) as [Hxl Hxu]. fold d1 in Hxl, Hxu.
  destruct (digits2_pos_spec my) as [Hyl Hyu]. fold d2 in Hyl, Hyu.
  assert (0 < 2 ^ s) as Hpow by (apply Z.pow_pos_nonneg; lia).
  assert (0 <= q) as Hq0 by (rewrite Hq; apply Z.div_pos; lia).
  assert (q <= Z.pos mx * 2 ^ s) as Hqle.
  { rewrite Hq. apply Z.div_le_upper_bound; [lia|]. nia. }
  assert (Zdigits2 q <= d1 + s) as Hdq.
  { apply Zdigits2_le; [unfold d1; lia|]. rewrite Z.abs_eq by exact Hq0.
    rewrite Z.pow_add_r by (unfold d1; lia). nia. }
  pose proof (Zdigits2_nonneg q) as Hdq0.
  assert (e' <= fexp (Zdigits2 q + e')) as Hcanon.
  { rewrite fexp_eq. destruct (Z_le_gt_dec e' (-1074)) as [Hlow | Hhigh];
      [lia|].
    assert (d2 + 52 <= d1 - 1 + s) as Hshift.
    { unfold s. unfold e' in Hhigh |- *. rewrite fexp_eq in Hhigh |- *. lia. }
    assert (2 ^ 52 <= q) as Hbig.
    { rewrite Hq. apply Z.div_le_lower_bound; [lia|].
      assert (2 ^ (d2 + 52) <= 2 ^ (d1 - 1 + s)) as Hp
        by (apply Z.pow_le_mono_r; lia).
      rewrite Z.pow_add_r in Hp by (unfold d1, d2; lia).
      rewrite (Z.pow_add_r 2 (d1 - 1) s) in Hp by (unfold d1; lia).
      nia. }
    pose proof (Zdigits2_gt q 52 ltac:(lia) Hbig). lia. }
  rewrite fexp_eq in Cx.
  eapply exponent_le_mono; [|apply binary_round_aux_exponent].
  - rewrite fexp_eq. unfold s in Hdq. lia.
  - exact Hq0.
  - exact Hcanon.
  - rewrite fexp_eq. change (emax - prec) with 971. unfold s in Hdq. lia.
Qed.

(** A float with an exponent is not an infinity. *)
Lemma is_infinity_exponent (x : PrimFloat.float) (k : Z) :
  exponent_le k (Prim2SF x) -> PrimFloat.is_infinity x = false.
Proof.
  unfold PrimFloat.is_infinity. rewrite FloatAxioms.eqb_spec, abs_spec.
  change (Prim2SF infinity) with (S754_infinity false).
  destruct (Prim2SF x); cbn; intros H; try contradiction; reflexivity.
Qed.

(** [int(x)] of a float with an exponent. *)
Lemma int_of_float_exponent (x : PrimFloat.float) (k : Z) :
  exponent_le k (Prim2SF x) ->
  exists z, int_of_float x = Ok z /\ Z.abs z < 2 ^ Z.max (53 + k) 0.
Proof.
  intros Hx. unfold int_of_float. pose proof (Prim2SF_valid x) as Vx.
  assert (0 < 2 ^ Z.max (53 + k) 0) as Hpos by (apply Z.pow_pos_nonneg; lia).
  destruct (Prim2SF x) as [s|s| |s m e]; try contradiction.
  - exists 0. split; [reflexivity | exact Hpos].
  - cbn [exponent_le] in Hx. apply valid_finite in Vx as [Cx _].
    rewrite fexp_eq in Cx. destruct (digits2_pos_spec m) as [_ Hm].
    assert (Z.pos m < 2 ^ 53) as Hm53.
    { eapply Z.lt_le_trans; [exact Hm|]. apply Z.pow_le_mono_r; lia. }
    eexists. split; [reflexivity|].
    assert (0 <= (if Z.leb 0 e then Z.pos m * 2 ^ e else Z.pos m / 2 ^ (- e))
            < 2 ^ Z.max (53 + k) 0) as Ha.
    { destruct (Z.leb_spec 0 e) as [He | He].
      - split; [apply Z.mul_nonneg_nonneg; [lia | apply Z.pow_nonneg; lia]|].
        assert (2 ^ (53 + e) <= 2 ^ Z.max (53 + k) 0) as Hp
          by (apply Z.pow_le_mono_r; lia).
        rewrite Z.pow_add_r in Hp by lia.
        assert (0 < 2 ^ e) by (apply Z.pow_pos_nonneg; lia). nia.
      - assert (0 < 2 ^ (- e)) as Hpe by (apply Z.pow_pos_nonneg; lia).
        split; [apply Z.div_pos; lia|].
        destruct (Z_le_gt_dec 0 (53 + e)) as [Hbig | Hsmall].
        + eapply Z.lt_le_trans; [|apply (Z.pow_le_mono_r 2 (53 + e)); lia].
          apply Z.div_lt_upper_bound; [lia|].
          rewrite <- Z.pow_add_r by lia.
          replace (- e + (53 + e)) with 53 by lia. exact Hm53.
        + rewrite Z.div_small; [exact Hpos|]. split; [lia|].
          eapply Z.lt_le_trans; [exact Hm53|]. apply Z.pow_le_mono_r; lia. }
    destruct s; lia.
Qed.

(** Rounding to a negative float is the opposite of rounding to a
    positive one. *)
Lemma binary_round_opp (m : positive) (e : Z) :
  binary_round prec emax true m e = SFopp (binary_round prec emax false m e).
Proof.
  unfold binary_round. destruct (shl_align m e _) as [mz ez].
  unfold binary_round_aux. destruct (shr_fexp prec emax (Z.pos mz) ez loc_Exact)
    as [r1 e1].
  destruct (shr_fexp prec emax _ e1 loc_Exact) as [r2 e2].
  destruct (shr_m r2); [reflexivity | | reflexivity].
  destruct (Z.leb e2 (emax - prec)); reflexivity.
Qed.

(** [float(z)] of an integer below [2^63] is a float, the rounding of
    [z]. *)
Lemma float_of_int_exponent (z j : Z) :
  0 <= j <= 63 -> Z.abs z < 2 ^ j ->
  exists p, float_of_int z = Ok p
            /\ exponent_le (Z.max (j - 53) (-1074) + 1) (Prim2SF p).
Proof.
  intros Hj Hz.
  assert (2 ^ j <= 2 ^ 63) as Hj63 by (apply Z.pow_le_mono_r; lia).
  assert (forall n, 0 <= n < 2 ^ 63 ->
            binary_normalize prec emax n 0 false
            = Prim2SF (of_uint63 (Uint63.of_Z n))) as Hnat.
  { intros n Hn. rewrite of_uint63_spec, <- Uint63.is_int; [reflexivity|].
    exact Hn. }
  assert (exists p, binary_normalize prec emax z 0 false = Prim2SF p)
    as [p Hp].
  { destruct z as [|q|q].
    - eexists. apply (Hnat 0). lia.
    - eexists. apply (Hnat (Z.pos q)). lia.
    - exists (- of_uint63 (Uint63.of_Z (Z.pos q)))%float.
      rewrite opp_spec, <- (Hnat (Z.pos q)) by lia.
      cbn [binary_normalize]. apply binary_round_opp. }
  assert (exponent_le (Z.max (j - 53) (-1074) + 1) (Prim2SF p)) as He.
  { rewrite <- Hp. eapply exponent_le_mono;
      [|apply binary_normalize_exponent].
    - rewrite fexp_eq. pose proof (Zdigits2_le z j ltac:(lia) Hz). lia.
    - rewrite fexp_eq. change (emax - prec) with 971.
      pose proof (Zdigits2_le z j ltac:(lia) Hz). lia. }
  exists p. split; [|exact He].
  unfold float_of_int. rewrite Hp, SF2Prim_Prim2SF.
  now rewrite (is_infinity_exponent p _ He).
Qed.

(** A float between two bounds has at most the exponent of the bounds. *)
Lemma within_exponent (x lo hi : PrimFloat.float) (ml mh : positive)
    (el eh : Z) :
  Prim2SF lo = S754_finite true ml el ->
  Prim2SF hi = S754_finite false mh eh ->
  (lo <=? x)%float = true -> (x <=? hi)%float = true ->
  exponent_le (Z.max el eh) (Prim2SF x).
Proof.
  intros Hlo Hhi. rewrite !FloatAxioms.leb_spec, Hlo, Hhi. unfold SFleb.
  destruct (Prim2SF x) as [s|s| |s m e]; cbn [SFcompare exponent_le].
  - auto.
  - destruct s; discriminate.
  - discriminate.
  - destruct s.
    + intros Hl _. destruct (Z.compare_spec el e); [lia | discriminate | lia].
    + intros _ Hh. destruct (Z.compare_spec e eh); [lia | lia | discriminate].
Qed.

End Exponents.

(** ** The formats of a coordinate pair within the ranges *)

Section FormatsReturn.
Import GPSFormats FloatSize.

Lemma sixty_spec : Prim2SF 60 = S754_finite false 8444249301319680 (-47).
Proof. reflexivity. Qed.

Lemma six_spec : Prim2SF 6 = S754_finite false 6755399441055744 (-50).
Proof. reflexivity. Qed.

Lemma one_eighty_spec :
  Prim2SF 180 = S754_finite false 6333186975989760 (-45)
  /\ Prim2SF (-180) = S754_finite true 6333186975989760 (-45).
Proof. split; reflexivity. Qed.

Lemma ninety_spec :
  Prim2SF 90 = S754_finite false 6333186975989760 (-46)
  /\ Prim2SF (-90) = S754_finite true 6333186975989760 (-46).
Proof. split; reflexivity. Qed.

Lemma abs_exponent (x : PrimFloat.float) (k : Z) :
  exponent_le k (Prim2SF x) -> exponent_le k (Prim2SF (abs x)).
Proof. rewrite abs_spec. destruct (Prim2SF x); auto. Qed.

(** The degrees of a coordinate of at most 180 degrees, as an integer
    and as a float again. *)
Lemma degrees_return (x : PrimFloat.float) :
  exponent_le (-45) (Prim2SF x) ->
  exists degrees degrees_float,
    int_of_float (abs x) = Ok degrees
    /\ float_of_int degrees = Ok degrees_float
    /\ exponent_le (-44) (Prim2SF degrees_float).
Proof.
  intros Hx. apply abs_exponent in Hx.
  destruct (int_of_float_exponent _ _ Hx) as (degrees & Hd & Hsize).
  destruct (float_of_int_exponent degrees 8 ltac:(lia) Hsize)
    as (degrees_float & Hdf & Hexp).
  exists degrees, degrees_float. auto.
Qed.

Lemma decimal_to_dms_returns (x : PrimFloat.float) (is_latitude : bool) :
  exponent_le (-45) (Prim2SF x) ->
  exists s, decimal_to_dms x is_latitude = Ok s.
Proof.
  intros Hx. unfold decimal_to_dms.
  destruct (degrees_return x Hx) as (degrees & df & -> & Hdf & Hexp).
  cbn [bind]. rewrite Hdf. cbn [bind].
  assert (exponent_le (-35) (Prim2SF ((abs x - df) * 60))) as Hminutes.
  { rewrite mul_spec.
    apply (SFmul_exponent _ _ (-42) (-47)).
    - apply Prim2SF_valid.
    - apply Prim2SF_valid.
    - rewrite sub_spec.
      apply (SFsub_exponent _ _ (-44)); try apply Prim2SF_valid; [|exact Hexp|lia].
      apply (exponent_le_mono (-45)); [lia | now apply abs_exponent].
    - rewrite sixty_spec. cbn. lia.
    - lia. }
  destruct (int_of_float_exponent _ _ Hminutes) as (minutes & -> & Hsize).
  cbn [bind].
  destruct (float_of_int_exponent minutes 18 ltac:(lia) Hsize)
    as (minutes_as_float & -> & _).
  cbn [bind]. eexists. reflexivity.
Qed.

Lemma decimal_to_dmm_returns (x : PrimFloat.float) (is_latitude : bool) :
  exponent_le (-45) (Prim2SF x) ->
  exists s, decimal_to_dmm x is_latitude = Ok s.
Proof.
  intros Hx. unfold decimal_to_dmm.
  destruct (degrees_return x Hx) as (degrees & df & -> & Hdf & Hexp).
  cbn [bind]. rewrite Hdf. cbn [bind]. eexists. reflexivity.
Qed.

Lemma to_utm_returns (latitude longitude : PrimFloat.float) :
  exponent_le (-45) (Prim2SF longitude) ->
  exists s, GPSConverter.to_utm latitude longitude = Ok s.
Proof.
  intros Hx. unfold GPSConverter.to_utm, GPSConverter.utm_zone.
  assert (exponent_le 8 (Prim2SF ((longitude + 180) / 6))) as Hzone.
  { rewrite div_spec, six_spec.
    apply (SFdiv_exponent _ false 6755399441055744 (-50) (-43)).
    - apply Prim2SF_valid.
    - reflexivity.
    - rewrite add_spec.
      apply (SFadd_exponent _ _ (-45)); try apply Prim2SF_valid;
        [exact Hx | | lia].
      rewrite (proj1 one_eighty_spec). cbn. lia.
    - lia. }
  destruct (int_of_float_exponent _ _ Hzone) as (zone & -> & _).
  cbn [bind]. eexists. reflexivity.
Qed.

Lemma to_dms_returns (latitude longitude : PrimFloat.float) :
  exponent_le (-45) (Prim2SF latitude) ->
  exponent_le (-45) (Prim2SF longitude) ->
  exists s, to_dms latitude longitude = Ok s.
Proof.
  intros Hlat Hlon. unfold to_dms.
  destruct (decimal_to_dms_returns latitude true Hlat) as [a ->].
  destruct (decimal_to_dms_returns longitude false Hlon) as [b ->].
  cbn [bind]. eexists. reflexivity.
Qed.

Lemma to_dmm_returns (latitude longitude : PrimFloat.float) :
  exponent_le (-45) (Prim2SF latitude) ->
  exponent_le (-45) (Prim2SF longitude) ->
  exists s, to_dmm latitude longitude = Ok s.
Proof.
  intros Hlat Hlon. unfold to_dmm.
  destruct (decimal_to_dmm_returns latitude true Hlat) as [a ->].
  destruct (decimal_to_dmm_returns longitude false Hlon) as [b ->].
  cbn [bind]. eexists. reflexivity.
Qed.

Lemma to_geohash_12 (latitude longitude : PrimFloat.float) :
  GPSConverter.to_geohash latitude longitude 12
  = Some (Ok (GPSConverter.rounded_geohash latitude longitude 12)).
Proof. apply (to_geohash_fuel_enough latitude longitude 12 0). Qed.

Lemma latitude_exponent (latitude : PrimFloat.float) :
  (-90 <=? latitude)%float = true -> (latitude <=? 90)%float = true ->
  exponent_le (-45) (Prim2SF latitude).
Proof.
  intros Hlo Hhi. apply (exponent_le_mono (-46)); [lia|].
  exact (within_exponent latitude (-90) 90 _ _ (-46) (-46)
           (proj2 ninety_spec) (proj1 ninety_spec) Hlo Hhi).
Qed.

Lemma longitude_exponent (longitude : PrimFloat.float) :
  (-180 <=? longitude)%float = true -> (longitude <=? 180)%float = true ->
  exponent_le (-45) (Prim2SF longitude).
Proof.
  intros Hlo Hhi.
  exact (within_exponent longitude (-180) 180 _ _ (-45) (-45)
           (proj2 one_eighty_spec) (proj1 one_eighty_spec) Hlo Hhi).
Qed.

(** The coordinates that [parse_exif_gps] returns are within the
    ranges. *)
Lemma parse_exif_gps_in_range `{StrToFloat} (gps_info : gmap key value)
    (latitude longitude : PrimFloat.float) :
  GPSConverter.parse_exif_gps gps_info = Ok (Some (latitude, longitude)) ->
  (-90 <=? latitude)%float = true /\ (latitude <=? 90)%float = true
  /\ (-180 <=? longitude)%float = true /\ (longitude <=? 180)%float = true.
Proof.
  unfold GPSConverter.parse_exif_gps.
  case_bool_decide; [discriminate|]. cbv zeta.
  destruct (negb (forallb truthy _)); [discriminate|].
  destruct (GPSConverter._dms_to_decimal
              (GPSConverter.get2 gps_info "GPSLatitude" 2) _)
    as [[lat|]|e1]; cbn [bind try_except].
  - destruct (GPSConverter._dms_to_decimal
                (GPSConverter.get2 gps_info "GPSLongitude" 4) _)
      as [[lon|]|e2]; cbn [bind try_except].
    + destruct (-90 <=? lat)%float eqn:E1, (lat <=? 90)%float eqn:E2,
        (-180 <=? lon)%float eqn:E3, (lon <=? 180)%float eqn:E4;
        cbn [andb negb orb]; try discriminate.
      destruct ((lat =? 0) && (lon =? 0))%bool%float; [discriminate|].
      intros [= <- <-]. auto.
    + discriminate.
    + case_bool_decide; discriminate.
  - destruct (GPSConverter._dms_to_decimal
                (GPSConverter.get2 gps_info "GPSLongitude" 4) _)
      as [[lon|]|e2]; cbn [bind try_except];
      try discriminate; case_bool_decide; discriminate.
  - case_bool_decide; discriminate.
Qed.

End FormatsReturn.

(** X25: for a latitude in [-90, 90] and a longitude in [-180, 180],
    [get_all_formats] returns: [to_dms], [to_dmm] and [to_utm] raise
    nothing (every [int] is taken of a finite float, every [float] of a
    small integer), the geohash loop ends, and the dictionary holds the
    eight formats, the geohash with 12 symbols. *)
Theorem get_all_formats_returns (latitude longitude : PrimFloat.float) :
  (-90 <=? latitude)%float = true -> (latitude <=? 90)%float = true ->
  (-180 <=? longitude)%float = true -> (longitude <=? 180)%float = true ->
  exists dms dmm utm geohash : string,
    GPSFormats.to_dms latitude longitude = Ok dms
    /\ GPSFormats.to_dmm latitude longitude = Ok dmm
    /\ GPSConverter.to_utm latitude longitude = Ok utm
    /\ GPSConverter.to_geohash latitude longitude 12 = Some (Ok geohash)
    /\ String.length geohash = 12%nat
    /\ GPSFormats.get_all_formats latitude longitude
       = Some (Ok (list_to_map
                     [("decimal_degrees",
                       GPSFormats.to_decimal_degrees latitude longitude);
                      ("dms", dms); ("dmm", dmm); ("utm", utm);
                      ("mgrs", GPSFormats.to_mgrs latitude longitude);
                      ("geohash", geohash);
                      ("plus_code",
                       GPSFormats.to_plus_code latitude longitude);
                      ("google_maps_url",
                       GPSFormats.create_google_maps_url latitude longitude)])).
Proof.
  intros Hlat1 Hlat2 Hlon1 Hlon2.
  pose proof (latitude_exponent latitude Hlat1 Hlat2) as Hlat.
  pose proof (longitude_exponent longitude Hlon1 Hlon2) as Hlon.
  destruct (to_dms_returns latitude longitude Hlat Hlon) as [dms Hdms].
  destruct (to_dmm_returns latitude longitude Hlat Hlon) as [dmm Hdmm].
  destruct (to_utm_returns latitude longitude Hlon) as [utm Hutm].
  exists dms, dmm, utm, (GPSConverter.rounded_geohash latitude longitude 12).
  split; [exact Hdms|]. split; [exact Hdmm|]. split; [exact Hutm|].
  split; [apply to_geohash_12|]. split; [apply symbols_length|].
  unfold GPSFormats.get_all_formats.
  now rewrite Hdms, Hdmm, Hutm, to_geohash_12.
Qed.

Lemma get_all_formats_returns_witness :
  exists dms dmm utm geohash : string,
    GPSFormats.to_dms 40.446111 (-79.982222) = Ok dms
    /\ GPSFormats.to_dmm 40.446111 (-79.982222) = Ok dmm
    /\ GPSConverter.to_utm 40.446111 (-79.982222) = Ok utm
    /\ GPSConverter.to_geohash 40.446111 (-79.982222) 12
       = Some (Ok geohash)
    /\ String.length geohash = 12%nat
    /\ GPSFormats.get_all_formats 40.446111 (-79.982222)
       = Some (Ok (list_to_map
                     [("decimal_degrees",
                       GPSFormats.to_decimal_degrees 40.446111 (-79.982222));
                      ("dms", dms); ("dmm", dmm); ("utm", utm);
                      ("mgrs", GPSFormats.to_mgrs 40.446111 (-79.982222));
                      ("geohash", geohash);
                      ("plus_code",
                       GPSFormats.to_plus_code 40.446111 (-79.982222));
                      ("google_maps_url",
                       GPSFormats.create_google_maps_url 40.446111
                         (-79.982222))])).
Proof.
  apply (get_all_formats_returns 40.446111 (-79.982222)); reflexivity.
Defined.

(** X26: every pair of coordinates that [parse_exif_gps] returns can be
    formatted: [get_all_formats] returns a dictionary for it, with the
    eight formats. *)
Theorem parsed_coordinates_have_all_formats `{StrToFloat}
    (gps_info : gmap key value) (latitude longitude : PrimFloat.float) :
  GPSConverter.parse_exif_gps gps_info = Ok (Some (latitude, longitude)) ->
  exists formats : gmap string string,
    GPSFormats.get_all_formats latitude longitude = Some (Ok formats)
    /\ dom formats
       = list_to_set ["decimal_degrees"; "dms"; "dmm"; "utm"; "mgrs";
                      "geohash"; "plus_code"; "google_maps_url"].
Proof.
  intros Hparse.
  destruct (parse_exif_gps_in_range _ _ _ Hparse) as (H1 & H2 & H3 & H4).
  pose proof (latitude_exponent latitude H1 H2) as Hlat.
  pose proof (longitude_exponent longitude H3 H4) as Hlon.
  destruct (to_dms_returns latitude longitude Hlat Hlon) as [dms Hdms].
  destruct (to_dmm_returns latitude longitude Hlat Hlon) as [dmm Hdmm].
  destruct (to_utm_returns latitude longitude Hlon) as [utm Hutm].
  unfold GPSFormats.get_all_formats.
  rewrite Hdms, Hdmm, Hutm, to_geohash_12.
  eexists. split; [reflexivity|].
  rewrite dom_list_to_map_L. reflexivity.
Qed.

Lemma parsed_coordinates_have_all_formats_witness :
  exists formats : gmap string string,
    GPSFormats.get_all_formats (40 + 26 / 60 + 46 / 3600)
      (- (79 + 58 / 60 + 56 / 3600)) = Some (Ok formats)
    /\ dom formats
       = list_to_set ["decimal_degrees"; "dms"; "dmm"; "utm"; "mgrs";
                      "geohash"; "plus_code"; "google_maps_url"].
Proof.
  apply (@parsed_coordinates_have_all_formats Disk.no_text Disk.pittsburgh).
  vm_compute. reflexivity.
Defined.

(** ** Sums, halves and comparisons that are exact

    A float is a whole number of units of [2^-1074].  A sum whose exact
    value has a mantissa of at most 53 bits is computed exactly, and so is a
    half; comparisons of floats are comparisons of these whole numbers. *)

Section Exact.
Import FloatSize.

Local Notation fexp := (SpecFloat.fexp prec emax).
Local Notation exact_record m := (Build_shr_record m false false).

Lemma shr_1_double (j : Z) : shr_1 (exact_record (j * 2)) = exact_record j.
Proof.
  rewrite Z.mul_comm. destruct j as [|p|p]; reflexivity.
Qed.

(** Shifting out zeros loses nothing. *)
Lemma iter_shr_1_pow (p : positive) : forall k,
  SpecFloat.iter_pos shr_1 p (exact_record (k * 2 ^ Z.pos p)) = exact_record k.
Proof.
  induction p as [p IH|p IH|]; intros k; cbn [SpecFloat.iter_pos].
  - rewrite (Pos2Z.inj_xI p).
    replace (k * 2 ^ (2 * Z.pos p + 1))
      with (k * 2 ^ Z.pos p * 2 ^ Z.pos p * 2)
      by (replace (2 * Z.pos p + 1) with (Z.pos p + Z.pos p + 1) by lia;
          rewrite !Z.pow_add_r, Z.pow_1_r by lia; ring).
    now rewrite shr_1_double, !IH.
  - rewrite (Pos2Z.inj_xO p).
    replace (k * 2 ^ (2 * Z.pos p)) with (k * 2 ^ Z.pos p * 2 ^ Z.pos p)
      by (replace (2 * Z.pos p) with (Z.pos p + Z.pos p) by lia;
          rewrite Z.pow_add_r by lia; ring).
    now rewrite !IH.
  - apply shr_1_double.
Qed.

Lemma shr_fexp_exact (k e n : Z) :
  0 <= n -> n = fexp (Zdigits2 (k * 2 ^ n) + e) - e ->
  shr_fexp prec emax (k * 2 ^ n) e loc_Exact = (exact_record k, e + n).
Proof.
  intros Hn En. unfold shr_fexp, shr. rewrite <- En.
  cbn [shr_record_of_loc].
  destruct n as [|p|p]; [|now rewrite iter_shr_1_pow | lia].
  rewrite Z.pow_0_r, Z.mul_1_r, Z.add_0_r. reflexivity.
Qed.

Lemma Zdigits2_shift (k n : Z) :
  0 < k -> 0 <= n -> Zdigits2 (k * 2 ^ n) = Zdigits2 k + n.
Proof.
  intros Hk Hn. destruct k as [|p|p]; try lia. cbn [Zdigits2].
  destruct (digits2_pos_spec p) as [Hlow Hup].
  assert (0 < 2 ^ n) as Hpow by (apply Z.pow_pos_nonneg; lia).
  apply Z.le_antisymm.
  - apply Zdigits2_le; [lia|]. rewrite Z.abs_eq by lia.
    rewrite Z.pow_add_r by lia. nia.
  - assert (Z.pos (digits2_pos p) - 1 + n < Zdigits2 (Z.pos p * 2 ^ n)); [|lia].
    apply Zdigits2_gt; [lia|]. rewrite Z.pow_add_r by lia. nia.
Qed.

(** Rounding a mantissa whose low bits are zeros drops those bits. *)
Lemma binary_round_aux_exact (s : bool) (k e n : Z) :
  0 < k -> 0 <= n -> n = fexp (Zdigits2 (k * 2 ^ n) + e) - e ->
  e + n <= 971 ->
  binary_round_aux prec emax s (k * 2 ^ n) e loc_Exact
  = S754_finite s (Z.to_pos k) (e + n).
Proof.
  intros Hk Hn En Hmax. unfold binary_round_aux.
  rewrite (shr_fexp_exact k e n Hn En).
  cbn [shr_m loc_of_shr_record round_nearest_even].
  pose proof (shr_fexp_exact k (e + n) 0 ltac:(lia)) as H0.
  rewrite Z.pow_0_r, Z.mul_1_r, Z.add_0_r in H0. rewrite H0.
  - cbn [shr_m]. destruct k as [|p|p]; try lia.
    change (emax - prec) with 971.
    now rewrite (proj2 (Z.leb_le _ _) Hmax).
  - rewrite Zdigits2_shift in En by lia.
    replace (Zdigits2 k + (e + n)) with (Zdigits2 k + n + e) by lia. lia.
Qed.

Lemma iter_xO_value (m d : positive) :
  Z.pos (Pos.iter xO m d) = Z.pos m * 2 ^ Z.pos d.
Proof.
  induction d as [|d IH] using Pos.peano_ind.
  - cbn [Pos.iter]. lia.
  - rewrite Pos.iter_succ, Pos2Z.inj_xO, IH, Pos2Z.inj_succ, Z.pow_succ_r by lia.
    ring.
Qed.

(** The alignment of a mantissa on a lower exponent keeps its value. *)
Lemma shl_align_value (mx : positive) (ex ez : Z) :
  ez <= ex ->
  shl_align mx ex ez = (Z.to_pos (Z.pos mx * 2 ^ (ex - ez)), ez)
  /\ 0 < Z.pos mx * 2 ^ (ex - ez).
Proof.
  intros Hle. unfold shl_align.
  assert (0 < 2 ^ (ex - ez)) as Hpow by (apply Z.pow_pos_nonneg; lia).
  split; [|lia].
  destruct (ez - ex) as [|p|p] eqn:E; try lia.
  - replace (ex - ez) with 0 by lia. rewrite Z.pow_0_r, Z.mul_1_r.
    cbn [Z.to_pos]. f_equal. lia.
  - replace (ex - ez) with (Z.pos p) by lia.
    rewrite <- iter_xO_value. reflexivity.
Qed.

(** A positive number with a mantissa of at most 53 bits is rounded to
    itself. *)
Lemma binary_round_fits (s : bool) (p : positive) (e M t : Z) :
  -1074 <= e -> Z.pos p * 2 ^ (e + 1074) = M * 2 ^ t ->
  0 <= t -> 0 < M < 2 ^ 53 -> t <= 2045 ->
  exists m' e',
    binary_round prec emax s p e = S754_finite s m' e'
    /\ e' <= 971 /\ Z.pos m' * 2 ^ (e' + 1074) = M * 2 ^ t.
Proof.
  intros He HV Ht HM Hmax.
  set (d := Z.pos (digits2_pos p)).
  assert (0 < 2 ^ (e + 1074)) as Hpe by (apply Z.pow_pos_nonneg; lia).
  assert (0 < 2 ^ t) as Hpt by (apply Z.pow_pos_nonneg; lia).
  assert (d + (e + 1074) <= 53 + t) as Hsize.
  { pose proof (Zdigits2_shift (Z.pos p) (e + 1074) ltac:(lia) ltac:(lia))
      as Hd. cbn [Zdigits2] in Hd. fold d in Hd. rewrite <- Hd, HV.
    apply Zdigits2_le; [lia|]. rewrite Z.abs_eq by nia.
    rewrite Z.pow_add_r by lia. nia. }
  unfold binary_round. fold d. rewrite fexp_eq.
  destruct (Z_le_gt_dec (Z.max (d + e - 53) (-1074)) e) as [Hlow | Hhigh].
  - destruct (shl_align_value p e (Z.max (d + e - 53) (-1074)) Hlow)
      as [-> Hpos].
    set (e0 := Z.max (d + e - 53) (-1074)) in *.
    set (mz := Z.pos p * 2 ^ (e - e0)) in *.
    rewrite (Z2Pos.id mz Hpos).
    pose proof (binary_round_aux_exact s mz e0 0 Hpos ltac:(lia)) as Hround.
    rewrite Z.pow_0_r, Z.mul_1_r, Z.add_0_r in Hround.
    rewrite Hround.
    + exists (Z.to_pos mz), e0. split; [reflexivity|]. split; [lia|].
      rewrite (Z2Pos.id mz Hpos). unfold mz. rewrite <- HV, <- Z.mul_assoc.
      rewrite <- Z.pow_add_r by lia. f_equal. f_equal. lia.
    + unfold mz. rewrite Zdigits2_shift by lia. cbn [Zdigits2]. fold d.
      rewrite fexp_eq. lia.
    + lia.
  - assert (shl_align p e (Z.max (d + e - 53) (-1074)) = (p, e)) as ->.
    { unfold shl_align.
      destruct (Z.max (d + e - 53) (-1074) - e) eqn:E; try lia; reflexivity. }
    set (n := d - 53).
    assert (0 < n) as Hn by (unfold n; lia).
    assert (Z.pos p = M * 2 ^ (t - (e + 1074) - n) * 2 ^ n) as Hp.
    { apply (Z.mul_cancel_r _ _ (2 ^ (e + 1074))); [lia|].
      rewrite HV, <- !Z.mul_assoc, <- !Z.pow_add_r by (unfold n; lia).
      f_equal. f_equal. lia. }
    set (k := M * 2 ^ (t - (e + 1074) - n)) in *.
    assert (0 < k) as Hk.
    { unfold k. apply Z.mul_pos_pos; [lia|].
      apply Z.pow_pos_nonneg; unfold n; lia. }
    rewrite Hp.
    rewrite (binary_round_aux_exact s k e n Hk ltac:(lia)).
    + exists (Z.to_pos k), (e + n). split; [reflexivity|].
      split; [unfold n; lia|].
      rewrite (Z2Pos.id k Hk). rewrite <- HV, Hp, <- !Z.mul_assoc.
      rewrite <- !Z.pow_add_r by lia. f_equal. f_equal. lia.
    + rewrite <- Hp. cbn [Zdigits2]. fold d. rewrite fexp_eq. unfold n. lia.
    + unfold n. lia.
Qed.

(** The same for a number of either sign, or zero. *)
Lemma binary_normalize_fits (m e M t : Z) :
  -1074 <= e -> m * 2 ^ (e + 1074) = M * 2 ^ t ->
  0 <= t -> Z.abs M < 2 ^ 53 -> t <= 2045 ->
  exponent_le 971 (binary_normalize prec emax m e false)
  /\ scaled (binary_normalize prec emax m e false) = M * 2 ^ t.
Proof.
  intros He HV Ht HM Hmax.
  assert (0 < 2 ^ (e + 1074)) as Hpe by (apply Z.pow_pos_nonneg; lia).
  assert (0 < 2 ^ t) as Hpt by (apply Z.pow_pos_nonneg; lia).
  destruct m as [|p|p]; cbn [binary_normalize].
  - cbn [exponent_le scaled]. split; [exact I | lia].
  - destruct (binary_round_fits false p e M t He HV Ht ltac:(nia) Hmax)
      as (m' & e' & -> & He' & Hval).
    cbn [exponent_le scaled cond_Zopp]. split; [exact He' | exact Hval].
  - destruct (binary_round_fits true p e (- M) t He ltac:(lia) Ht ltac:(nia)
                Hmax) as (m' & e' & -> & He' & Hval).
    cbn [exponent_le scaled cond_Zopp]. split; [exact He' | lia].
Qed.

(** What validity says of a mantissa and its exponent. *)
Lemma valid_shape (s : bool) (m : positive) (e : Z) :
  valid_binary (S754_finite s m e) = true ->
  -1074 <= e <= 971
  /\ 2 ^ (Z.pos (digits2_pos m) - 1) <= Z.pos m < 2 ^ Z.pos (digits2_pos m)
  /\ Z.pos (digits2_pos m) <= 53
  /\ (e = -1074 \/ Z.pos (digits2_pos m) = 53).
Proof.
  intros V. apply valid_finite in V as [C Hmax]. rewrite fexp_eq in C.
  split; [lia|]. split; [apply digits2_pos_spec|]. lia.
Qed.

Lemma scaled_align (s : bool) (m : positive) (e ez : Z) :
  -1074 <= ez <= e ->
  cond_Zopp s (Z.pos m * 2 ^ (e - ez)) * 2 ^ (ez + 1074)
  = scaled (S754_finite s m e).
Proof.
  intros He. cbn [scaled].
  replace (e + 1074) with (e - ez + (ez + 1074)) by lia.
  rewrite (Z.pow_add_r 2 (e - ez) (ez + 1074)) by lia.
  destruct s; cbn [cond_Zopp]; ring.
Qed.

(** A sum that fits in a mantissa is exact. *)
Lemma SFadd_scaled (x y : spec_float) (M t : Z) :
  valid_binary x = true -> valid_binary y = true ->
  exponent_le 971 x -> exponent_le 971 y ->
  scaled x + scaled y = M * 2 ^ t ->
  0 <= t -> Z.abs M < 2 ^ 53 -> t <= 2045 ->
  exponent_le 971 (SF64add x y)
  /\ scaled (SF64add x y) = scaled x + scaled y.
Proof.
  intros Vx Vy Hx Hy HV Ht HM Hmax.
  destruct x as [sx|sx| |sx mx ex], y as [sy|sy| |sy my ey];
    try contradiction.
  - destruct sx, sy; cbn; auto.
  - cbn [SF64add SFadd scaled]. split; [exact Hy | lia].
  - cbn [SF64add SFadd scaled]. split; [exact Hx | lia].
  - destruct (valid_shape _ _ _ Vx) as (Hex & _).
    destruct (valid_shape _ _ _ Vy) as (Hey & _).
    unfold SF64add, SFadd.
    destruct (shl_align_value mx ex (Z.min ex ey) ltac:(lia)) as [-> Hpx].
    destruct (shl_align_value my ey (Z.min ex ey) ltac:(lia)) as [-> Hpy].
    cbn [fst]. rewrite !Z2Pos.id by assumption.
    assert ((cond_Zopp sx (Z.pos mx * 2 ^ (ex - Z.min ex ey))
             + cond_Zopp sy (Z.pos my * 2 ^ (ey - Z.min ex ey)))
            * 2 ^ (Z.min ex ey + 1074)
            = scaled (S754_finite sx mx ex) + scaled (S754_finite sy my ey))
      as Hsum.
    { rewrite Z.mul_add_distr_r, !scaled_align by lia. reflexivity. }
    destruct (binary_normalize_fits _ (Z.min ex ey) M t ltac:(lia)
                ltac:(rewrite Hsum; exact HV) Ht HM Hmax) as [Hexp Hval].
    split; [exact Hexp|]. rewrite Hval. symmetry. exact HV.
Qed.

(** The half of a normal float that is not among the smallest keeps the
    mantissa and lowers the exponent. *)
Lemma SFdiv_two (s : bool) (m : positive) (e : Z) :
  valid_binary (S754_finite s m e) = true -> -1072 <= e ->
  SF64div (S754_finite s m e) two = S754_finite s m (e - 1).
Proof.
  intros V He. destruct (valid_shape _ _ _ V) as (Hex & Hm & Hd & Hnormal).
  assert (Z.pos (digits2_pos m) = 53) as Hd53 by lia.
  unfold SF64div, SFdiv, two, SFdiv_core_binary. cbn [Zdigits2].
  change (Z.pos (digits2_pos 4503599627370496)) with 53.
  rewrite Hd53, fexp_eq.
  replace (Z.min (Z.max (53 + e - (53 + -51) - 53) (-1074)) (e - -51))
    with (e - 2) by lia.
  replace (e - -51 - (e - 2)) with 53 by lia.
  rewrite Z.shiftl_mul_pow2 by lia.
  destruct (Z.div_eucl (Z.pos m * 2 ^ 53) 4503599627370496) as [q r] eqn:Ediv.
  assert (q = Z.pos m * 2 /\ r = 0) as [-> ->].
  { assert (Z.pos m * 2 ^ 53 = Z.pos m * 2 * 4503599627370496) as E
      by (change (2 ^ 53) with (2 * 4503599627370496); ring).
    split.
    - transitivity (Z.pos m * 2 ^ 53 / 4503599627370496);
        [unfold Z.div; now rewrite Ediv|].
      rewrite E. apply Z.div_mul. lia.
    - transitivity ((Z.pos m * 2 ^ 53) mod 4503599627370496);
        [unfold Z.modulo; now rewrite Ediv|].
      rewrite E. apply Z.mod_mul. lia. }
  change (new_location 4503599627370496 0) with loc_Exact.
  rewrite xorb_false_r.
  replace (Z.pos m * 2) with (Z.pos m * 2 ^ 1) by (now rewrite Z.pow_1_r).
  rewrite (binary_round_aux_exact s (Z.pos m) (e - 2) 1 ltac:(lia)
             ltac:(lia)).
  - cbn [Z.to_pos]. f_equal. lia.
  - rewrite (Zdigits2_shift (Z.pos m) 1) by lia. cbn [Zdigits2].
    rewrite Hd53, fexp_eq. lia.
  - lia.
Qed.

(** A half is exact on a float that is a multiple of [2^54] units. *)
Lemma SFdiv_two_scaled (x : spec_float) (M t : Z) :
  valid_binary x = true -> exponent_le 971 x ->
  scaled x = M * 2 ^ t -> 54 <= t ->
  exponent_le 971 (SF64div x two)
  /\ scaled (SF64div x two) * 2 = scaled x.
Proof.
  intros V Hx HV Ht.
  destruct x as [sx|sx| |sx mx ex]; try contradiction.
  - cbn. auto.
  - destruct (valid_shape _ _ _ V) as (Hex & Hm & Hd & Hnormal).
    assert (-1072 <= ex) as Hlow.
    { destruct (Z_le_gt_dec (-1072) ex) as [|Hsmall]; [assumption|exfalso].
      cbn [scaled] in HV.
      assert (Z.abs (cond_Zopp sx (Z.pos mx) * 2 ^ (ex + 1074)) < 2 ^ 54)
        as Hbelow.
      { rewrite Z.abs_mul, cond_Zopp_abs, (Z.abs_eq (2 ^ _))
          by (apply Z.pow_nonneg; lia).
        assert (2 ^ Z.pos (digits2_pos mx) <= 2 ^ 53)
          by (apply Z.pow_le_mono_r; lia).
        assert (0 < 2 ^ (ex + 1074) <= 2 ^ 1) as Hp
          by (split; [apply Z.pow_pos_nonneg; lia
                     | apply Z.pow_le_mono_r; lia]).
        change (2 ^ 54) with (2 ^ 53 * 2 ^ 1). nia. }
      rewrite HV, Z.abs_mul, (Z.abs_eq (2 ^ t)) in Hbelow
        by (apply Z.pow_nonneg; lia).
      assert (2 ^ 54 <= 2 ^ t) by (apply Z.pow_le_mono_r; lia).
      assert (M <> 0).
      { intros ->. destruct sx; cbn [cond_Zopp] in HV;
          assert (0 < 2 ^ (ex + 1074)) by (apply Z.pow_pos_nonneg; lia); nia. }
      nia. }
    rewrite (SFdiv_two sx mx ex V Hlow). cbn [exponent_le scaled].
    split; [lia|].
    replace (ex + 1074) with (ex - 1 + 1074 + 1) by lia.
    rewrite (Z.pow_add_r 2 (ex - 1 + 1074) 1), Z.pow_1_r by lia. ring.
Qed.

(** Of two positive floats the one with the lower exponent is the
    smaller. *)
Lemma scaled_order (m1 m2 : positive) (e1 e2 : Z) (s1 s2 : bool) :
  valid_binary (S754_finite s1 m1 e1) = true ->
  valid_binary (S754_finite s2 m2 e2) = true ->
  e1 < e2 ->
  Z.pos m1 * 2 ^ (e1 + 1074) < Z.pos m2 * 2 ^ (e2 + 1074).
Proof.
  intros V1 V2 Hlt.
  destruct (valid_shape _ _ _ V1) as (He1 & [_ Hm1] & Hd1 & _).
  destruct (valid_shape _ _ _ V2) as (He2 & [Hm2 _] & Hd2 & Hn2).
  assert (Z.pos (digits2_pos m2) = 53) as E2 by lia.
  rewrite E2 in Hm2. change (2 ^ (53 - 1)) with (2 ^ 52) in Hm2.
  assert (2 ^ Z.pos (digits2_pos m1) <= 2 ^ 53)
    by (apply Z.pow_le_mono_r; lia).
  replace (e2 + 1074) with (e1 + 1074 + (e2 - e1)) by lia.
  rewrite (Z.pow_add_r 2 (e1 + 1074) (e2 - e1)) by lia.
  assert (0 < 2 ^ (e1 + 1074)) by (apply Z.pow_pos_nonneg; lia).
  assert (2 ^ 1 <= 2 ^ (e2 - e1)) as Hq by (apply Z.pow_le_mono_r; lia).
  rewrite Z.pow_1_r in Hq.
  change (2 ^ 53) with 9007199254740992 in *.
  change (2 ^ 52) with 4503599627370496 in *.
  set (P := 2 ^ (e1 + 1074)) in *. set (Q := 2 ^ (e2 - e1)) in *.
  assert (Z.pos m1 * P < 9007199254740992 * P) by nia.
  assert (2 * P <= P * Q) by nia.
  assert (4503599627370496 * (P * Q) <= Z.pos m2 * (P * Q)) by nia.
  lia.
Qed.

(** Comparing floats is comparing their whole numbers of units. *)
Lemma SFleb_scaled (x y : spec_float) :
  valid_binary x = true -> valid_binary y = true ->
  exponent_le 971 x -> exponent_le 971 y ->
  SFleb x y = (scaled x <=? scaled y)%Z.
Proof.
  intros Vx Vy Hx Hy.
  destruct x as [sx|sx| |sx mx ex], y as [sy|sy| |sy my ey];
    try contradiction.
  - reflexivity.
  - cbn [scaled]. unfold SFleb, SFcompare.
    destruct (valid_shape _ _ _ Vy) as (Hey & _).
    assert (0 < 2 ^ (ey + 1074)) by (apply Z.pow_pos_nonneg; lia).
    destruct sy; cbn [cond_Zopp]; symmetry;
      [apply Z.leb_gt | apply Z.leb_le]; nia.
  - cbn [scaled]. unfold SFleb, SFcompare.
    destruct (valid_shape _ _ _ Vx) as (Hex & _).
    assert (0 < 2 ^ (ex + 1074)) by (apply Z.pow_pos_nonneg; lia).
    destruct sx; cbn [cond_Zopp]; symmetry;
      [apply Z.leb_le | apply Z.leb_gt]; nia.
  - cbn [scaled]. unfold SFleb, SFcompare.
    destruct (valid_shape _ _ _ Vx) as (Hex & _).
    destruct (valid_shape _ _ _ Vy) as (Hey & _).
    assert (0 < 2 ^ (ex + 1074)) by (apply Z.pow_pos_nonneg; lia).
    assert (0 < 2 ^ (ey + 1074)) by (apply Z.pow_pos_nonneg; lia).
    assert (ex < ey ->
            Z.pos mx * 2 ^ (ex + 1074) < Z.pos my * 2 ^ (ey + 1074)) as Hlt
      by (apply (scaled_order mx my ex ey sx sy Vx Vy)).
    assert (ey < ex ->
            Z.pos my * 2 ^ (ey + 1074) < Z.pos mx * 2 ^ (ex + 1074)) as Hgt
      by (apply (scaled_order my mx ey ex sy sx Vy Vx)).
    change (Pos.compare_cont Eq mx my) with (Pos.compare mx my).
    destruct sx, sy; cbn [cond_Zopp]; symmetry.
    + destruct (Z.compare_spec ex ey) as [-> | Hc | Hc].
      * destruct (Pos.compare_spec mx my) as [-> | Hm | Hm]; cbn [CompOpp];
          [apply Z.leb_le | apply Z.leb_gt | apply Z.leb_le]; nia.
      * apply Z.leb_gt. specialize (Hlt Hc). lia.
      * apply Z.leb_le. specialize (Hgt Hc). lia.
    + apply Z.leb_le. nia.
    + apply Z.leb_gt. nia.
    + destruct (Z.compare_spec ex ey) as [-> | Hc | Hc].
      * destruct (Pos.compare_spec mx my) as [-> | Hm | Hm];
          [apply Z.leb_le | apply Z.leb_le | apply Z.leb_gt]; nia.
      * apply Z.leb_le. specialize (Hlt Hc). lia.
      * apply Z.leb_gt. specialize (Hgt Hc). lia.
Qed.

(** One bisection of a range on the grid: the midpoint the code computes
    is the exact one, and the new range is on the next grid. *)
Lemma bisect_on_grid (c j L : Z) (x : PrimFloat.float)
    (r : PrimFloat.float * PrimFloat.float) :
  0 <= j <= 47 -> 1 <= c <= 2 -> on_grid c j L r ->
  exponent_le 971 (Prim2SF x) ->
  fst (GPSConverter.bisect x r)
  = (45 * (L + 1) * 2 ^ (1074 + c - j) <=? scaled (Prim2SF x))%Z
  /\ on_grid c (j + 1)
       (if fst (GPSConverter.bisect x r) then 2 * L + 2 else 2 * L)
       (snd (GPSConverter.bisect x r))
  /\ scaled (Prim2SF (fst (snd (GPSConverter.bisect x r))))
     = (if fst (GPSConverter.bisect x r)
        then 45 * (L + 1) * 2 ^ (1074 + c - j)
        else scaled (Prim2SF (fst r)))
  /\ scaled (Prim2SF (snd (snd (GPSConverter.bisect x r))))
     = (if fst (GPSConverter.bisect x r)
        then scaled (Prim2SF (snd r))
        else 45 * (L + 1) * 2 ^ (1074 + c - j)).
Proof.
  intros Hj Hc (HL1 & HL2 & Hlo & Hhi & Slo & Shi) Hx.
  destruct r as [lo hi]. cbn [fst snd] in *.
  set (u := 2 ^ (1074 + c - j)) in *.
  assert (0 < u) as Hu by (apply Z.pow_pos_nonneg; lia).
  assert (2 ^ j <= 2 ^ 47) as Hpow by (apply Z.pow_le_mono_r; lia).
  change (2 ^ 47) with 140737488355328 in Hpow.
  assert (2 ^ (1074 + c - j + 1) = 2 * u) as Hu2
    by (unfold u; rewrite Z.pow_add_r, Z.pow_1_r by lia; ring).
  assert (2 ^ (1074 + c - (j + 1)) * 2 = u) as Hu1.
  { unfold u. replace (1074 + c - j) with (1074 + c - (j + 1) + 1) by lia.
    rewrite Z.pow_add_r, Z.pow_1_r by lia. reflexivity. }
  assert (scaled (Prim2SF lo) + scaled (Prim2SF hi)
          = 45 * (L + 1) * 2 ^ (1074 + c - j + 1)) as Esum
    by (rewrite Slo, Shi, Hu2; ring).
  assert (Z.abs (45 * (L + 1)) < 2 ^ 53) as Hfits
    by (change (2 ^ 53) with 9007199254740992; lia).
  destruct (SFadd_scaled (Prim2SF lo) (Prim2SF hi) (45 * (L + 1))
              (1074 + c - j + 1) (Prim2SF_valid _) (Prim2SF_valid _)
              Hlo Hhi Esum ltac:(lia) Hfits ltac:(lia)) as [Hsum Ssum].
  rewrite <- add_spec in Hsum, Ssum.
  destruct (SFdiv_two_scaled (Prim2SF (lo + hi)) (45 * (L + 1))
              (1074 + c - j + 1) (Prim2SF_valid _) Hsum
              ltac:(rewrite Ssum; exact Esum) ltac:(lia)) as [Hmid Smid].
  change two with (Prim2SF 2) in Hmid, Smid.
  rewrite <- div_spec in Hmid, Smid.
  assert (scaled (Prim2SF ((lo + hi) / 2)) = 45 * (L + 1) * u) as Smid'.
  { rewrite Ssum, Slo, Shi in Smid. lia. }
  unfold GPSConverter.bisect. cbn [fst snd].
  rewrite FloatAxioms.leb_spec,
    (SFleb_scaled _ _ (Prim2SF_valid _) (Prim2SF_valid _) Hmid Hx), Smid'.
  assert (2 ^ (j + 1) = 2 * 2 ^ j) as Hj1
    by (rewrite Z.pow_add_r, Z.pow_1_r by lia; ring).
  destruct (45 * (L + 1) * u <=? scaled (Prim2SF x))%Z; cbn [fst snd].
  - split; [reflexivity|]. split; [|split; [exact Smid' | reflexivity]].
    unfold on_grid. cbn [fst snd]. rewrite Hj1.
    repeat split; try assumption; lia.
  - split; [reflexivity|]. split; [|split; [reflexivity | exact Smid']].
    unfold on_grid. cbn [fst snd]. rewrite Hj1.
    repeat split; try assumption; lia.
Qed.

End Exact.

(** ** The exact bisection in units *)

Section ExactNumbers.
Import FloatSize.
Local Open Scope Q_scope.

Lemma Q_of_units (q : Q) (z : Z) (D : positive) :
  q * inject_Z (Z.pos D) == inject_Z z -> q == z # D.
Proof.
  intros E. rewrite (Qmake_Qdiv z D), <- E.
  rewrite Qdiv_mult_l; [reflexivity|].
  unfold Qeq. cbn. lia.
Qed.

Lemma power_in_units (e : Z) :
  (-1074 <= e)%Z ->
  Qpower 2 e * inject_Z (Z.pos units) == inject_Z (2 ^ (e + 1074)).
Proof.
  intros He. unfold units.
  rewrite Pos2Z.inj_pow, !Zpower_Qpower by lia.
  change (inject_Z 2) with 2.
  rewrite <- Qpower_plus by discriminate. reflexivity.
Qed.

(** The number a float denotes, in units. *)
Lemma float_value_scaled (x : PrimFloat.float) :
  exponent_le 971 (Prim2SF x) ->
  GPSConverter.float_value x == scaled (Prim2SF x) # units.
Proof.
  intros Hx. unfold GPSConverter.float_value. pose proof (Prim2SF_valid x) as V.
  destruct (Prim2SF x) as [s|s| |s m e]; try contradiction.
  - unfold Qeq. cbn [scaled Qnum Qden]. lia.
  - destruct (valid_shape _ _ _ V) as (He & _).
    rewrite Qred_correct. apply Q_of_units. cbn [scaled].
    rewrite <- Qmult_assoc, power_in_units by lia.
    rewrite <- inject_Z_mult. reflexivity.
Qed.

(** One exact bisection, on numbers given in units. *)
Lemma exact_bisect_scaled (D : positive) (sx slo shi smid : Z)
    (qx qlo qhi : Q) :
  qx == sx # D -> qlo == slo # D -> qhi == shi # D ->
  (slo + shi = 2 * smid)%Z ->
  fst (GPSConverter.exact_bisect qx (qlo, qhi)) = (smid <=? sx)%Z
  /\ fst (snd (GPSConverter.exact_bisect qx (qlo, qhi)))
     == (if fst (GPSConverter.exact_bisect qx (qlo, qhi))
         then smid else slo) # D
  /\ snd (snd (GPSConverter.exact_bisect qx (qlo, qhi)))
     == (if fst (GPSConverter.exact_bisect qx (qlo, qhi))
         then shi else smid) # D.
Proof.
  intros Hx Hlo Hhi Hmid. unfold GPSConverter.exact_bisect. cbn [fst snd].
  assert (Qred ((qlo + qhi) / 2) == smid # D) as Emid.
  { rewrite Qred_correct, Hlo, Hhi. unfold Qeq, Qdiv, Qmult, Qplus, Qinv.
    cbn [Qnum Qden]. rewrite !Pos2Z.inj_mul.
    replace (slo * Z.pos D + shi * Z.pos D)%Z
      with (2 * smid * Z.pos D)%Z by (rewrite <- Hmid; ring).
    ring. }
  assert (Qle_bool (Qred ((qlo + qhi) / 2)) qx = (smid <=? sx)%Z) as ->.
  { rewrite Emid, Hx. unfold Qle_bool. cbn [Qnum Qden].
    destruct (Z.leb_spec smid sx); [apply Z.leb_le | apply Z.leb_gt]; nia. }
  destruct (smid <=? sx)%Z; cbn [fst snd]; auto.
Qed.

(** A bisection of the code and the exact bisection give the same bit
    and keep the ranges together. *)
Lemma bisect_tracks (c j : Z) (x : PrimFloat.float)
    (r : PrimFloat.float * PrimFloat.float) (q : Q * Q) :
  (0 <= j <= 47)%Z -> (1 <= c <= 2)%Z -> exponent_le 971 (Prim2SF x) ->
  tracks c j r q ->
  fst (GPSConverter.bisect x r)
  = fst (GPSConverter.exact_bisect (GPSConverter.float_value x) q)
  /\ tracks c (j + 1) (snd (GPSConverter.bisect x r))
       (snd (GPSConverter.exact_bisect (GPSConverter.float_value x) q)).
Proof.
  intros Hj Hc Hx ([L HL] & Hq1 & Hq2). destruct q as [qlo qhi].
  cbn [fst snd] in Hq1, Hq2.
  destruct (bisect_on_grid c j L x r Hj Hc HL Hx) as (Hb & Hgrid & S1 & S2).
  destruct HL as (_ & _ & _ & _ & Slo & Shi).
  destruct (exact_bisect_scaled units (scaled (Prim2SF x))
              (scaled (Prim2SF (fst r))) (scaled (Prim2SF (snd r)))
              (45 * (L + 1) * 2 ^ (1074 + c - j))
              (GPSConverter.float_value x) qlo qhi
              (float_value_scaled x Hx) Hq1 Hq2) as (Eb & E1 & E2).
  { rewrite Slo, Shi. ring. }
  assert (fst (GPSConverter.bisect x r)
          = fst (GPSConverter.exact_bisect (GPSConverter.float_value x)
                   (qlo, qhi))) as Ebits by (now rewrite Hb, Eb).
  split; [exact Ebits|]. split; [eexists; exact Hgrid|].
  rewrite S1, S2, Ebits. split; assumption.
Qed.

Section Agreement.
Variables latitude longitude : PrimFloat.float.
Hypothesis Hlat : exponent_le 971 (Prim2SF latitude).
Hypothesis Hlon : exponent_le 971 (Prim2SF longitude).

(** As long as neither range has been bisected more than 48 times, the
    bits of the code are the bits of the exact bisection. *)
Lemma bits_agree (n : nat) : forall ev jlat jlon lat_r lon_r qlat qlon,
  (0 <= jlat)%Z -> (0 <= jlon)%Z ->
  tracks 1 jlat lat_r qlat -> tracks 2 jlon lon_r qlon ->
  ((if ev : bool then jlon else jlat) + (Z.of_nat n + 1) / 2 <= 48)%Z ->
  ((if ev : bool then jlat else jlon) + Z.of_nat n / 2 <= 48)%Z ->
  GPSConverter.interleaved_bits n ev latitude longitude lat_r lon_r
  = GPSConverter.exact_bits n ev (GPSConverter.float_value latitude)
      (GPSConverter.float_value longitude) qlat qlon.
Proof.
  induction n as [|n IH];
    intros ev jlat jlon lat_r lon_r qlat qlon Hjlat Hjlon Tlat Tlon H1 H2;
    [reflexivity|].
  cbn [GPSConverter.interleaved_bits GPSConverter.exact_bits].
  rewrite Nat2Z.inj_succ in H1, H2.
  assert (0 <= Z.of_nat n / 2)%Z by (apply Z.div_pos; lia).
  assert (Z.of_nat n / 2 <= (Z.of_nat n + 1) / 2)%Z
    by (apply Z.div_le_mono; lia).
  assert ((Z.succ (Z.of_nat n) + 1) / 2 = Z.of_nat n / 2 + 1)%Z as E1
    by (replace (Z.succ (Z.of_nat n) + 1)%Z with (Z.of_nat n + 1 * 2)%Z by lia;
        apply Z.div_add; lia).
  rewrite E1 in H1. replace (Z.succ (Z.of_nat n)) with (Z.of_nat n + 1)%Z in H2 by lia.
  destruct ev; cbv iota in H1, H2.
  - destruct (bisect_tracks 2 jlon longitude lon_r qlon ltac:(lia) ltac:(lia)
                Hlon Tlon) as [Eb T'].
    destruct (GPSConverter.bisect longitude lon_r) as [b r].
    destruct (GPSConverter.exact_bisect _ qlon) as [b' q'].
    cbn [fst snd] in Eb, T'. subst b'. f_equal.
    apply (IH false jlat (jlon + 1)%Z); try assumption; lia.
  - destruct (bisect_tracks 1 jlat latitude lat_r qlat ltac:(lia) ltac:(lia)
                Hlat Tlat) as [Eb T'].
    destruct (GPSConverter.bisect latitude lat_r) as [b r].
    destruct (GPSConverter.exact_bisect _ qlat) as [b' q'].
    cbn [fst snd] in Eb, T'. subst b'. f_equal.
    apply (IH true (jlat + 1)%Z jlon); try assumption; lia.
Qed.

End Agreement.

(** The two ranges of the geohash are on the grid. *)
Lemma ranges_tracked :
  tracks 1 0 ((-90)%float, 90%float) ((-90)%Q, 90%Q)
  /\ tracks 2 0 ((-180)%float, 180%float) ((-180)%Q, 180%Q).
Proof.
  split; (split; [exists (-1)%Z; unfold on_grid; cbn [fst snd];
                  repeat split; vm_compute; congruence
                 | split; vm_compute; reflexivity]).
Qed.

End ExactNumbers.

(** C1, with the bound it needs: for a latitude in [-90, 90], a longitude
    in [-180, 180] and a precision from 1 to 19, [to_geohash] returns the
    standard geohash of the point: the text over the alphabet obtained by
    bisecting the longitude range and the latitude range in turn, longitude
    first, one bit per bisection (1 exactly when the coordinate is at least
    the exact midpoint of its range), one symbol per five bits.  Up to 19
    symbols no range is bisected more than 48 times, and up to there every
    midpoint the code computes in binary64 is the exact one. *)
Theorem to_geohash_is_standard_geohash
    (latitude longitude : PrimFloat.float) (precision : Z) :
  PrimFloat.leb (-90)%float latitude = true ->
  PrimFloat.leb latitude 90%float = true ->
  PrimFloat.leb (-180)%float longitude = true ->
  PrimFloat.leb longitude 180%float = true ->
  1 <= precision <= 19 ->
  GPSConverter.to_geohash latitude longitude precision =
  Some (Ok (GPSConverter.standard_geohash latitude longitude
              (Z.to_nat precision))).
Proof.
  intros Hlat1 Hlat2 Hlon1 Hlon2 Hp.
  pose proof (exponent_le_mono (-45) 971 _ ltac:(lia)
                (latitude_exponent latitude Hlat1 Hlat2)) as Hlat.
  pose proof (exponent_le_mono (-45) 971 _ ltac:(lia)
                (longitude_exponent longitude Hlon1 Hlon2)) as Hlon.
  unfold GPSConverter.to_geohash.
  replace (5 * Z.to_nat precision + 1)%nat
    with (5 * Z.to_nat precision + 1 + 0)%nat by lia.
  rewrite to_geohash_fuel_enough.
  unfold GPSConverter.symbols, GPSConverter.standard_geohash.
  destruct ranges_tracked as [Tlat Tlon].
  assert (0 <= Z.of_nat (5 * Z.to_nat precision) <= 95) as Hn by lia.
  rewrite (bits_agree latitude longitude Hlat Hlon (5 * Z.to_nat precision)
             true 0 0 _ _ _ _ ltac:(lia) ltac:(lia) Tlat Tlon);
    [reflexivity | |]; cbv iota; rewrite Z.add_0_l.
  - apply Z.div_le_upper_bound; lia.
  - apply Z.div_le_upper_bound; lia.
Qed.

Lemma to_geohash_is_standard_geohash_witness :
  GPSConverter.to_geohash 57.64911%float 10.40744%float 19 =
  Some (Ok (GPSConverter.standard_geohash 57.64911%float 10.40744%float 19)).
Proof.
  apply (to_geohash_is_standard_geohash 57.64911%float 10.40744%float 19);
    [reflexivity | reflexivity | reflexivity | reflexivity | lia].
Defined.

(** C1, as stated for every precision, fails from 20 symbols on.  At
    longitude 134.98694069384447, which is a binary64 number, the 49th
    midpoint of the longitude range lies halfway between two binary64
    numbers and the code rounds it down to the longitude itself: the code
    takes the upper half, the exact bisection the lower half. *)
Theorem to_geohash_differs_at_20 :
  PrimFloat.leb (-90)%float 0%float = true
  /\ PrimFloat.leb 0%float 90%float = true
  /\ PrimFloat.leb (-180)%float 0x1.0df9504a664eap+7%float = true
  /\ PrimFloat.leb 0x1.0df9504a664eap+7%float 180%float = true
  /\ 1 <= 20
  /\ GPSConverter.to_geohash 0%float 0x1.0df9504a664eap+7%float 20
     = Some (Ok "wbpbp8n2p8n20b40j0h8")
  /\ GPSConverter.standard_geohash 0%float 0x1.0df9504a664eap+7%float 20
     = "wbpbp8n2p8n20b40j0h2"
  /\ GPSConverter.to_geohash 0%float 0x1.0df9504a664eap+7%float 20
     <> Some (Ok (GPSConverter.standard_geohash 0%float
                    0x1.0df9504a664eap+7%float (Z.to_nat 20))).
Proof.
  repeat (split; [first [vm_compute; reflexivity | lia]|]).
  vm_compute. discriminate.
Qed.

(** The two also part on ordinary coordinates, later: at (40.446111,
    -79.982222) from 22 symbols on. *)
Example to_geohash_differs_at_22 :
  GPSConverter.to_geohash 40.446111%float (-79.982222)%float 21
  = Some (Ok (GPSConverter.standard_geohash 40.446111%float
                (-79.982222)%float 21))
  /\ GPSConverter.to_geohash 40.446111%float (-79.982222)%float 22
     = Some (Ok "dppn5fyxxjs9vzf3mq18jy")
  /\ GPSConverter.standard_geohash 40.446111%float (-79.982222)%float 22
     = "dppn5fyxxjs9vzf3mq18jt".
Proof. repeat split; vm_compute; reflexivity. Qed.

(** ** A batch that keeps the originals, file by file *)

Section Copies.
Import EXIFProcessor BatchProcessor Log.
Context `{FileSystem}.

(** A call that returns, followed by the rest; a call that raises. *)
Lemma call_then {A} (k : string -> M A) (c : call)
    (f : world -> result unit * world) (a : string) (w : world) :
  fst (f w) = Ok tt ->
  let o := (let* working_path := (let* _ := invoke c f in ret a) in
            k working_path) w in
  let o' := (let* working_path := ret a in k working_path) (snd (f w)) in
  res o = res o' /\ final o = final o' /\ log o = Event c None :: log o'.
Proof.
  cbv zeta. unfold bindM, invoke, ret.
  destruct (f w) as [[[]|e] w1]; cbn [fst snd]; [intros _|discriminate].
  destruct (k a w1) as [r' w' l']. cbn [res final log app]. auto.
Qed.

Lemma call_fails {A} (k : string -> M A) (c : call)
    (f : world -> result unit * world) (a : string) (w : world) (e : exn) :
  fst (f w) = Raise e ->
  let o := (let* working_path := (let* _ := invoke c f in ret a) in
            k working_path) w in
  res o = Raise e /\ final o = snd (f w) /\ log o = [Event c (Some e)].
Proof.
  cbv zeta. unfold bindM, invoke, ret.
  destruct (f w) as [[[]|e'] w1]; cbn [fst snd]; [discriminate|intros [= ->]].
  cbn [res final log]. auto.
Qed.

(** When the copy succeeds, the rest is the processing of the copy in
    place. *)
Lemma process_file_copy_ok operation exif_data file_path w :
  fst (copy2 file_path (modified_path file_path) w) = Ok tt ->
  let o := process_file operation true exif_data file_path w in
  let o' := process_file operation false exif_data (modified_path file_path)
              (snd (copy2 file_path (modified_path file_path) w)) in
  res o = res o' /\ final o = final o'
  /\ log o = Event (Copy2 file_path (modified_path file_path)) None :: log o'.
Proof. intros E. unfold process_file. now apply call_then. Qed.

(** When the copy fails, nothing else is done. *)
Lemma process_file_copy_fails operation exif_data file_path w e :
  fst (copy2 file_path (modified_path file_path) w) = Raise e ->
  let o := process_file operation true exif_data file_path w in
  res o = Raise e
  /\ final o = snd (copy2 file_path (modified_path file_path) w)
  /\ log o = [Event (Copy2 file_path (modified_path file_path)) (Some e)].
Proof. intros E. unfold process_file. now apply call_fails. Qed.

Lemma process_file_first_call operation exif_data file_path w :
  hd_error
    (map ev_call (log (process_file operation true exif_data file_path w)))
  = Some (Copy2 file_path (modified_path file_path)).
Proof.
  destruct (fst (copy2 file_path (modified_path file_path) w)) as [[]|e] eqn:E.
  - destruct (process_file_copy_ok operation exif_data file_path w E)
      as (_ & _ & ->). reflexivity.
  - destruct (process_file_copy_fails operation exif_data file_path w e E)
      as (_ & _ & ->). reflexivity.
Qed.

(** In place, a file that is processed without error has had the calls of
    the operation, and no file is ever copied. *)
Lemma process_file_in_place operation exif_data file_path w :
  let o := process_file operation false exif_data file_path w in
  (res o = Ok tt ->
   map ev_call (log o) = operation_calls operation file_path)
  /\ Forall (fun c => is_copy c = false) (map ev_call (log o)).
Proof.
  cbv zeta. unfold process_file, operation_calls, delete, edit, wrapped.
  destruct (String.eqb operation "delete"), (String.eqb operation "edit");
    run_code; cbn [res log map ev_call app];
    (split; [intros Hr; first [discriminate Hr | reflexivity]
            | repeat constructor]).
Qed.

End Copies.

(** X27: the step of the batch for one file, with [preserve_original]:
    the first call is the copy of the file to its "_modified" path; when
    that copy fails the step fails with the same exception and nothing else
    is called; when it succeeds, the copy holds what the file held and what
    follows is exactly the step without [preserve_original] on the copy;
    in both cases the file itself reads as before.  Without
    [preserve_original] nothing is copied, and a step that ends without
    exception has made the calls of the operation on the file itself. *)
Theorem batch_step_copies_then_works_on_the_copy `{FileSystem}
    (operation : string) (exif_data : option (list (key * exif_value)))
    (file_path : string) (w : world) :
  let copy := BatchProcessor.modified_path file_path in
  let o := BatchProcessor.process_file operation true exif_data file_path w in
  let w1 := snd (copy2 file_path copy w) in
  let on_copy := BatchProcessor.process_file operation false exif_data copy w1 in
  let in_place := BatchProcessor.process_file operation false exif_data
                    file_path w in
  hd_error (map ev_call (log o)) = Some (Copy2 file_path copy)
  /\ (forall e, fst (copy2 file_path copy w) = Raise e ->
        res o = Raise e /\ final o = w1
        /\ log o = [Event (Copy2 file_path copy) (Some e)])
  /\ (fst (copy2 file_path copy w) = Ok tt ->
        read w1 copy = read w file_path
        /\ res o = res on_copy /\ final o = final on_copy
        /\ log o = Event (Copy2 file_path copy) None :: log on_copy
        /\ (res o = Ok tt ->
            map ev_call (log o)
            = Copy2 file_path copy
              :: BatchProcessor.operation_calls operation copy))
  /\ read (final o) file_path = read w file_path
  /\ (res in_place = Ok tt ->
      map ev_call (log in_place)
      = BatchProcessor.operation_calls operation file_path)
  /\ Forall (fun c => Log.is_copy c = false) (map ev_call (log in_place)).
Proof.
  cbv zeta. split; [apply process_file_first_call|].
  split; [intros e E; now apply process_file_copy_fails|].
  split.
  - intros E. split; [now apply copy2_copies|].
    destruct (process_file_copy_ok operation exif_data file_path w E)
      as (Hr & Hf & Hl).
    repeat (split; [assumption|]).
    intros Hok. rewrite Hl. cbn [map ev_call]. f_equal.
    rewrite Hr in Hok.
    now apply (process_file_in_place operation exif_data).
  - split.
    + apply (process_file_frame operation true).
      intros E. symmetry in E. revert E. apply modified_path_neq.
    + apply process_file_in_place.
Qed.

(** On the concrete world: the step for a lone photograph, and for a file
    that does not exist. *)
Example batch_step_on_disk :
  let o := @BatchProcessor.process_file Disk.disk_libs "delete" true None
             "/d/a.jpg"
             (<["/d/a.jpg" := Disk.File (Some "Canon") "pixels of a"]> ∅) in
  let o' := @BatchProcessor.process_file Disk.disk_libs "delete" true None
              "/d/missing.jpg" ∅ in
  map ev_call (log o)
  = [Copy2 "/d/a.jpg" "/d/a_modified.jpg"; PiexifRemove "/d/a_modified.jpg"]
  /\ map ev_call (log o')
     = [Copy2 "/d/missing.jpg" "/d/missing_modified.jpg"]
  /\ res o' = Raise (Exn OSError
                       "No such file or directory: /d/missing.jpg").
Proof. vm_compute. auto. Qed.
